(** * Field extraction from OCR text lines: the date finder and its helpers

    A shallow embedding of [info_extractor] (modules [date], [re_pattern],
    [extract], [match], [finders/date] and [kouhi_analyzer]) and the
    properties of its line scorer, date codec, date disambiguator and
    analyzer fallbacks. *)

From Stdlib Require Import String Ascii.
From Stdlib Require Import NArith ZArith Bool Lia Arith List.
From Stdlib Require Import DecimalN DecimalFacts.
From Stdlib Require Import Permutation Sorted.
Import ListNotations.

Set Implicit Arguments.

(* ===================================================================== *)
(** * Python strings                                                       *)
(* ===================================================================== *)

(** A Python [str] is a sequence of Unicode code points. *)
Definition char := N.
Definition text := list char.

(** Source literals are written as UTF-8 byte strings and decoded here. *)
Fixpoint utf8 (bs : list N) : text :=
  match bs with
  | [] => []
  | b :: tl =>
    if (b <? 128)%N then b :: utf8 tl
    else match tl with
      | [] => []
      | b1 :: tl1 =>
        if (b <? 224)%N then ((b mod 32) * 64 + b1 mod 64)%N :: utf8 tl1
        else match tl1 with
          | [] => []
          | b2 :: tl2 =>
            if (b <? 240)%N
            then ((b mod 16) * 4096 + (b1 mod 64) * 64 + b2 mod 64)%N :: utf8 tl2
            else match tl2 with
              | [] => []
              | b3 :: tl3 =>
                ((b mod 8) * 262144 + (b1 mod 64) * 4096
                 + (b2 mod 64) * 64 + b3 mod 64)%N :: utf8 tl3
              end
          end
      end
  end.

Definition U (s : string) : text :=
  utf8 (map (fun a => N_of_ascii a) (list_ascii_of_string s)).

Definition ch (s : string) : char := hd 0%N (U s).

Arguments U s%_string.
Arguments ch s%_string.

Definition char_eqb (a b : char) : bool := N.eqb a b.

Fixpoint text_eqb (a b : text) : bool :=
  match a, b with
  | [], [] => true
  | x :: a', y :: b' => char_eqb x y && text_eqb a' b'
  | _, _ => false
  end.

(** [s.startswith(p)] *)
Fixpoint startswith (p s : text) : bool :=
  match p, s with
  | [], _ => true
  | x :: p', y :: s' => char_eqb x y && startswith p' s'
  | _ :: _, [] => false
  end.

(** [s.find(sub)]: index of the first occurrence, [None] for Python's -1. *)
Fixpoint str_find_from (sub s : text) (i : nat) : option nat :=
  if startswith sub s then Some i
  else match s with
       | [] => None
       | _ :: s' => str_find_from sub s' (S i)
       end.

Definition str_find (sub s : text) : option nat := str_find_from sub s 0.

(** [sub in s] *)
Definition str_contains (sub s : text) : bool :=
  match str_find sub s with Some _ => true | None => false end.

(** [s.index(sub)], used by the source only under a guard that makes the
    substring present; an absent substring raises [ValueError] in Python,
    which the guards exclude. *)
Definition str_index (sub s : text) : nat :=
  match str_find sub s with Some i => i | None => length s end.

(** [s[:i]] and [s[i:]] for a non-negative [i]. *)
Definition upto (i : nat) (s : text) : text := firstn i s.
Definition from (i : nat) (s : text) : text := skipn i s.

(** [s.endswith(p)] *)
Definition endswith (p s : text) : bool :=
  (length p <=? length s) && text_eqb (skipn (length s - length p) s) p.

(** [s.replace(old, new)] for a non-empty [old]: occurrences are replaced
    left to right without overlap. *)
Fixpoint replace_fuel (fuel : nat) (old new s : text) : text :=
  match fuel with
  | O => s
  | S f =>
    match s with
    | [] => []
    | c :: s' =>
      if startswith old s
      then new ++ replace_fuel f old new (skipn (length old) s)
      else c :: replace_fuel f old new s'
    end
  end.

Definition str_replace (old new s : text) : text :=
  replace_fuel (S (length s)) old new s.

(** Lexicographic order on code points: Python's [<] and [>] on [str]. *)
Fixpoint text_ltb (a b : text) : bool :=
  match a, b with
  | [], [] => false
  | [], _ :: _ => true
  | _ :: _, [] => false
  | x :: a', y :: b' =>
    if (x <? y)%N then true
    else if (y <? x)%N then false
    else text_ltb a' b'
  end.

Definition text_gtb (a b : text) : bool := text_ltb b a.
Definition text_leb (a b : text) : bool := negb (text_ltb b a).

(** ASCII digits, and the decimal digits [\d] stands for.  [\d] in a [str]
    pattern is Unicode-aware: besides the ASCII digits it accepts the
    decimal digits of other scripts, of which the blocks of the Basic
    Multilingual Plane that OCR output can carry are listed. *)
Definition is_ascii_digit (c : char) : bool := ((48 <=? c) && (c <=? 57))%N.

Definition decimal_blocks : list N :=
  [ 48; 1632; 1776; 1984; 2406; 2534; 2662; 2790; 2918; 3046; 3174; 3302;
    3430; 3664; 3792; 3872; 4160; 4240; 6112; 6160; 65296 ]%N.

Definition is_decimal (c : char) : bool :=
  existsb (fun lo => (lo <=? c) && (c <? lo + 10))%N decimal_blocks.

(** [s.isdigit()] *)
Definition isdigit (s : text) : bool :=
  match s with [] => false | _ => forallb is_decimal s end.

(** [int(s)] for a string of ASCII digits and [str(n)] for [n >= 0]. *)
Definition digit_of_char (c : char) : Decimal.uint -> Decimal.uint :=
  match (c - 48)%N with
  | 0 => Decimal.D0 | 1 => Decimal.D1 | 2 => Decimal.D2 | 3 => Decimal.D3
  | 4 => Decimal.D4 | 5 => Decimal.D5 | 6 => Decimal.D6 | 7 => Decimal.D7
  | 8 => Decimal.D8 | _ => Decimal.D9
  end%N.

Fixpoint uint_of_text (s : text) : Decimal.uint :=
  match s with
  | [] => Decimal.Nil
  | c :: s' => digit_of_char c (uint_of_text s')
  end.

Fixpoint text_of_uint (u : Decimal.uint) : text :=
  match u with
  | Decimal.Nil => []
  | Decimal.D0 u' => 48%N :: text_of_uint u'
  | Decimal.D1 u' => 49%N :: text_of_uint u'
  | Decimal.D2 u' => 50%N :: text_of_uint u'
  | Decimal.D3 u' => 51%N :: text_of_uint u'
  | Decimal.D4 u' => 52%N :: text_of_uint u'
  | Decimal.D5 u' => 53%N :: text_of_uint u'
  | Decimal.D6 u' => 54%N :: text_of_uint u'
  | Decimal.D7 u' => 55%N :: text_of_uint u'
  | Decimal.D8 u' => 56%N :: text_of_uint u'
  | Decimal.D9 u' => 57%N :: text_of_uint u'
  end.

Definition py_int (s : text) : N := N.of_uint (uint_of_text s).
Definition py_str (n : N) : text := text_of_uint (N.to_uint n).

(** [s.zfill(w)] for a string without sign. *)
Definition zfill (w : nat) (s : text) : text :=
  repeat 48%N (w - length s) ++ s.

(* ===================================================================== *)
(** * Regular expressions                                                  *)
(* ===================================================================== *)

(** The patterns of [re_pattern] are values of [re]; [search], [findall] and
    [sub] follow the backtracking discipline of the [regex] library:
    leftmost match, alternatives in order, greedy repetition. *)

Inductive citem : Type :=
| IChr (c : char)             (* a literal character *)
| IRange (lo hi : char)       (* a-b *)
| IDigit                      (* \d *)
| INonDigit.                  (* \D *)

Inductive cls : Type :=
| Any                         (* .      (anything but a newline) *)
| Of (items : list citem)     (* [...]  *)
| NotOf (items : list citem). (* [^...] *)

Inductive re : Type :=
| Eps
| One (c : cls)
| Seq (a b : re)
| Alt (a b : re)
| Rep (c : cls) (lo : nat) (hi : option nat)  (* c{lo,hi}, greedy *)
| Grp (n : nat) (a : re)                      (* the n-th capturing group *)
| Bol                                         (* ^ *)
| Eol                                         (* $ *)
| NotAhead (a : re)                           (* (?!a) *)
| Fuzzy (lit : text) (k : nat).               (* (lit){e<k} *)

Definition citem_match (i : citem) (c : char) : bool :=
  match i with
  | IChr x => char_eqb x c
  | IRange lo hi => ((lo <=? c) && (c <=? hi))%N
  | IDigit => is_decimal c
  | INonDigit => negb (is_decimal c)
  end.

Definition cls_match (k : cls) (c : char) : bool :=
  match k with
  | Any => negb (char_eqb c 10%N)
  | Of items => existsb (fun i => citem_match i c) items
  | NotOf items => negb (existsb (fun i => citem_match i c) items)
  end.

(** Captured groups, the most recent binding first. *)
Definition caps := list (nat * text).

Fixpoint cap (n : nat) (cs : caps) : text :=
  match cs with
  | [] => []
  | (m, t) :: cs' => if Nat.eqb m n then t else cap n cs'
  end.

(** A match in progress: the position, the text from there on, the groups. *)
Definition mres : Type := nat * text * caps.
Definition cont : Type := nat -> text -> caps -> option mres.

Definition orelse (A : Type) (x y : option A) : option A :=
  match x with Some _ => x | None => y end.

Definition hi_open (hi : option nat) : bool :=
  match hi with Some O => false | _ => true end.

Definition hi_pred (hi : option nat) : option nat :=
  match hi with Some n => Some (pred n) | None => None end.

(** Greedy repetition of a one-character class. *)
Fixpoint rep_cls (c : cls) (lo : nat) (hi : option nat)
         (pos : nat) (rest : text) (cs : caps) (k : cont) : option mres :=
  let stop := if Nat.eqb lo 0 then k pos rest cs else None in
  match rest with
  | x :: rest' =>
    if hi_open hi && cls_match c x
    then orelse (rep_cls c (pred lo) (hi_pred hi) (S pos) rest' cs k) stop
    else stop
  | [] => stop
  end.

(** Approximate match of a literal with fewer than [k] errors; [budget] is
    the number of errors still allowed.  An error is a substituted, an
    inserted or a deleted character. *)
Fixpoint fuzzy_lit (fuel : nat) (lit : text) (budget : nat)
         (pos : nat) (rest : text) (cs : caps) (k : cont) : option mres :=
  match fuel with
  | O => None
  | S f =>
    match lit with
    | [] =>
      orelse (k pos rest cs)
        (match rest, budget with
         | _ :: rest', S b => fuzzy_lit f [] b (S pos) rest' cs k
         | _, _ => None
         end)
    | c :: lit' =>
      let exact :=
        match rest with
        | x :: rest' =>
          if char_eqb c x then fuzzy_lit f lit' budget (S pos) rest' cs k
          else None
        | [] => None
        end in
      let errs :=
        match budget with
        | O => None
        | S b =>
          orelse
            (match rest with
             | _ :: rest' =>
               orelse (fuzzy_lit f lit' b (S pos) rest' cs k)
                      (fuzzy_lit f lit b (S pos) rest' cs k)
             | [] => None
             end)
            (fuzzy_lit f lit' b pos rest cs k)
        end in
      orelse exact errs
    end
  end.

Definition accept : cont := fun pos rest cs => Some (pos, rest, cs).

Fixpoint mt (r : re) (pos : nat) (rest : text) (cs : caps) (k : cont)
  : option mres :=
  match r with
  | Eps => k pos rest cs
  | One c =>
    match rest with
    | x :: rest' => if cls_match c x then k (S pos) rest' cs else None
    | [] => None
    end
  | Seq a b => mt a pos rest cs (fun p r' c' => mt b p r' c' k)
  | Alt a b => orelse (mt a pos rest cs k) (mt b pos rest cs k)
  | Rep c lo hi => rep_cls c lo hi pos rest cs k
  | Grp n a =>
    mt a pos rest cs (fun p r' c' => k p r' ((n, firstn (p - pos) rest) :: c'))
  | Bol => if Nat.eqb pos 0 then k pos rest cs else None
  | Eol =>
    match rest with
    | [] => k pos rest cs
    | [c] => if char_eqb c 10%N then k pos rest cs else None
    | _ => None
    end
  | NotAhead a =>
    match mt a pos rest cs accept with
    | Some _ => None
    | None => k pos rest cs
    end
  | Fuzzy lit e =>
    fuzzy_lit (S (length lit + length rest)) lit (pred e) pos rest cs k
  end.

(** A found match: where it starts, where it ends, its groups. *)
Record rmatch : Type := mkMatch { m_start : nat; m_end : nat; m_caps : caps }.

(** [p.search(s)] from position [pos], where [rest] is [s[pos:]]. *)
Fixpoint search_from (r : re) (pos : nat) (rest : text) : option rmatch :=
  match mt r pos rest [] accept with
  | Some (e, _, cs) => Some (mkMatch pos e cs)
  | None =>
    match rest with
    | [] => None
    | _ :: rest' => search_from r (S pos) rest'
    end
  end.

Definition search (r : re) (s : text) : option rmatch := search_from r 0 s.

Definition matches (r : re) (s : text) : bool :=
  match search r s with Some _ => true | None => false end.

(** The successive matches of [p.finditer(s)], left to right, without
    overlap. *)
Fixpoint finditer_from (fuel : nat) (r : re) (pos : nat) (rest : text)
  : list rmatch :=
  match fuel with
  | O => []
  | S f =>
    match search_from r pos rest with
    | None => []
    | Some m =>
      let nxt := if Nat.eqb (m_end m) (m_start m) then S (m_end m) else m_end m in
      m :: finditer_from f r nxt (skipn (nxt - pos) rest)
    end
  end.

Definition finditer (r : re) (s : text) : list rmatch :=
  finditer_from (S (length s)) r 0 s.

(** [p.findall(s)] for a pattern with [n >= 2] groups: one tuple of group
    texts for each match. *)
Definition findall_groups (n : nat) (r : re) (s : text) : list (list text) :=
  map (fun m => map (fun g => cap g (m_caps m)) (seq 1 n)) (finditer r s).

(** [p.sub(repl, s)], the replacement computed from the groups. *)
Fixpoint sub_from (fuel : nat) (r : re) (repl : caps -> text)
         (pos : nat) (rest : text) : text :=
  match fuel with
  | O => rest
  | S f =>
    match search_from r pos rest with
    | None => rest
    | Some m =>
      let before := firstn (m_start m - pos) rest in
      if Nat.eqb (m_end m) (m_start m)
      then match skipn (m_start m - pos) rest with
           | [] => before ++ repl (m_caps m)
           | c :: rest' =>
             before ++ repl (m_caps m) ++ c :: sub_from f r repl (S (m_end m)) rest'
           end
      else before ++ repl (m_caps m)
           ++ sub_from f r repl (m_end m) (skipn (m_end m - pos) rest)
    end
  end.

Definition sub (r : re) (repl : caps -> text) (s : text) : text :=
  sub_from (S (length s)) r repl 0 s.

(** Pattern syntax: a literal string, a sequence, a choice. *)
Definition chr (c : char) : re := One (Of [IChr c]).

Fixpoint lit (s : text) : re :=
  match s with
  | [] => Eps
  | [c] => chr c
  | c :: s' => Seq (chr c) (lit s')
  end.

Fixpoint seqs (rs : list re) : re :=
  match rs with
  | [] => Eps
  | [r] => r
  | r :: rs' => Seq r (seqs rs')
  end.

Fixpoint alts (rs : list re) : re :=
  match rs with
  | [] => NotAhead Eps
  | [r] => r
  | r :: rs' => Alt r (alts rs')
  end.

Definition opt (c : cls) : re := Rep c 0 (Some 1).
Definition star (c : cls) : re := Rep c 0 None.
Definition digit09 : citem := IRange 48%N 57%N.
Definition rng (a b : string) : citem := IRange (ch a) (ch b).
Definition oneof (s : string) : cls := Of (map IChr (U s)).

Arguments rng (a b)%_string.
Arguments oneof s%_string.

(* ===================================================================== *)
(** * [re_pattern]: the pattern table of the date roles                    *)
(* ===================================================================== *)

(** [BIRTHDAY = 生(年月日){e<3}] *)
Definition BIRTHDAY : re := Seq (chr (ch "生")) (Fuzzy (U "年月日") 3).

(** [VALID_FROM]: a fuzzy constraint without parentheses binds to the last
    character only. *)
Definition VALID_FROM : list re :=
  [ seqs [One (oneof "発有"); lit (U "効期"); Fuzzy (U "日") 2];
    seqs [One (oneof "発有"); lit (U "効開"); Fuzzy (U "始") 2];
    seqs [One (oneof "発有"); lit (U "効年月"); Fuzzy (U "日") 2];
    seqs [lit (U "適用開"); Fuzzy (U "始") 2];
    seqs [lit (U "適用開始年月"); Fuzzy (U "日") 3] ].

(** [UNTIL_FIX = (迄)(有効){e<2}] *)
Definition UNTIL_FIX : re := Seq (Grp 1 (chr (ch "迄"))) (Fuzzy (U "有効") 2).

Definition VALID_UNTIL : list re :=
  [ seqs [chr (ch "有"); Fuzzy (U "効期限") 2];
    seqs [lit (U "喪失予定"); Fuzzy (U "日") 2];
    seqs [lit (U "有効終"); Fuzzy (U "了") 2] ].

(** [KOFU_FIX = [交茭].?[付苻]] *)
Definition KOFU_FIX : re := seqs [One (oneof "交茭"); opt Any; One (oneof "付苻")].

(** [KOFU]: the last two string literals of the source list are adjacent
    without a comma, so Python joins them into the single pattern
    [^付年月交年月]. *)
Definition KOFU : list re :=
  [ seqs [lit (U "交付"); Fuzzy (U "年") 2];
    seqs [lit (U "発行"); Fuzzy (U "年") 2];
    seqs [Grp 1 (Alt (seqs [chr (ch "交"); opt (Of [INonDigit])])
                     (seqs [One (Of [IDigit]); opt (Of [INonDigit]);
                            chr (ch "付")]));
          Eol];
    seqs [Bol; lit (U "付年月交年月")] ].

(** [PERCENT = \d割] *)
Definition PERCENT : re := seqs [One (Of [IDigit]); chr (ch "割")].

(** [LAST_DAY = [末未][日目]] *)
Definition LAST_DAY : re := seqs [One (oneof "末未"); One (oneof "日目")].

(** [MONTH_DATE], its five groups numbered from [g + 1]:
    [([\D-]{1,3})(0[1-9]|[1-9]|1[0-2])([\D-])(0[1-9]|[1-9]|[1-2][0-9]0*|3[0-1]0*|99)(\D|$)] *)
Definition nondigit_or_dash : cls := Of [INonDigit; IChr (ch "-")].

Definition MONTH_DATE (g : nat) : re :=
  seqs
    [ Grp (g + 1) (Rep nondigit_or_dash 1 (Some 3));
      Grp (g + 2) (alts [ seqs [chr (ch "0"); One (Of [rng "1" "9"])];
                          One (Of [rng "1" "9"]);
                          seqs [chr (ch "1"); One (Of [rng "0" "2"])] ]);
      Grp (g + 3) (One nondigit_or_dash);
      Grp (g + 4) (alts [ seqs [chr (ch "0"); One (Of [rng "1" "9"])];
                          One (Of [rng "1" "9"]);
                          seqs [One (Of [rng "1" "2"]); One (Of [rng "0" "9"]);
                                star (Of [IChr (ch "0")])];
                          seqs [chr (ch "3"); One (Of [rng "0" "1"]);
                                star (Of [IChr (ch "0")])];
                          lit (U "99") ]);
      Grp (g + 5) (Alt (One (Of [INonDigit])) Eol) ].

(** The eras of [ERA_OFFSET] and [DATE], in the order of the [DATE] table. *)
Inductive era : Type := Er | Eh | Es | Et | Em | Ew.

Definition ERA_OFFSET (e : era) : N :=
  match e with
  | Em => 1867 | Et => 1911 | Es => 1925 | Eh => 1988 | Er => 2018 | Ew => 0
  end%N.

Definition year_1_99 : re :=
  alts [ seqs [chr (ch "0"); One (Of [rng "1" "9"])];
         One (Of [rng "1" "9"]);
         seqs [One (Of [rng "1" "9"]); One (Of [rng "0" "9"])] ].

(** [DATE]: one pattern for each era; the Japanese eras have seven groups
    (era name, year, then [MONTH_DATE]), the western one has six. *)
Definition DATE_pattern (e : era) : re :=
  match e with
  | Er => seqs [ Grp 1 (alts [lit (U "令和"); lit (U "合和"); lit (U "令")]);
                 opt (Of [INonDigit]);
                 Grp 2 year_1_99;
                 MONTH_DATE 2 ]
  | Eh => seqs [ Grp 1 (alts [lit (U "平成"); lit (U "平"); lit (U "成")]);
                 Grp 2 (alts [ seqs [chr (ch "0"); One (Of [rng "1" "9"])];
                               One (Of [rng "1" "9"]);
                               seqs [One (Of [rng "1" "4"]); One (Of [rng "0" "9"])] ]);
                 MONTH_DATE 2 ]
  | Es => seqs [ Grp 1 (alts [lit (U "昭和"); lit (U "昭")]);
                 Grp 2 (alts [ seqs [chr (ch "0"); One (Of [rng "1" "9"])];
                               One (Of [rng "1" "9"]);
                               seqs [One (Of [rng "1" "5"]); One (Of [rng "0" "9"])];
                               seqs [chr (ch "6"); One (Of [rng "0" "4"])] ]);
                 MONTH_DATE 2 ]
  | Et => seqs [ Grp 1 (alts [lit (U "大正"); lit (U "大"); lit (U "正")]);
                 Grp 2 (alts [ seqs [chr (ch "0"); One (Of [rng "1" "9"])];
                               One (Of [rng "1" "9"]);
                               seqs [chr (ch "1"); One (Of [rng "0" "5"])] ]);
                 MONTH_DATE 2 ]
  | Em => seqs [ Grp 1 (alts [lit (U "明治"); lit (U "明"); lit (U "治")]);
                 Grp 2 (alts [ seqs [chr (ch "0"); One (Of [rng "1" "9"])];
                               One (Of [rng "1" "9"]);
                               seqs [One (Of [rng "1" "3"]); One (Of [rng "0" "9"])];
                               seqs [chr (ch "4"); One (Of [rng "0" "5"])] ]);
                 MONTH_DATE 2 ]
  | Ew => seqs [ Grp 1 (alts [ seqs [lit (U "19"); Rep (Of [rng "0" "9"]) 2 (Some 2)];
                               seqs [chr (ch "2"); Rep (Of [rng "0" "9"]) 3 (Some 3)] ]);
                 MONTH_DATE 1 ]
  end.

Definition DATE : list (era * re) :=
  map (fun e => (e, DATE_pattern e)) [Er; Eh; Es; Et; Em; Ew].

Definition DATE_groups (e : era) : nat :=
  match e with Ew => 6 | _ => 7 end.

(* ===================================================================== *)
(** * [date.Date]                                                          *)
(* ===================================================================== *)

(** The fields set by [Date.__init__]: month and day as given, the western
    year as a decimal string, the era year unless the era is western. *)
Record Date : Type := mkDate {
  date_m : text;
  date_d : text;
  date_y : text;
  date_jpy : option text
}.

Definition Date_init (year month date : text) (e : era) : Date :=
  {| date_m := month;
     date_d := date;
     date_y := py_str (py_int year + ERA_OFFSET e);
     date_jpy := match e with Ew => None | _ => Some year end |}.

Definition western_str (d : Date) : text :=
  date_y d ++ zfill 2 (date_m d) ++ zfill 2 (date_d d).

(** [y[-2:]] *)
Definition last2 (s : text) : text := skipn (length s - 2) s.

Definition mynum_str (d : Date) : text :=
  match date_jpy d with
  | None => last2 (date_y d) ++ zfill 2 (date_m d) ++ zfill 2 (date_d d)
  | Some jpy => zfill 2 jpy ++ zfill 2 (date_m d) ++ zfill 2 (date_d d)
  end.

(** [Date.__str__] and [Date.__repr__] *)
Definition Date_str (d : Date) : text := western_str d.

(* ===================================================================== *)
(** * [extract]: the date extractor                                        *)
(* ===================================================================== *)

Definition clean_date (t : text) : text :=
  sub LAST_DAY (fun _ => U "99日") (str_replace (U "元年") (U "1年") t).

(** One tuple of [findall] turned into a [Date]: the first group is the year
    for the western pattern and the era name otherwise. *)
Definition date_of_groups (e : era) (m : list text) : Date :=
  if isdigit (nth 0 m [])
  then Date_init (nth 0 m []) (nth 2 m []) (nth 4 m []) e
  else Date_init (nth 1 m []) (nth 3 m []) (nth 5 m []) e.

Definition get_date (t : text) : list Date :=
  let t := clean_date t in
  flat_map
    (fun ep => map (date_of_groups (fst ep))
                   (findall_groups (DATE_groups (fst ep)) (snd ep) t))
    DATE.

Definition get_one_date (t : text) : option Date :=
  match get_date t with d :: _ => Some d | [] => None end.

Definition date_western_str (t : text) : list text :=
  map western_str (get_date t).

(* ===================================================================== *)
(** * [match]: the matchers of the date roles and the line scorer          *)
(* ===================================================================== *)

(** The first component of a matcher's result is a Python [bool] or,
    on the keyword shortcuts, the integer [2]. *)
Inductive pyflag : Type :=
| PBool (b : bool)
| PInt (z : Z).

(** [int(flag)] *)
Definition py_int_of (f : pyflag) : Z :=
  match f with
  | PBool true => 1
  | PBool false => 0
  | PInt z => z
  end.

Definition matcher : Type := text -> pyflag * text.

(** [match_one]: the first pattern of the list found in the text. *)
Fixpoint match_one (patterns : list re) (t : text) : option rmatch :=
  match patterns with
  | [] => None
  | p :: ps =>
    match search p t with
    | Some m => Some m
    | None => match_one ps t
    end
  end.

Definition is_some (A : Type) (o : option A) : bool :=
  match o with Some _ => true | None => false end.

(** The common tail of the matchers: the flag of [match_one] and the text
    from the start of the match on. *)
Definition cut_at_match (patterns : list re) (t : text) : pyflag * text :=
  match match_one patterns t with
  | Some m => (PBool true, from (m_start m) t)
  | None => (PBool false, t)
  end.

Definition birthday_match : matcher := fun t =>
  if matches BIRTHDAY t then (PBool true, t) else (PBool false, t).

Definition valid_from_match : matcher := fun t =>
  if existsb (fun keyword => str_contains keyword t
                             && Nat.eqb (length (get_date t)) 1)
             [U "まで"; U "迄"]
  then (PBool false, t)
  else if matches (Seq (chr (ch "自")) (NotAhead (chr (ch "己")))) t
  then (PInt 2, from (str_index (U "自") t + 1) t)
  else match search (seqs [chr (ch "か"); One Any; Eol]) t with
  | Some m => (PInt 2, upto (m_start m) t)
  | None =>
    if str_contains (U "から") t
    then (PInt 2, upto (str_index (U "から") t) t)
    else if (2 <? length t) && char_eqb (nth (length t - 2) t 0%N) (ch "か")
    then (PInt 2, upto (str_index (U "か") t) t)
    else if endswith (U "日か") t
    then (PInt 2, upto (length t - 2) t)
    else cut_at_match VALID_FROM t
  end.

Definition valid_until_match : matcher := fun t =>
  let t := sub UNTIL_FIX (fun cs => cap 1 cs ++ U "有効") t in
  let keyword :=
    if negb (matches PERCENT t)
    then if str_contains (U "至") t
         then Some (from (str_index (U "至") t + 1) t)
         else if str_contains (U "まで") t && negb (str_contains (U "までは") t)
                 && negb (matches PERCENT t)
         then Some (upto (str_index (U "まで") t) t)
         else if str_contains (U "迄有効") t && negb (matches PERCENT t)
         then Some (upto (str_index (U "迄有効") t) t)
         else None
    else None in
  match keyword with
  | Some cut => (PInt 2, cut)
  | None => cut_at_match VALID_UNTIL t
  end.

Definition kofu_match : matcher := fun t =>
  let t := sub KOFU_FIX (fun _ => U "交付") t in
  match match_one KOFU t with
  | None => (PBool false, t)
  | Some m =>
    match get_date (from (m_start m) t) with
    | _ :: _ => (PBool true, from (m_start m) t)
    | [] =>
      match get_date (upto (m_start m) t) with
      | _ :: _ => (PBool true, upto (m_start m) t)
      | [] => (PBool true, t)
      end
    end
  end.

(** A text line of the page: the recognized words, then the whole text,
    which is the last element [line[-1]] the engine reads. *)
Record Line : Type := mkLine { words : list text; line_text : text }.

Definition Page : Type := list Line.

(** Integer arrays.  [vadd a b] is the in-place [a[:len(b)] += b]. *)
Fixpoint vadd (a b : list Z) : list Z :=
  match a, b with
  | x :: a', y :: b' => (x + y)%Z :: vadd a' b'
  | _, _ => a
  end.

(** [a[:-1] += b[1:]] and [a[1:] += b[:-1]] *)
Definition add_below (a b : list Z) : list Z := vadd a (tl b).

Definition add_above (a b : list Z) : list Z :=
  match a with
  | [] => []
  | x :: a' => x :: vadd a' (removelast b)
  end.

(** [score(match_func, texts, no_ext)]: the score of each line and the text
    each matcher returned. *)
Definition score (match_func : matcher) (texts : Page) (no_ext : bool)
  : list Z * list text :=
  let match_results := map (fun line => match_func (line_text line)) texts in
  let scores := map (fun r => py_int_of (fst r)) match_results in
  let cut_texts := map snd match_results in
  if no_ext then (scores, cut_texts)
  else
    let scores_ext := map (fun x => (x * 2)%Z) scores in
    let scores_ext := add_below scores_ext scores in
    let scores_ext := add_above scores_ext scores in
    (scores_ext, cut_texts).

(* ===================================================================== *)
(** * Python dictionaries, exceptions, and the state of a finder           *)
(* ===================================================================== *)

(** A [dict] keeps its keys in insertion order; assigning to a present key
    keeps its place. *)
Definition dict (V : Type) : Type := list (string * V).

Fixpoint dict_get (V : Type) (k : string) (d : dict V) : option V :=
  match d with
  | [] => None
  | (k', v) :: d' => if String.eqb k' k then Some v else dict_get k d'
  end.

Fixpoint dict_set (V : Type) (k : string) (v : V) (d : dict V) : dict V :=
  match d with
  | [] => [(k, v)]
  | (k', v') :: d' =>
    if String.eqb k' k then (k', v) :: d' else (k', v') :: dict_set k v d'
  end.

Definition dict_mem (V : Type) (k : string) (d : dict V) : bool :=
  is_some (dict_get k d).

Definition keys (V : Type) (d : dict V) : list string := map fst d.
Definition values (V : Type) (d : dict V) : list V := map snd d.

Inductive exn : Type :=
| KeyError
| IndexError
| ValueError
| Diverged.      (* a [while] loop that used up its fuel *)

(** A [Date] object on the heap: [d1 in dates2] compares objects, and as
    [Date] defines no [__eq__], two objects are equal only when they are
    the same object. *)
Record obj : Type := mkObj { oid : nat; val : Date }.

Definition obj_is (a b : obj) : bool := Nat.eqb (oid a) (oid b).
Definition obj_in (a : obj) (l : list obj) : bool := existsb (obj_is a) l.
Definition obj_str (a : obj) : text := Date_str (val a).

(** The attributes of a [DatesFinder], the local [dates_all] of a running
    [extract], and the number of [Date] objects the running call has
    allocated: an object is identified by its rank among the objects of
    its call, the only ones it is ever compared with. *)
Record state : Type := mkState {
  scores : dict (list Z);
  texts : dict (list text);
  info : dict (option obj);
  dates_all : dict (list (list obj));
  heap : nat
}.

(** Computations that read and write the state and may raise; the state
    reached when an exception is raised is kept. *)
Definition M (A : Type) : Type := state -> (exn + A) * state.

Definition ret (A : Type) (a : A) : M A := fun s => (inr a, s).
Definition raise (A : Type) (e : exn) : M A := fun s => (inl e, s).
Definition bind (A B : Type) (m : M A) (f : A -> M B) : M B :=
  fun s => match m s with
           | (inr a, s') => f a s'
           | (inl e, s') => (inl e, s')
           end.

Declare Scope monad_scope.
Delimit Scope monad_scope with monad.
Notation "x <- m ;; k" := (bind m (fun x => k))
  (at level 61, m at next level, right associativity) : monad_scope.
Notation "m ;; k" := (bind m (fun _ => k))
  (at level 61, right associativity) : monad_scope.
Open Scope monad_scope.

Definition get (A : Type) (f : state -> A) : M A := fun s => (inr (f s), s).
Definition modify (f : state -> state) : M unit := fun s => (inr tt, f s).

Definition lift (A : Type) (e : exn) (o : option A) : M A :=
  match o with Some a => ret a | None => raise A e end.

(** [for x in xs: body(x)] *)
Fixpoint for_each (A : Type) (xs : list A) (body : A -> M unit) : M unit :=
  match xs with
  | [] => ret tt
  | x :: xs' => body x ;; for_each xs' body
  end.

Definition set_scores (v : dict (list Z)) : M unit :=
  modify (fun s => mkState v (texts s) (info s) (dates_all s) (heap s)).
Definition set_texts (v : dict (list text)) : M unit :=
  modify (fun s => mkState (scores s) v (info s) (dates_all s) (heap s)).
Definition set_info (v : dict (option obj)) : M unit :=
  modify (fun s => mkState (scores s) (texts s) v (dates_all s) (heap s)).
Definition set_dates_all (v : dict (list (list obj))) : M unit :=
  modify (fun s => mkState (scores s) (texts s) (info s) v (heap s)).
Definition set_heap (v : nat) : M unit :=
  modify (fun s => mkState (scores s) (texts s) (info s) (dates_all s) v).

(** [d[k]] and [a[i]] for reading; [d[k][i] = v] for writing. *)
Definition item (V : Type) (k : string) (d : dict V) : M V :=
  lift KeyError (dict_get k d).

Definition at_ (V : Type) (i : nat) (a : list V) : M V :=
  lift IndexError (nth_error a i).

Fixpoint list_set (V : Type) (i : nat) (v : V) (a : list V) : list V :=
  match a, i with
  | [], _ => []
  | _ :: a', O => v :: a'
  | x :: a', S j => x :: list_set j v a'
  end.

Definition score_at (k : string) (i : nat) : M Z :=
  d <- get scores ;; a <- item k d ;; at_ i a.

Definition dates_at (k : string) (i : nat) : M (list obj) :=
  d <- get dates_all ;; a <- item k d ;; at_ i a.

Definition set_score_at (k : string) (i : nat) (v : Z) : M unit :=
  d <- get scores ;; a <- item k d ;; _ <- at_ i a ;;
  set_scores (dict_set k (list_set i v a) d).

Definition set_dates_at (k : string) (i : nat) (v : list obj) : M unit :=
  d <- get dates_all ;; a <- item k d ;; _ <- at_ i a ;;
  set_dates_all (dict_set k (list_set i v a) d).

(** [self.info[k] = v] and [self.info.get(k, None)] *)
Definition set_info_at (k : string) (v : option obj) : M unit :=
  d <- get info ;; set_info (dict_set k v d).

Definition info_get (k : string) : M (option obj) :=
  d <- get info ;;
  ret (match dict_get k d with Some v => v | None => None end).

(* ===================================================================== *)
(** * [finders/date]: the [DatesFinder]                                    *)
(* ===================================================================== *)

(** A finder holds the matcher of each tag, in the order of its
    [match_methods] dictionary, and the extractor.  The names stored by the
    source are taken as already resolved to the functions they name. *)
Record DatesFinder : Type := mkDatesFinder {
  match_methods : dict matcher;
  extract_method : text -> list Date
}.

(** [DatesFinder.__init__] *)
Definition init_state : state := mkState [] [] [] [] 0.

(** [sum(a[:2])] *)
Definition sum_first_two (a : list Z) : Z := fold_left Z.add (firstn 2 a) 0%Z.

(** [DatesFinder._score] *)
Definition score_tag (texts_ : Page) (tm : string * matcher) : M unit :=
  let (tag, match_func) := tm in
  let (sc, tx) := score match_func texts_ (negb (String.eqb tag "Birthday")) in
  d <- get scores ;; set_scores (dict_set tag sc d) ;;
  t <- get texts ;; set_texts (dict_set tag tx t) ;;
  d <- get scores ;; cur <- item tag d ;;
  if String.eqb tag "YukoEdYmd" && Z.eqb (sum_first_two cur) 1
  then
    let (sc, tx) := score match_func texts_ false in
    d <- get scores ;; set_scores (dict_set tag sc d) ;;
    t <- get texts ;; set_texts (dict_set tag tx t)
  else ret tt.

Definition _score (f : DatesFinder) (texts_ : Page) : M unit :=
  for_each (match_methods f) (score_tag texts_).

(** Allocation of the [Date] objects an extractor call returns. *)
Fixpoint alloc (ds : list Date) (h : nat) : list obj * nat :=
  match ds with
  | [] => ([], h)
  | d :: ds' => let (os, h') := alloc ds' (S h) in (mkObj h d :: os, h')
  end.

(** [[extract_f(line) if score > 0 else [] for score, line in zip(scores, lines)]] *)
Fixpoint extract_lines (extract_f : text -> list Date)
         (sl : list (Z * text)) (h : nat) : list (list obj) * nat :=
  match sl with
  | [] => ([], h)
  | (sc, line) :: sl' =>
    let (os, h1) := if (0 <? sc)%Z then alloc (extract_f line) h else ([], h) in
    let (rest, h2) := extract_lines extract_f sl' h1 in
    (os :: rest, h2)
  end.

Definition extract_tag (extract_f : text -> list Date)
           (p : (string * list text) * (string * list Z)) : M unit :=
  let '((tag, lines), (_, scs)) := p in
  h <- get heap ;;
  let (ds, h') := extract_lines extract_f (combine scs lines) h in
  set_heap h' ;;
  d <- get dates_all ;; set_dates_all (dict_set tag ds d).

Definition extract_all (f : DatesFinder) : M unit :=
  set_dates_all [] ;;
  set_heap 0 ;;
  t <- get texts ;; s <- get scores ;;
  for_each (combine t s) (extract_tag (extract_method f)).

(** The suppression pass ("date match NMS").  [claim_scan] is the inner
    loop over the roles: the key kept and whether to suppress. *)
Fixpoint claim_scan (items : dict (list Z)) (i : nat)
         (key_keep : option string) (suppress : bool)
  : exn + (option string * bool) :=
  match items with
  | [] => inr (key_keep, suppress)
  | (key, cur_score) :: items' =>
    match nth_error cur_score i with
    | None => inl IndexError
    | Some sc =>
      if (sc <? 2)%Z then claim_scan items' i key_keep suppress
      else if suppress then inr (key_keep, false)
      else claim_scan items' i (Some key) true
    end
  end.

(** [for idx, (dates1, dates2) in enumerate(zip(cur_dates, keep)):
       cur_dates[idx] = [d1 for d1 in dates1 if d1 not in dates2]] *)
Fixpoint suppress_lines (cur_dates keep : list (list obj)) : list (list obj) :=
  match cur_dates, keep with
  | dates1 :: cur', dates2 :: keep' =>
    filter (fun d1 => negb (obj_in d1 dates2)) dates1 :: suppress_lines cur' keep'
  | _, _ => cur_dates
  end.

Definition is_nil (A : Type) (l : list A) : bool :=
  match l with [] => true | _ => false end.

Definition suppress_key (key_keep : string) (key : string) : M unit :=
  d <- get dates_all ;;
  cur_dates <- item key d ;;
  if String.eqb key key_keep || is_nil cur_dates then ret tt
  else
    keep <- item key_keep d ;;
    set_dates_all (dict_set key (suppress_lines cur_dates keep) d).

Definition nms_line (i : nat) : M unit :=
  s <- get scores ;;
  match claim_scan s i None false with
  | inl e => raise unit e
  | inr (Some key_keep, true) =>
    d <- get dates_all ;; for_each (keys d) (suppress_key key_keep)
  | inr _ => ret tt
  end.

Definition nms (n : nat) : M unit := for_each (seq 0 n) nms_line.

(** "suppress YukoStYmd when YukoEdYmd and KofuYmd matched on the same line" *)
Definition drop_from_line (p : nat * list obj) : M unit :=
  let (idx, dates) := p in
  st_sc <- score_at "YukoStYmd" idx ;;
  if Z.eqb st_sc 0 then ret tt
  else
    kf_sc <- score_at "KofuYmd" idx ;;
    if Z.eqb kf_sc 0 then ret tt
    else if length dates <? 3
    then set_score_at "YukoStYmd" idx 0%Z ;; set_dates_at "YukoStYmd" idx []
    else ret tt.

Definition enumerate (A : Type) (l : list A) : list (nat * A) :=
  combine (seq 0 (length l)) l.

Definition suppress_from : M unit :=
  d <- get dates_all ;; ed <- item "YukoEdYmd" d ;;
  for_each (enumerate ed) drop_from_line.

(** [info[a], info[b] = x, y], then the swap when [str(info[a]) > str(info[b])] *)
Definition assign_ordered (a b : string) (x y : obj) : M unit :=
  set_info_at a (Some x) ;; set_info_at b (Some y) ;;
  if text_gtb (obj_str x) (obj_str y)
  then set_info_at a (Some y) ;; set_info_at b (Some x)
  else ret tt.

(** "handle 2 dates in the same line" *)
Definition two_dates_line (p : nat * list obj) : M unit :=
  let (idx, dates) := p in
  match dates with
  | [x; y] =>
    st_sc <- score_at "YukoStYmd" idx ;;
    if (0 <? st_sc)%Z
    then
      kf_sc <- score_at "KofuYmd" idx ;;
      if Z.eqb kf_sc 0 then assign_ordered "YukoStYmd" "YukoEdYmd" x y
      else ret tt
    else ret tt
  | _ => ret tt
  end.

Definition two_dates : M unit :=
  d <- get dates_all ;; ed <- item "YukoEdYmd" d ;;
  for_each (enumerate ed) two_dates_line.

(** [a.max()], [a.argmax()] (the first index of the maximum) and
    [len(a[a == v])] on an integer array. *)
Fixpoint np_max (a : list Z) : option Z :=
  match a with
  | [] => None
  | x :: a' => match np_max a' with
               | None => Some x
               | Some m => Some (Z.max x m)
               end
  end.

Fixpoint first_index (v : Z) (a : list Z) : nat :=
  match a with
  | [] => 0
  | x :: a' => if Z.eqb x v then 0 else S (first_index v a')
  end.

Definition np_argmax (a : list Z) : option nat :=
  match np_max a with
  | None => None
  | Some m => Some (first_index m a)
  end.

Definition count_eq (v : Z) (a : list Z) : nat :=
  length (filter (Z.eqb v) a).

(** [np.max(list(self.scores.values()))] *)
Definition np_max_all (d : dict (list Z)) : option Z := np_max (concat (values d)).

(** [set(self.scores.keys()) - set(key)]: [set(key)] is the set of the
    one-character strings of [key], so a tag is left out only when it is a
    single character that occurs in [key]. *)
Definition one_char_of (key k : string) : bool :=
  match k with
  | String c EmptyString => existsb (Ascii.eqb c) (list_ascii_of_string key)
  | _ => false
  end.

Definition other_keys (ks : list string) (key : string) : list string :=
  filter (fun k => negb (one_char_of key k)) ks.

(** "pop out used date" *)
Definition pop_used (idx_max : nat) (used : obj) (other_key : string) : M unit :=
  other_dates <- dates_at other_key idx_max ;;
  if is_nil other_dates then ret tt
  else
    set_dates_at other_key idx_max
      (filter (fun d => negb (text_eqb (obj_str d) (obj_str used))) other_dates).

(** The body of the [for key in self.scores] loop at threshold [th]. *)
Definition assign_key (th : Z) (key : string) : M unit :=
  cur <- info_get key ;;
  match cur with
  | Some _ => ret tt
  | None =>
    s <- get scores ;; a <- item key s ;;
    val_max <- lift ValueError (np_max a) ;;
    idx_max <- lift ValueError (np_argmax a) ;;
    if (th <=? val_max)%Z && Nat.eqb (count_eq val_max a) 1
    then
      ds <- dates_at key idx_max ;;
      match ds with
      | [dt] =>
        set_info_at key (Some dt) ;;
        s <- get scores ;;
        for_each (other_keys (keys s) key) (pop_used idx_max dt)
      | _ => ret tt
      end
    else ret tt
  end.

Definition assign_pass (th : Z) : M unit :=
  s <- get scores ;; for_each (keys s) (assign_key th).

(** [all([np.all(scores_prev.get(k, None) == v) for k, v in scores.items()])] *)
Definition list_Z_eqb (a b : list Z) : bool :=
  Nat.eqb (length a) (length b)
  && forallb (fun p => Z.eqb (fst p) (snd p)) (combine a b).

Definition scores_settled (scores_prev s : dict (list Z)) : bool :=
  forallb (fun kv =>
             match dict_get (fst kv) scores_prev with
             | None => is_nil (snd kv)     (* [None == v], elementwise *)
             | Some p => list_Z_eqb p (snd kv)
             end) s.

(** The [while] loop at one threshold; [scores_prev] starts as the empty
    dictionary. *)
Fixpoint assign_while (fuel : nat) (th : Z)
         (scores_prev : dict (list Z)) : M unit :=
  s <- get scores ;;
  if scores_settled scores_prev s then ret tt
  else match fuel with
       | O => raise unit Diverged
       | S fuel' =>
         assign_pass th ;; assign_while fuel' th s
       end.

(** [np.arange(m, 0, -1)] *)
Definition thresholds (m : Z) : list Z :=
  map (fun k => (m - Z.of_nat k)%Z) (seq 0 (Z.to_nat m)).

(** "assign dates recursively" *)
Definition assign_all (fuel : nat) : M unit :=
  s <- get scores ;;
  m <- lift ValueError (np_max_all s) ;;
  for_each (thresholds m) (fun th => assign_while fuel th []).

(** [str(dates)] of a list: the [repr] of its elements between brackets. *)
Fixpoint join_reprs (l : list obj) : text :=
  match l with
  | [] => []
  | [d] => obj_str d
  | d :: l' => obj_str d ++ U ", " ++ join_reprs l'
  end.

Definition list_str (l : list obj) : text := U "[" ++ join_reprs l ++ U "]".

(** "handle yukostymd and yukoedymd in the same line" *)
Definition same_line_from_until : M unit :=
  i <- get info ;;
  if negb (dict_mem "YukoStYmd" i) && negb (dict_mem "YukoEdYmd" i)
  then
    s <- get scores ;;
    a_from <- item "YukoStYmd" s ;;
    idx_from <- lift ValueError (np_argmax a_from) ;;
    a_until <- item "YukoEdYmd" s ;;
    idx_until <- lift ValueError (np_argmax a_until) ;;
    dates_from <- dates_at "YukoStYmd" idx_from ;;
    dates_until <- dates_at "YukoEdYmd" idx_until ;;
    if text_eqb (list_str dates_from) (list_str dates_until)
    then match dates_from with
         | [x; y] => set_info_at "YukoStYmd" (Some x) ;;
                     set_info_at "YukoEdYmd" (Some y)
         | _ => ret tt
         end
    else ret tt
  else ret tt.

(** "handle YukoEdYmd and KofuYmd in the same line" *)
Definition until_issue_line (idx : nat) : M unit :=
  kf_sc <- score_at "KofuYmd" idx ;;
  if (0 <? kf_sc)%Z
  then
    ed <- dates_at "YukoEdYmd" idx ;;
    if Nat.eqb (length ed) 2
    then
      kf <- dates_at "KofuYmd" idx ;;
      match kf with
      | [x; y] => assign_ordered "KofuYmd" "YukoEdYmd" x y
      | _ => ret tt
      end
    else ret tt
  else ret tt.

Definition same_line_until_issue : M unit :=
  ed <- info_get "YukoEdYmd" ;;
  kf <- info_get "KofuYmd" ;;
  match ed, kf with
  | None, None =>
    s <- get scores ;; a <- item "YukoEdYmd" s ;;
    for_each (seq 0 (length a)) until_issue_line
  | _, _ => ret tt
  end.

(** [(-a).argsort(kind="mergesort")]: the indices in the stable ascending
    order of the negated scores.  A stable sort has a single result; it is
    computed here by insertion. *)
Fixpoint insert_desc (x : nat * Z) (l : list (nat * Z)) : list (nat * Z) :=
  match l with
  | [] => [x]
  | y :: l' => if (snd y <=? snd x)%Z then x :: l else y :: insert_desc x l'
  end.

Definition argsort_neg (a : list Z) : list nat :=
  map fst (fold_right insert_desc [] (enumerate a)).

(** [sorted(dates, key=str)], stable. *)
Fixpoint insert_by_str (x : obj) (l : list obj) : list obj :=
  match l with
  | [] => [x]
  | y :: l' =>
    if text_leb (obj_str x) (obj_str y) then x :: l else y :: insert_by_str x l'
  end.

Definition sorted_by_str (l : list obj) : list obj :=
  fold_right insert_by_str [] l.

(** The fallback of one role: the lines in [order] are tried until one has
    a candidate left ([break]). *)
Fixpoint fallback_scan (key : string) (order : list nat) : M unit :=
  match order with
  | [] => ret tt
  | idx :: order' =>
    ds <- dates_at key idx ;;
    if is_nil ds then fallback_scan key order'
    else
      (if String.eqb key "Birthday"
       then set_dates_at key idx (sorted_by_str ds)
       else ret tt) ;;
      ds <- dates_at key idx ;;
      match ds with
      | [] => raise unit IndexError          (* [pop] from an empty list *)
      | x :: ds' => set_dates_at key idx ds' ;; set_info_at key (Some x)
      end
  end.

Definition fallback_key (key : string) : M unit :=
  cur <- info_get key ;;
  match cur with
  | Some _ => ret tt
  | None =>
    s <- get scores ;; a <- item key s ;;
    fallback_scan key (argsort_neg a)
  end.

Definition fallback : M unit :=
  s <- get scores ;; for_each (keys s) fallback_key.

(** [for tag in self.match_methods: if tag not in self.info: ...] *)
Definition fill_missing (f : DatesFinder) : M unit :=
  for_each (keys (match_methods f))
    (fun tag => i <- get info ;;
                if dict_mem tag i then ret tt else set_info_at tag None).

(** Two rounds of the [while] loop at a threshold are all it can take
    (see [assign_while_once]); [extract_with] leaves the fuel open. *)
Definition while_fuel : nat := 2.

(** [DatesFinder.extract]: the resets, the scores and the candidates of
    every line, then the resolution of the roles. *)
Definition prepare (f : DatesFinder) (texts_ : Page) : M unit :=
  set_texts [] ;;
  set_info [] ;;
  _score f texts_ ;;
  extract_all f.

Definition resolve (fuel : nat) (f : DatesFinder) (texts_ : Page)
  : M (dict (option obj)) :=
  nms (length texts_) ;;
  suppress_from ;;
  two_dates ;;
  assign_all fuel ;;
  same_line_from_until ;;
  same_line_until_issue ;;
  fallback ;;
  fill_missing f ;;
  get info.

Definition extract_with (fuel : nat) (f : DatesFinder) (texts_ : Page)
  : M (dict (option obj)) :=
  prepare f texts_ ;; resolve fuel f texts_.

Definition extract (f : DatesFinder) (texts_ : Page) : M (dict (option obj)) :=
  extract_with while_fuel f texts_.

(** The field map as the caller reads it: the canonical string of each
    date, [None] for an unresolved role. *)
Definition field_strs (d : dict (option obj)) : dict (option text) :=
  map (fun kv => (fst kv, option_map obj_str (snd kv))) d.

(** The finder of the class documentation. *)
Definition dates_finder : DatesFinder :=
  {| match_methods := [ ("Birthday", birthday_match);
                        ("YukoEdYmd", valid_until_match);
                        ("YukoStYmd", valid_from_match);
                        ("KofuYmd", kofu_match) ]%string;
     extract_method := get_date |}.

(* ===================================================================== *)
(** * [kouhi_analyzer]: the fallback corrections of [KouhiAnalyzer.fit]     *)
(* ===================================================================== *)

(** What a field of [info] can hold: a string, a [Date] of the date finder,
    or another product of a finder. *)
Inductive value : Type :=
| VStr (t : text)
| VDate (d : obj)
| VOther (n : nat).

Definition Info : Type := dict (option value).

(** [AnalyzerBase._have] *)
Definition _have (i : Info) (tag : string) : bool :=
  match dict_get tag i with Some (Some _) => true | _ => false end.

Definition date_tags : list text :=
  [U "入院"; U "入院外"; U "外来"; U "通院"; U "調剤"; U "無"; U "1割"].

(** [KIGO = [記号(.+)番号, 記号[^番]+$]]; [findall] gives the text of the
    group for the first pattern and the whole match for the second, which
    is wrapped in a group here. *)
Definition KIGO : list re :=
  [ seqs [lit (U "記号"); Grp 1 (Rep Any 1 None); lit (U "番号")];
    Grp 1 (seqs [lit (U "記号"); Rep (NotOf [IChr (ch "番")]) 1 None; Eol]) ].

(** [pattern.findall(s)] for a pattern whose result is one string for each
    match (here the text of group 1). *)
Definition findall1 (r : re) (s : text) : list text :=
  map (fun m => cap 1 (m_caps m)) (finditer r s).

Section KouhiAnalyzer.

(** The flags of [insurer_match] and [kohi_num_match] on a line. *)
Variable insurer_match : matcher.
Variable kohi_num_match : matcher.

Definition truthy (f : pyflag) : bool := negb (Z.eqb (py_int_of f) 0).

(** [_handle_nums]: the loop over the first five lines. *)
Fixpoint handle_nums_loop (all : Page) (lines : list (nat * Line)) (i : Info)
  : Info :=
  match lines with
  | [] => i
  | (idx, line) :: lines' =>
    let ret1 := fst (insurer_match (line_text line)) in
    let ret2 := fst (kohi_num_match (line_text line)) in
    let i' :=
      if truthy ret1 && truthy ret2 && (idx + 1 <? length all)
      then match nth_error all (idx + 1) with
           | Some nl =>
             let next_line := line_text nl in
             if isdigit next_line
             then dict_set "Num" (Some (VStr (from 8 next_line)))
                    (dict_set "HknajaNum" (Some (VStr (upto 8 next_line))) i)
             else i
           | None => i
           end
      else i in
    handle_nums_loop all lines' i'
  end.

Definition _handle_nums (texts_ : Page) (i : Info) : Info :=
  if _have i "HknjaNum" && _have i "Num" then i
  else handle_nums_loop texts_ (enumerate (firstn 5 texts_)) i.

(** [_handle_kigo] *)
Definition kigo_of_line (line : Line) (i : Info) : Info :=
  fold_left
    (fun acc pattern =>
       match findall1 pattern (line_text line) with
       | m0 :: _ => dict_set "Kigo" (Some (VStr m0)) acc
       | [] => acc
       end)
    KIGO i.

Definition _handle_kigo (texts_ : Page) (i : Info) : Info :=
  if _have i "Kigo" then i
  else fold_left (fun acc line => kigo_of_line line acc) texts_
                 (dict_set "Kigo" None i).

(** [_handle_multi_dates]: the lines that carry a start or an end date. *)
Definition has_from (t : text) : bool :=
  str_contains (U "から") t
  || ((2 <? length t) && char_eqb (nth (length t - 2) t 0%N) (ch "か")).

Definition has_until (t : text) : bool :=
  str_contains (U "迄") t || str_contains (U "まで") t.

Fixpoint collect_dates (lines : list (nat * Line))
         (froms untils : list (nat * Date))
  : list (nat * Date) * list (nat * Date) :=
  match lines with
  | [] => (froms, untils)
  | (idx, line) :: lines' =>
    let t := line_text line in
    if negb (has_from t) && negb (has_until t)
    then collect_dates lines' froms untils
    else
      match get_date t with
      | [a; b] =>
        if has_from t && has_until t
        then collect_dates lines' (froms ++ [(idx, a)]) (untils ++ [(idx, b)])
        else collect_dates lines' froms untils
      | [a] =>
        collect_dates lines'
          (if has_from t then froms ++ [(idx, a)] else froms)
          (if has_until t then untils ++ [(idx, a)] else untils)
      | _ => collect_dates lines' froms untils
      end
  end.

(** The tags found on the lines [start .. end] around a pair of dates,
    each followed by the date. *)
Definition tagged (texts_ : Page) (start stop : nat) (d : Date) : text :=
  flat_map
    (fun cidx =>
       match nth_error texts_ cidx with
       | None => []
       | Some line =>
         flat_map
           (fun tag =>
              if str_contains tag
                   (str_replace (U "憮") (U "無") (line_text line))
              then tag ++ U " " ++ Date_str d ++ U ";"
              else [])
           date_tags
       end)
    (seq start (S stop - start)).

Definition window (texts_ : Page) (idx_f idx_u : nat) : nat * nat :=
  (Nat.max (idx_f - 2) (idx_u - 2),
   Nat.min (length texts_ - 1) (Nat.min (idx_f + 2) (idx_u + 2))).

Definition _handle_multi_dates (texts_ : Page) (i : Info) : Info :=
  let (froms, untils) := collect_dates (enumerate texts_) [] [] in
  if negb ((1 <? length untils) && (1 <? length froms)) then i
  else
    let pairs := combine froms untils in
    let new_st :=
      flat_map (fun p => let '((idx_f, date_f), (idx_u, _)) := p in
                         let (a, b) := window texts_ idx_f idx_u in
                         tagged texts_ a b date_f) pairs in
    let new_ed :=
      flat_map (fun p => let '((idx_f, _), (idx_u, date_u)) := p in
                         let (a, b) := window texts_ idx_f idx_u in
                         tagged texts_ a b date_u) pairs in
    if negb (is_nil new_st) && negb (is_nil new_ed)
    then dict_set "YukoEdYmd" (Some (VStr new_ed))
           (dict_set "YukoStYmd" (Some (VStr new_st)) i)
    else i.

(** The fallback corrections of [fit], applied to the field map the
    finders produced. *)
Definition fit_fallbacks (texts_ : Page) (i : Info) : Info :=
  _handle_multi_dates texts_ (_handle_kigo texts_ (_handle_nums texts_ i)).

End KouhiAnalyzer.

(* ===================================================================== *)
(** * Properties                                                           *)
(* ===================================================================== *)

(** ** Dictionaries and arrays *)

Lemma dict_get_set_same (V : Type) (k : string) (v : V) (d : dict V) :
  dict_get k (dict_set k v d) = Some v.
Proof.
  induction d as [|[k' v'] d IH]; simpl.
  - now rewrite String.eqb_refl.
  - destruct (String.eqb k' k) eqn:E; simpl; rewrite E; auto.
Qed.

Lemma dict_get_set_other (V : Type) (k k0 : string) (v : V) (d : dict V) :
  k0 <> k -> dict_get k0 (dict_set k v d) = dict_get k0 d.
Proof.
  intros Hne. induction d as [|[k' v'] d IH]; simpl.
  - destruct (String.eqb k k0) eqn:E; auto.
    apply String.eqb_eq in E. congruence.
  - destruct (String.eqb k' k) eqn:E; simpl.
    + apply String.eqb_eq in E. subst k'.
      destruct (String.eqb k k0) eqn:E0; auto.
      apply String.eqb_eq in E0. congruence.
    + now rewrite IH.
Qed.

Lemma dict_get_in_keys (V : Type) (k : string) (d : dict V) :
  In k (keys d) <-> exists v, dict_get k d = Some v.
Proof.
  induction d as [|[k' v'] d IH]; simpl.
  - split; [tauto | intros [v H]; discriminate].
  - destruct (String.eqb k' k) eqn:E.
    + apply String.eqb_eq in E. split; eauto.
    + apply String.eqb_neq in E. rewrite IH. split.
      * intros [H|H]; [congruence | exact H].
      * auto.
Qed.

Lemma keys_set_present (V : Type) (k : string) (v : V) (d : dict V) :
  In k (keys d) -> keys (dict_set k v d) = keys d.
Proof.
  induction d as [|[k' v'] d IH]; simpl; [tauto|].
  intros H. destruct (String.eqb k' k) eqn:E; simpl; auto.
  apply String.eqb_neq in E. f_equal. apply IH. destruct H; congruence.
Qed.

Lemma keys_set_absent (V : Type) (k : string) (v : V) (d : dict V) :
  ~ In k (keys d) -> keys (dict_set k v d) = keys d ++ [k].
Proof.
  induction d as [|[k' v'] d IH]; simpl; auto.
  intros H. destruct (String.eqb k' k) eqn:E; simpl.
  - apply String.eqb_eq in E. tauto.
  - f_equal. apply IH. tauto.
Qed.

Lemma length_list_set (V : Type) (i : nat) (v : V) (a : list V) :
  length (list_set i v a) = length a.
Proof.
  revert i; induction a as [|x a IH]; intros [|i]; simpl; auto.
Qed.

Lemma nth_error_list_set_same (V : Type) (i : nat) (v : V) (a : list V) :
  i < length a -> nth_error (list_set i v a) i = Some v.
Proof.
  revert i; induction a as [|x a IH]; intros [|i]; simpl; intros H;
    try lia; auto. apply IH. lia.
Qed.

Lemma nth_error_list_set_other (V : Type) (i j : nat) (v : V) (a : list V) :
  i <> j -> nth_error (list_set i v a) j = nth_error a j.
Proof.
  revert i j; induction a as [|x a IH]; intros [|i] [|j] H; simpl; auto.
  congruence.
Qed.

(** ** The line scorer *)

(** The raw hit of line [i]: the integer value of the matcher's flag, and 0
    outside the page. *)
Definition hit_at (m : matcher) (p : Page) (i : nat) : Z :=
  match nth_error p i with
  | Some line => py_int_of (fst (m (line_text line)))
  | None => 0%Z
  end.

Definition hit_before (m : matcher) (p : Page) (i : nat) : Z :=
  match i with
  | O => 0%Z
  | S j => hit_at m p j
  end.

Definition hits (m : matcher) (p : Page) : list Z :=
  map (fun line => py_int_of (fst (m (line_text line)))) p.

Lemma hits_nth (m : matcher) (p : Page) (i : nat) :
  nth i (hits m p) 0%Z = hit_at m p i.
Proof.
  unfold hits, hit_at. revert i.
  induction p as [|l p IH]; intros [|i]; simpl; auto.
Qed.

Lemma hits_length (m : matcher) (p : Page) : length (hits m p) = length p.
Proof. unfold hits. now rewrite length_map. Qed.

Lemma score_no_ext (m : matcher) (p : Page) :
  fst (score m p true) = hits m p.
Proof. unfold score, hits. simpl. now rewrite map_map. Qed.

Lemma vadd_length (a b : list Z) : length (vadd a b) = length a.
Proof.
  revert b; induction a as [|x a IH]; intros [|y b]; simpl; auto.
Qed.

Lemma vadd_nth (a b : list Z) (i : nat) :
  i < length a -> nth i (vadd a b) 0%Z = (nth i a 0 + nth i b 0)%Z.
Proof.
  revert b i; induction a as [|x a IH]; intros b i H; simpl in H; [lia|].
  destruct b as [|y b]; simpl.
  - destruct i; lia.
  - destruct i; [reflexivity|]. apply IH. lia.
Qed.

Lemma nth_tl (A : Type) (l : list A) (i : nat) (d : A) :
  nth i (tl l) d = nth (S i) l d.
Proof. destruct l; simpl; auto. now destruct i. Qed.

Lemma nth_removelast (A : Type) (l : list A) (i : nat) (d : A) :
  S i < length l -> nth i (removelast l) d = nth i l d.
Proof.
  revert i; induction l as [|x l IH]; intros i H; simpl in *; [lia|].
  destruct l as [|y l]; [simpl in H; lia|].
  destruct i; [reflexivity|]. apply IH. simpl in *. lia.
Qed.

Lemma score_ext_eq (m : matcher) (p : Page) :
  fst (score m p false)
  = add_above (add_below (map (fun x => (x * 2)%Z) (hits m p)) (hits m p))
              (hits m p).
Proof.
  unfold score, hits. cbv zeta. simpl fst. now rewrite !map_map.
Qed.

Lemma add_below_length (a b : list Z) : length (add_below a b) = length a.
Proof. apply vadd_length. Qed.

Lemma add_above_length (a b : list Z) : length (add_above a b) = length a.
Proof. destruct a; simpl; auto. now rewrite vadd_length. Qed.

Lemma add_below_nth (a b : list Z) (i : nat) :
  i < length a -> nth i (add_below a b) 0%Z = (nth i a 0 + nth (S i) b 0)%Z.
Proof. intros H. unfold add_below. now rewrite vadd_nth, nth_tl. Qed.

Lemma add_above_nth (a b : list Z) (i : nat) :
  i < length a -> length b = length a ->
  nth i (add_above a b) 0%Z
  = (nth i a 0 + match i with O => 0 | S j => nth j b 0 end)%Z.
Proof.
  intros H Hb. destruct a as [|x a]; simpl in H; [lia|].
  destruct i as [|i]; simpl; [lia|].
  rewrite vadd_nth by lia. rewrite nth_removelast; [reflexivity|].
  simpl in Hb. lia.
Qed.

Lemma score_ext_length (m : matcher) (p : Page) :
  length (fst (score m p false)) = length p.
Proof.
  rewrite score_ext_eq, add_above_length, add_below_length, length_map.
  apply hits_length.
Qed.

Lemma score_ext_nth (m : matcher) (p : Page) (i : nat) :
  i < length p ->
  nth i (fst (score m p false)) 0%Z
  = (2 * hit_at m p i + hit_before m p i + hit_at m p (S i))%Z.
Proof.
  intros Hi. pose proof (hits_length m p) as Hh.
  rewrite score_ext_eq.
  rewrite add_above_nth
    by (rewrite ?add_below_length, ?length_map; lia).
  rewrite add_below_nth by (rewrite length_map; lia).
  change 0%Z with ((fun x => (x * 2)%Z) 0%Z) at 1. rewrite map_nth.
  rewrite !hits_nth. unfold hit_before.
  destruct i; rewrite ?hits_nth; lia.
Qed.

Lemma nth_error_of_nth (l : list Z) (i : nat) (v : Z) :
  i < length l -> nth i l 0%Z = v -> nth_error l i = Some v.
Proof. intros H E. rewrite <- E. now apply nth_error_nth'. Qed.

Lemma cut_at_match_flag (ps : list re) (t : text) :
  In (py_int_of (fst (cut_at_match ps t))) [0; 1]%Z.
Proof. unfold cut_at_match. destruct (match_one ps t); simpl; auto. Qed.

Lemma birthday_match_flag (t : text) :
  In (py_int_of (fst (birthday_match t))) [0; 1]%Z.
Proof. unfold birthday_match. destruct (matches BIRTHDAY t); simpl; auto. Qed.

Lemma kofu_match_flag (t : text) :
  In (py_int_of (fst (kofu_match t))) [0; 1]%Z.
Proof.
  unfold kofu_match.
  destruct (match_one KOFU _); simpl; auto.
  destruct (get_date (from _ _)); simpl; auto.
  destruct (get_date (upto _ _)); simpl; auto.
Qed.

Lemma valid_from_match_flag (t : text) :
  In (py_int_of (fst (valid_from_match t))) [0; 1; 2]%Z.
Proof.
  unfold valid_from_match.
  repeat match goal with
         | |- context [if ?c then _ else _] => destruct c; simpl; auto
         | |- context [match search ?r ?s with _ => _ end] =>
           destruct (search r s); simpl; auto
         end.
  pose proof (cut_at_match_flag VALID_FROM t) as H. simpl in *. tauto.
Qed.

Lemma valid_until_match_flag (t : text) :
  In (py_int_of (fst (valid_until_match t))) [0; 1; 2]%Z.
Proof.
  unfold valid_until_match. cbv zeta.
  match goal with
  | |- context [match ?k with Some _ => _ | None => _ end] => destruct k
  end; simpl; auto.
  match goal with
  | |- context [cut_at_match ?ps ?u] =>
    pose proof (cut_at_match_flag ps u) as H
  end.
  simpl in *. tauto.
Qed.

(** C4 (amended): the raw hit of a line is the integer value of the flag
    its matcher returns ([hit_at]); with neighbour extension the score is
    [2*hit[i] + hit[i-1] + hit[i+1]], a neighbour outside the page counting
    0, and without it the score is [hit[i]].  The flag is 0 or 1 for the
    birthday and issue-date matchers and 0, 1 or 2 for the validity
    matchers, whose keyword shortcuts return 2. *)
Theorem score_formula (m : matcher) (p : Page) (i : nat) :
  i < length p ->
  nth_error (fst (score m p true)) i = Some (hit_at m p i)
  /\ nth_error (fst (score m p false)) i
     = Some (2 * hit_at m p i + hit_before m p i + hit_at m p (S i))%Z
  /\ length (fst (score m p true)) = length p
  /\ length (fst (score m p false)) = length p
  /\ (forall t, In (py_int_of (fst (birthday_match t))) [0; 1]%Z)
  /\ (forall t, In (py_int_of (fst (kofu_match t))) [0; 1]%Z)
  /\ (forall t, In (py_int_of (fst (valid_from_match t))) [0; 1; 2]%Z)
  /\ (forall t, In (py_int_of (fst (valid_until_match t))) [0; 1; 2]%Z).
Proof.
  intros Hi. repeat split.
  - rewrite score_no_ext. apply nth_error_of_nth.
    + now rewrite hits_length.
    + apply hits_nth.
  - apply nth_error_of_nth.
    + now rewrite score_ext_length.
    + now apply score_ext_nth.
  - rewrite score_no_ext. apply hits_length.
  - apply score_ext_length.
  - apply birthday_match_flag.
  - apply kofu_match_flag.
  - apply valid_from_match_flag.
  - apply valid_until_match_flag.
Qed.

Lemma score_formula_witness :
  nth_error (fst (score valid_from_match
                        [mkLine [] (U "2021年1月1日から"); mkLine [] (U "x")]
                        false)) 1
  = Some 2%Z.
Proof.
  pose proof (@score_formula valid_from_match
                [mkLine [] (U "2021年1月1日から"); mkLine [] (U "x")] 1) as H.
  destruct H as (_ & H & _); [simpl; lia|].
  exact H.
Defined.

(** C4, as stated, fails: on the line "2021年1月1日から" the start-date
    matcher returns the flag 2, so the raw hit and the non-extended score
    are 2, outside {0, 1}. *)
Lemma score_hit_not_binary :
  fst (score valid_from_match [mkLine [] (U "2021年1月1日から")] true) = [2%Z]
  /\ ~ (forall (m : matcher) (p : Page) (i : nat) (s : Z),
           nth_error (fst (score m p true)) i = Some s
           -> s = 0%Z \/ s = 1%Z).
Proof.
  assert (E : fst (score valid_from_match
                         [mkLine [] (U "2021年1月1日から")] true) = [2%Z])
    by (vm_compute; reflexivity).
  split; [exact E|].
  intros H.
  specialize (H valid_from_match [mkLine [] (U "2021年1月1日から")] 0 2%Z).
  rewrite E in H. destruct (H eq_refl); discriminate.
Qed.

(** ** The scoring policy of [_score] *)

(** The score vector [_score] leaves for a tag: first computed with
    [no_ext = (tag != "Birthday")], then, for YukoEdYmd only, recomputed
    with extension when its first two entries sum to 1. *)
Definition role_result (tag : string) (m : matcher) (p : Page)
  : list Z * list text :=
  let first := score m p (negb (String.eqb tag "Birthday")) in
  if String.eqb tag "YukoEdYmd" && Z.eqb (sum_first_two (fst first)) 1
  then score m p false
  else first.

Lemma dict_set_set (V : Type) (k : string) (v w : V) (d : dict V) :
  dict_set k w (dict_set k v d) = dict_set k w d.
Proof.
  induction d as [|[k' v'] d IH]; simpl.
  - now rewrite String.eqb_refl.
  - destruct (String.eqb k' k) eqn:E; simpl; rewrite E; auto.
    now rewrite IH.
Qed.

Lemma score_tag_run (p : Page) (tag : string) (m : matcher) (s : state) :
  score_tag p (tag, m) s
  = (inr tt,
     mkState (dict_set tag (fst (role_result tag m p)) (scores s))
             (dict_set tag (snd (role_result tag m p)) (texts s))
             (info s) (dates_all s) (heap s)).
Proof.
  unfold score_tag, role_result. cbv zeta.
  destruct (score m p (negb (String.eqb tag "Birthday"))) as [sc tx] eqn:E1.
  unfold bind, get, set_scores, set_texts, modify, item, lift. simpl.
  rewrite dict_get_set_same. simpl.
  destruct (String.eqb tag "YukoEdYmd" && Z.eqb (sum_first_two sc) 1).
  - destruct (score m p false) as [sc2 tx2]. simpl.
    now rewrite !dict_set_set.
  - reflexivity.
Qed.

(** The scores and texts after [_score], as a fold over the methods. *)
Definition scored (p : Page) (l : dict matcher) (s : state) : state :=
  fold_left
    (fun s tm =>
       mkState (dict_set (fst tm) (fst (role_result (fst tm) (snd tm) p)) (scores s))
               (dict_set (fst tm) (snd (role_result (fst tm) (snd tm) p)) (texts s))
               (info s) (dates_all s) (heap s))
    l s.

Lemma for_each_score_tag (p : Page) (l : dict matcher) (s : state) :
  for_each l (score_tag p) s = (inr tt, scored p l s).
Proof.
  revert s; induction l as [|[tag m] l IH]; intros s; [reflexivity|].
  cbn [for_each]. unfold bind at 1. rewrite score_tag_run. now rewrite IH.
Qed.

Lemma _score_run (f : DatesFinder) (p : Page) (s : state) :
  _score f p s = (inr tt, scored p (match_methods f) s).
Proof. apply for_each_score_tag. Qed.

Lemma scored_get_other (p : Page) (l : dict matcher) (s : state) (k : string) :
  ~ In k (keys l) ->
  dict_get k (scores (scored p l s)) = dict_get k (scores s)
  /\ dict_get k (texts (scored p l s)) = dict_get k (texts s).
Proof.
  revert s; induction l as [|[tag m] l IH]; intros s H; simpl in *; auto.
  destruct (IH (mkState
                  (dict_set tag (fst (role_result tag m p)) (scores s))
                  (dict_set tag (snd (role_result tag m p)) (texts s))
                  (info s) (dates_all s) (heap s))) as [H1 H2]; [tauto|].
  simpl in *. rewrite H1, H2.
  rewrite !dict_get_set_other by (intro; subst; tauto). auto.
Qed.

Lemma scored_get (p : Page) (l : dict matcher) (s : state)
      (tag : string) (m : matcher) :
  NoDup (keys l) -> In (tag, m) l ->
  dict_get tag (scores (scored p l s)) = Some (fst (role_result tag m p))
  /\ dict_get tag (texts (scored p l s)) = Some (snd (role_result tag m p)).
Proof.
  revert s; induction l as [|[tag' m'] l IH]; intros s Hnd Hin; simpl in *;
    [tauto|].
  inversion Hnd as [|? ? Hni Hnd']; subst.
  destruct Hin as [E|Hin].
  - inversion E; subst.
    destruct (scored_get_other p l
                (mkState
                   (dict_set tag (fst (role_result tag m p)) (scores s))
                   (dict_set tag (snd (role_result tag m p)) (texts s))
                   (info s) (dates_all s) (heap s)) tag Hni) as [H1 H2].
    simpl in *. rewrite H1, H2, !dict_get_set_same. auto.
  - now apply IH.
Qed.

(** C2 (amended): in [_score] it is the Birthday role whose score vector is
    computed with neighbour extension ([no_ext] false); the YukoStYmd,
    YukoEdYmd and KofuYmd roles are scored without it ([no_ext] true, the
    score is the hit), YukoEdYmd being recomputed with extension when its
    first two non-extended scores sum to 1. *)
Theorem score_policy (f : DatesFinder) (p : Page) (s : state)
        (tag : string) (m : matcher) :
  NoDup (keys (match_methods f)) ->
  In (tag, m) (match_methods f) ->
  fst (_score f p s) = inr tt
  /\ dict_get tag (scores (snd (_score f p s)))
     = Some (if String.eqb tag "Birthday" then fst (score m p false)
             else if String.eqb tag "YukoEdYmd"
                     && Z.eqb (sum_first_two (hits m p)) 1
                  then fst (score m p false)
                  else hits m p).
Proof.
  intros Hnd Hin. rewrite _score_run. simpl. split; [reflexivity|].
  destruct (scored_get p (match_methods f) s tag m Hnd Hin) as [H _].
  rewrite H. unfold role_result. cbv zeta.
  destruct (String.eqb tag "Birthday") eqn:EB; cbn [negb].
  - apply String.eqb_eq in EB. subst tag. reflexivity.
  - rewrite score_no_ext.
    destruct (String.eqb tag "YukoEdYmd" && Z.eqb (sum_first_two (hits m p)) 1);
      [reflexivity | now rewrite score_no_ext].
Qed.

Definition docs_page : Page :=
  [ mkLine [] (U "生年月日平成1年2月3日");
    mkLine [] (U "有効開始日令和元年1月2日有効終了日令和2年1月2日");
    mkLine [] (U "令和元年1月1日交付") ].

Lemma dates_finder_nodup : NoDup (keys (match_methods dates_finder)).
Proof.
  simpl. repeat constructor; simpl; intuition discriminate.
Qed.

Lemma score_policy_witness :
  dict_get "Birthday" (scores (snd (_score dates_finder docs_page init_state)))
  = Some (fst (score birthday_match docs_page false)).
Proof.
  exact (proj2 (@score_policy dates_finder docs_page init_state
                  "Birthday" birthday_match dates_finder_nodup
                  (or_introl eq_refl))).
Defined.

(** C2, as stated, fails on the page of the class documentation: the
    Birthday scores are the extended [2; 1; 0], not the hits [1; 0; 0], and
    the YukoStYmd scores are the hits [0; 1; 0], not the extended
    [1; 2; 1]. *)
Lemma score_policy_as_stated_fails :
  let s := snd (_score dates_finder docs_page init_state) in
  dict_get "Birthday" (scores s) = Some [2; 1; 0]%Z
  /\ hits birthday_match docs_page = [1; 0; 0]%Z
  /\ dict_get "YukoStYmd" (scores s) = Some [0; 1; 0]%Z
  /\ fst (score valid_from_match docs_page false) = [1; 2; 1]%Z.
Proof. vm_compute. repeat split. Qed.

(** ** Matching a text over a small alphabet *)

(** [over A t]: every character of [t] is one of [A]. *)
Definition over (A : list char) (t : text) : Prop := Forall (fun c => In c A) t.

(** [outside A r]: every match of [r] consumes a character that is not in
    [A] (a sufficient syntactic test). *)
Fixpoint outside (A : list char) (r : re) : bool :=
  match r with
  | One c => forallb (fun a => negb (cls_match c a)) A
  | Seq a b => outside A a || outside A b
  | Alt a b => outside A a && outside A b
  | Rep c lo _ => negb (Nat.eqb lo 0) && forallb (fun a => negb (cls_match c a)) A
  | Grp _ a => outside A a
  | _ => false
  end.

Definition dead (A : list char) (k : cont) : Prop :=
  forall p r c, over A r -> k p r c = None.

Lemma over_tail (A : list char) (x : char) (t : text) :
  over A (x :: t) -> over A t.
Proof. intros H. now inversion H. Qed.

#[local] Hint Resolve over_tail : core.

Lemma rep_cls_dead (A : list char) (c : cls) (k : cont) :
  dead A k ->
  forall rest lo hi pos cs, over A rest -> rep_cls c lo hi pos rest cs k = None.
Proof.
  intros Hk rest. induction rest as [|x rest IH]; intros lo hi pos cs Ho; simpl.
  - destruct (Nat.eqb lo 0); auto.
  - assert (Hstop : (if Nat.eqb lo 0 then k pos (x :: rest) cs else None) = None)
      by (destruct (Nat.eqb lo 0); auto).
    destruct (hi_open hi && cls_match c x); auto.
    rewrite IH by eauto. exact Hstop.
Qed.

Lemma fuzzy_lit_dead (A : list char) (k : cont) :
  dead A k ->
  forall fuel l budget pos rest cs,
    over A rest -> fuzzy_lit fuel l budget pos rest cs k = None.
Proof.
  intros Hk fuel. induction fuel as [|f IH]; intros l budget pos rest cs Ho;
    simpl; auto.
  destruct l as [|c l'].
  - rewrite Hk by auto. simpl.
    destruct rest as [|x rest']; auto. destruct budget; auto.
    apply IH. eauto.
  - assert (E1 : match rest with
                 | [] => None
                 | x :: rest' =>
                   if char_eqb c x then fuzzy_lit f l' budget (S pos) rest' cs k
                   else None
                 end = None).
    { destruct rest as [|x rest']; auto. destruct (char_eqb c x); auto.
      apply IH. eauto. }
    rewrite E1. simpl. destruct budget as [|b]; auto.
    destruct rest as [|x rest']; simpl.
    + apply IH. auto.
    + rewrite !IH by eauto. reflexivity.
Qed.

Lemma mt_dead (A : list char) (r : re) :
  forall k pos rest cs, dead A k -> over A rest -> mt r pos rest cs k = None.
Proof.
  induction r as [|c|a IHa b IHb|a IHa b IHb|c lo hi|n a IHa| | |a IHa|l e];
    intros k pos rest cs Hk Ho; cbn [mt].
  - auto.
  - destruct rest as [|x rest']; auto. destruct (cls_match c x); eauto.
  - apply IHa; auto. intros p r' c' Ho'. apply IHb; auto.
  - rewrite IHa, IHb by auto. reflexivity.
  - eapply rep_cls_dead; eauto.
  - apply IHa; auto. intros p r' c' Ho'. apply Hk; auto.
  - destruct (Nat.eqb pos 0); auto.
  - destruct rest as [|c [|? ?]]; auto. destruct (char_eqb c 10%N); auto.
  - destruct (mt a pos rest cs accept); auto.
  - eapply fuzzy_lit_dead; eauto.
Qed.

Lemma forallb_rejects (A : list char) (c : cls) (x : char) :
  forallb (fun a => negb (cls_match c a)) A = true -> In x A ->
  cls_match c x = false.
Proof.
  intros H Hin. rewrite forallb_forall in H. specialize (H x Hin).
  now destruct (cls_match c x).
Qed.

Lemma mt_outside (A : list char) (r : re) :
  outside A r = true ->
  forall k pos rest cs, over A rest -> mt r pos rest cs k = None.
Proof.
  induction r as [|c|a IHa b IHb|a IHa b IHb|c lo hi|n a IHa| | |a IHa|l e];
    simpl; intros Hout k pos rest cs Ho; try discriminate.
  - destruct rest as [|x rest']; auto.
    rewrite (forallb_rejects A c x); auto. now inversion Ho.
  - apply orb_true_iff in Hout. destruct Hout as [Ha|Hb].
    + now apply IHa.
    + apply (@mt_dead A); auto. intros p r' c' Ho'. now apply IHb.
  - apply andb_true_iff in Hout. destruct Hout as [Ha Hb].
    rewrite IHa, IHb by auto. reflexivity.
  - apply andb_true_iff in Hout. destruct Hout as [Hlo Hc].
    destruct (Nat.eqb lo 0) eqn:E; [discriminate|].
    destruct rest as [|x rest']; simpl; rewrite E; auto.
    rewrite (forallb_rejects A c x); auto.
    + now rewrite andb_false_r.
    + now inversion Ho.
  - now apply IHa.
Qed.

Lemma search_from_outside (A : list char) (r : re) :
  outside A r = true ->
  forall rest pos, over A rest -> search_from r pos rest = None.
Proof.
  intros Hout rest. induction rest as [|x rest IH]; intros pos Ho; simpl;
    rewrite (@mt_outside A) by auto; eauto.
Qed.

Lemma finditer_outside (A : list char) (r : re) (t : text) :
  outside A r = true -> over A t -> finditer r t = [].
Proof.
  intros Hout Ho. unfold finditer. simpl.
  now rewrite (@search_from_outside A).
Qed.

Lemma sub_outside (A : list char) (r : re) (f : caps -> text) (t : text) :
  outside A r = true -> over A t -> sub r f t = t.
Proof.
  intros Hout Ho. unfold sub. simpl.
  now rewrite (@search_from_outside A).
Qed.

Lemma str_replace_absent (A : list char) (c : char) (old new s : text) :
  ~ In c A -> over A s -> str_replace (c :: old) new s = s.
Proof.
  intros Hc. unfold str_replace. generalize (S (length s)) as fuel.
  intros fuel. revert s. induction fuel as [|f IH]; intros s Ho; simpl; auto.
  destruct s as [|x s']; auto.
  assert (E : char_eqb c x = false).
  { unfold char_eqb. apply N.eqb_neq. intros ->. apply Hc. now inversion Ho. }
  rewrite E. simpl. f_equal. apply IH. eauto.
Qed.

(** ** The date codec *)

(** The canonical 8-digit string of a calendar date, and the same digits
    with a separator after the year and after the month. *)
Definition canonical (y m d : N) : text :=
  py_str y ++ zfill 2 (py_str m) ++ zfill 2 (py_str d).

Definition separated (y m d : N) : text :=
  py_str y ++ U "-" ++ zfill 2 (py_str m) ++ U "-" ++ zfill 2 (py_str d).

Arguments canonical (y m d)%_N.
Arguments separated (y m d)%_N.

Definition digits : list char := [48; 49; 50; 51; 52; 53; 54; 55; 56; 57]%N.
Definition digits_dash : list char := 45%N :: digits.

Definition over_b (A : list char) (t : text) : bool :=
  forallb (fun c => existsb (N.eqb c) A) t.

Lemma over_b_spec (A : list char) (t : text) : over_b A t = true -> over A t.
Proof.
  unfold over_b, over. rewrite forallb_forall, Forall_forall.
  intros H c Hc. specialize (H c Hc). apply existsb_exists in H.
  destruct H as (a & Ha & E). apply N.eqb_eq in E. now subst.
Qed.

Lemma over_app (A : list char) (s t : text) :
  over A s -> over A t -> over A (s ++ t).
Proof. unfold over. intros. apply Forall_app. auto. Qed.

Lemma over_weaken (A B : list char) (t : text) :
  incl A B -> over A t -> over B t.
Proof.
  unfold over. intros Hi H. eapply Forall_impl; [|exact H]. intros c. apply Hi.
Qed.

Lemma ascii_digit_in (c : char) : is_ascii_digit c = true -> In c digits.
Proof.
  unfold is_ascii_digit, digits. rewrite andb_true_iff, !N.leb_le.
  intros [H1 H2]. simpl.
  assert (Hc : (c = 48 \/ c = 49 \/ c = 50 \/ c = 51 \/ c = 52 \/ c = 53
                 \/ c = 54 \/ c = 55 \/ c = 56 \/ c = 57)%N) by lia.
  intuition.
Qed.

Lemma in_digits_ascii (c : char) : In c digits -> is_ascii_digit c = true.
Proof.
  unfold digits. simpl. intros H.
  repeat (destruct H as [<-|H]; [reflexivity|]). contradiction.
Qed.

Lemma ascii_digit_decimal (c : char) :
  is_ascii_digit c = true -> is_decimal c = true.
Proof.
  unfold is_ascii_digit, is_decimal. intros H. simpl.
  apply andb_true_iff in H. destruct H as [H1 H2].
  apply N.leb_le in H1, H2.
  apply orb_true_iff. left. apply andb_true_iff. split.
  - now apply N.leb_le.
  - apply N.ltb_lt. lia.
Qed.

(** A text of ASCII digits holds no date: every pattern of [DATE] needs a
    separator after the year. *)
Lemma DATE_outside_digits (e : era) : outside digits (DATE_pattern e) = true.
Proof. destruct e; vm_compute; reflexivity. Qed.

Lemma clean_date_over (A : list char) (t : text) :
  ~ In (ch "元") A -> outside A LAST_DAY = true -> over A t ->
  clean_date t = t.
Proof.
  intros Hg Hl Ho. unfold clean_date.
  assert (E : str_replace (U "元年") (U "1年") t = t).
  { change (U "元年") with (ch "元" :: [ch "年"]).
    now apply (@str_replace_absent A). }
  rewrite E. now apply (@sub_outside A).
Qed.

Lemma not_in_b (c : char) (A : list char) :
  existsb (N.eqb c) A = false -> ~ In c A.
Proof.
  intros H Hin. assert (E : existsb (N.eqb c) A = true).
  { apply existsb_exists. exists c. split; auto. apply N.eqb_refl. }
  congruence.
Qed.

Lemma get_date_digits (t : text) :
  forallb is_ascii_digit t = true -> get_date t = [].
Proof.
  intros H.
  assert (Ho : over digits t).
  { unfold over. rewrite forallb_forall in H. apply Forall_forall.
    intros c Hc. apply ascii_digit_in. auto. }
  unfold get_date. cbv zeta.
  rewrite (@clean_date_over digits) by
      (auto; try (apply not_in_b; vm_compute; reflexivity)).
  unfold DATE, findall_groups. simpl.
  rewrite !(@finditer_outside digits) by (auto using DATE_outside_digits).
  reflexivity.
Qed.

(** The year group of the western pattern, [(19[0-9]{2}|2[0-9]{3})]. *)
Definition western_year : re :=
  Eval vm_compute in
    alts [ seqs [lit (U "19"); Rep (Of [rng "0" "9"]) 2 (Some 2)];
           seqs [chr (ch "2"); Rep (Of [rng "0" "9"]) 3 (Some 3)] ].

Definition MONTH_DATE_w : re := Eval vm_compute in MONTH_DATE 1.

Lemma DATE_pattern_Ew :
  DATE_pattern Ew = Seq (Grp 1 western_year) MONTH_DATE_w.
Proof. vm_compute. reflexivity. Qed.

(** A year from 1900 to 2999 as four characters. *)
Definition year_ok (Y : text) : bool :=
  match Y with
  | [a; b; c; e] =>
    ((N.eqb a 49%N && N.eqb b 57%N) || (N.eqb a 50%N && is_ascii_digit b))
    && is_ascii_digit c && is_ascii_digit e
  | _ => false
  end.

Lemma digit_cls (c : char) :
  is_ascii_digit c = true -> cls_match (Of [IRange 48%N 57%N]) c = true.
Proof.
  intros H. cbn [cls_match existsb citem_match].
  unfold is_ascii_digit in H. now rewrite H.
Qed.

Lemma rep_cls_zero (c : cls) (pos : nat) (rest : text) (cs : caps) (k : cont) :
  rep_cls c 0 (Some 0) pos rest cs k = k pos rest cs.
Proof. destruct rest; reflexivity. Qed.

Lemma orelse_none_r (A : Type) (x : option A) : orelse x None = x.
Proof. now destruct x. Qed.

Lemma year_group (Y tail : text) (pos : nat) (cs : caps) (k : cont) :
  year_ok Y = true ->
  mt western_year pos (Y ++ tail) cs k = k (4 + pos) tail cs.
Proof.
  destruct Y as [|a [|b [|c [|e [|? ?]]]]]; try discriminate.
  unfold year_ok. rewrite !andb_true_iff, orb_true_iff, !andb_true_iff.
  intros [[Hab Hc] He].
  pose proof (digit_cls c Hc) as Hc'.
  pose proof (digit_cls e He) as He'.
  destruct Hab as [[Ha Hb]|[Ha Hb]]; apply N.eqb_eq in Ha; subst a.
  - apply N.eqb_eq in Hb. subst b.
    unfold western_year.
    cbn [mt app rep_cls hi_open hi_pred pred Nat.eqb andb].
    change (cls_match (Of [IChr 49%N]) 49%N) with true.
    change (cls_match (Of [IChr 57%N]) 57%N) with true.
    change (cls_match (Of [IChr 50%N]) 49%N) with false.
    cbv iota. cbn [mt app rep_cls hi_open hi_pred pred Nat.eqb andb].
    rewrite Hc'. cbn [rep_cls hi_open hi_pred pred Nat.eqb andb].
    rewrite He'. rewrite rep_cls_zero.
    cbn [orelse]. now rewrite !orelse_none_r.
  - pose proof (digit_cls b Hb) as Hb'.
    unfold western_year.
    cbn [mt app rep_cls hi_open hi_pred pred Nat.eqb andb].
    change (cls_match (Of [IChr 49%N]) 50%N) with false.
    change (cls_match (Of [IChr 50%N]) 50%N) with true.
    cbv iota. cbn [mt app rep_cls hi_open hi_pred pred Nat.eqb andb orelse].
    rewrite Hb'. cbn [rep_cls hi_open hi_pred pred Nat.eqb andb].
    rewrite Hc'. cbn [rep_cls hi_open hi_pred pred Nat.eqb andb].
    rewrite He'. rewrite rep_cls_zero.
    now rewrite !orelse_none_r.
Qed.

Lemma search_from_eq (r : re) (pos : nat) (rest : text) :
  search_from r pos rest
  = match mt r pos rest [] accept with
    | Some (e, _, cs) => Some (mkMatch pos e cs)
    | None => match rest with
              | [] => None
              | _ :: rest' => search_from r (S pos) rest'
              end
    end.
Proof. destruct rest; reflexivity. Qed.

Lemma year_ok_length (Y : text) : year_ok Y = true -> length Y = 4.
Proof. destruct Y as [|a [|b [|c [|e [|? ?]]]]]; simpl; congruence. Qed.

Lemma year_ok_digits (Y : text) : year_ok Y = true -> over digits Y.
Proof.
  destruct Y as [|a [|b [|c [|e [|? ?]]]]]; try discriminate.
  unfold year_ok. rewrite !andb_true_iff, orb_true_iff, !andb_true_iff.
  intros [[Hab Hc] He].
  assert (Ha : is_ascii_digit a = true /\ is_ascii_digit b = true).
  { destruct Hab as [[Ha Hb]|[Ha Hb]]; apply N.eqb_eq in Ha; subst a.
    - apply N.eqb_eq in Hb. subst b. auto.
    - auto. }
  destruct Ha as [Ha Hb].
  unfold over. repeat (apply Forall_cons; [now apply ascii_digit_in|]).
  constructor.
Qed.

Lemma search_western (Y tail : text) (cs : caps) :
  year_ok Y = true ->
  mt MONTH_DATE_w 4 tail [(1, Y)] accept = Some (4 + length tail, [], cs) ->
  search (DATE_pattern Ew) (Y ++ tail) = Some (mkMatch 0 (4 + length tail) cs).
Proof.
  intros HY Hm. unfold search. rewrite search_from_eq, DATE_pattern_Ew.
  cbn [mt]. rewrite year_group by exact HY.
  replace (firstn (4 + 0 - 0) (Y ++ tail)) with Y.
  - change (4 + 0) with 4.
    match goal with
    | |- context [mt ?a ?b ?c ?d ?e] =>
      change (mt a b c d e) with (mt MONTH_DATE_w 4 tail [(1, Y)] accept)
    end.
    now rewrite Hm.
  - change (4 + 0 - 0) with 4. rewrite <- (year_ok_length Y HY).
    now rewrite firstn_app, Nat.sub_diag, firstn_all, firstn_O, List.app_nil_r.
Qed.

Lemma finditer_western (Y tail : text) (cs : caps) :
  year_ok Y = true ->
  mt MONTH_DATE_w 4 tail [(1, Y)] accept = Some (4 + length tail, [], cs) ->
  finditer (DATE_pattern Ew) (Y ++ tail) = [mkMatch 0 (4 + length tail) cs].
Proof.
  intros HY Hm. unfold finditer. cbn [finditer_from].
  change (search_from (DATE_pattern Ew) 0 (Y ++ tail))
    with (search (DATE_pattern Ew) (Y ++ tail)).
  rewrite (search_western Y tail HY Hm). cbn [m_end m_start Nat.eqb plus].
  f_equal.
  replace (skipn (S (S (S (S (length tail)))) - 0) (Y ++ tail)) with (@nil char).
  - destruct (length (Y ++ tail)); [reflexivity|]. cbn [finditer_from].
    now rewrite (@search_from_outside []) by (try constructor; reflexivity).
  - symmetry. apply skipn_all2. rewrite length_app, (year_ok_length Y HY). lia.
Qed.

Lemma DATE_era_outside (e : era) :
  e <> Ew -> outside digits_dash (DATE_pattern e) = true.
Proof. destruct e; intros H; try congruence; vm_compute; reflexivity. Qed.

Lemma isdigit_year (Y : text) : year_ok Y = true -> isdigit Y = true.
Proof.
  intros H. pose proof (year_ok_digits Y H) as Ho.
  destruct Y as [|a Y']; [discriminate|]. unfold isdigit.
  apply forallb_forall. intros c Hc. apply ascii_digit_decimal.
  apply in_digits_ascii. unfold over in Ho. rewrite Forall_forall in Ho. auto.
Qed.

(** The dates of a text that is a western year followed by a month and a
    day the pattern reads as [mm] and [dd]. *)
Lemma get_date_western (Y tail sep1 mm sep2 dd last : text) :
  year_ok Y = true ->
  over digits_dash tail ->
  mt MONTH_DATE_w 4 tail [(1, Y)] accept
  = Some (4 + length tail, [],
          [(6, last); (5, dd); (4, sep2); (3, mm); (2, sep1); (1, Y)]) ->
  get_date (Y ++ tail) = [Date_init Y mm dd Ew].
Proof.
  intros HY Ht Hm.
  assert (Ho : over digits_dash (Y ++ tail)).
  { apply over_app; auto. apply (@over_weaken digits); [|now apply year_ok_digits].
    intros c Hc. now right. }
  unfold get_date. cbv zeta.
  rewrite (@clean_date_over digits_dash) by
      (auto; try (apply not_in_b; vm_compute; reflexivity)).
  unfold DATE, findall_groups. cbn [map flat_map fst snd].
  rewrite !(@finditer_outside digits_dash)
    by (auto; apply DATE_era_outside; discriminate).
  rewrite (finditer_western Y tail HY Hm).
  cbn [map app DATE_groups seq m_caps cap Nat.eqb].
  unfold date_of_groups. cbn [nth]. now rewrite (isdigit_year Y HY).
Qed.

Lemma text_of_uint_digits (u : Decimal.uint) :
  forallb is_ascii_digit (text_of_uint u) = true.
Proof. induction u; simpl; auto. Qed.

Lemma uint_of_text_of_uint (u : Decimal.uint) :
  uint_of_text (text_of_uint u) = u.
Proof. induction u; simpl; try rewrite IHu; reflexivity. Qed.

Lemma py_int_str (n : N) : py_int (py_str n) = n.
Proof.
  unfold py_int, py_str. rewrite uint_of_text_of_uint.
  apply DecimalN.Unsigned.of_to.
Qed.

Lemma canonical_digits (y m d : N) :
  forallb is_ascii_digit (canonical y m d) = true.
Proof.
  unfold canonical, zfill, py_str. rewrite !forallb_app.
  rewrite !text_of_uint_digits.
  assert (R : forall n, forallb is_ascii_digit (repeat 48%N n) = true)
    by (induction n; simpl; auto).
  now rewrite !R.
Qed.

Definition rangeN (lo : N) (n : nat) : list N :=
  map (fun k => (lo + N.of_nat k)%N) (seq 0 n).

Lemma in_rangeN (lo : N) (n : nat) (x : N) :
  (lo <= x)%N -> (x < lo + N.of_nat n)%N -> In x (rangeN lo n).
Proof.
  intros H1 H2. unfold rangeN. apply in_map_iff.
  exists (N.to_nat (x - lo)). split.
  - rewrite N2Nat.id. lia.
  - apply in_seq. lia.
Qed.

Lemma year_ok_range (y : N) :
  (1900 <= y <= 2999)%N -> year_ok (py_str y) = true.
Proof.
  intros [H1 H2].
  assert (A : forallb (fun y => year_ok (py_str y)) (rangeN 1900 1100) = true)
    by (vm_compute; reflexivity).
  rewrite forallb_forall in A. apply A. apply in_rangeN; lia.
Qed.

Ltac month_day_case Y HY :=
  match goal with
  | |- map western_str (get_date (Y ++ ?tail)) = _ =>
    rewrite (@get_date_western Y tail [45%N]
               (firstn 2 (skipn 1 tail)) [45%N] (skipn 4 tail) [] HY);
    [ unfold western_str, Date_init; cbn [date_y date_m date_d map];
      rewrite N.add_0_r; reflexivity
    | apply over_b_spec; vm_compute; reflexivity
    | vm_compute; reflexivity ]
  end.

Lemma round_trip_month_day (Y : text) (m d : N) :
  year_ok Y = true ->
  In m (rangeN 1 12) -> In d (rangeN 1 31) ->
  map western_str
      (get_date (Y ++ U "-" ++ zfill 2 (py_str m) ++ U "-" ++ zfill 2 (py_str d)))
  = [py_str (py_int Y) ++ zfill 2 (py_str m) ++ zfill 2 (py_str d)].
Proof.
  intros HY Hm Hd.
  cbv [rangeN seq map N.add N.of_nat Pos.of_succ_nat Pos.succ Pos.add] in Hm, Hd.
  cbn [In] in Hm, Hd.
  repeat (destruct Hm as [<-|Hm]); try contradiction;
    repeat (destruct Hd as [<-|Hd]); try contradiction;
      match goal with
      | |- map western_str (get_date (Y ++ ?tail)) = _ =>
        let t := eval vm_compute in tail in change tail with t
      end;
      match goal with
      | |- _ = [_ ++ ?r] =>
        let t := eval vm_compute in r in change r with t
      end;
      month_day_case Y HY.
Qed.

(** C6 (amended): the date extractor finds no date in a canonical 8-digit
    string, so that string cannot be parsed back; the round trip holds for
    the canonical digits written with a separator after the year and after
    the month: for a year from 1900 to 2999, a month from 1 to 12 and a day
    from 1 to 31, [get_date] reads exactly one date from YYYY-MM-DD, and
    its [western_str] is the canonical string YYYYMMDD. *)
Theorem date_round_trip (y m d : N) :
  (1900 <= y <= 2999)%N -> (1 <= m <= 12)%N -> (1 <= d <= 31)%N ->
  get_date (canonical y m d) = []
  /\ map western_str (get_date (separated y m d)) = [canonical y m d].
Proof.
  intros Hy Hm Hd. split.
  - apply get_date_digits, canonical_digits.
  - unfold separated, canonical.
    rewrite (@round_trip_month_day (py_str y) m d).
    + now rewrite py_int_str.
    + now apply year_ok_range.
    + apply in_rangeN; simpl; lia.
    + apply in_rangeN; simpl; lia.
Qed.

Lemma date_round_trip_witness :
  get_date (canonical 2021 1 22) = []
  /\ map western_str (get_date (separated 2021 1 22)) = [canonical 2021 1 22].
Proof.
  apply (@date_round_trip 2021%N 1%N 22%N); lia.
Defined.

(** C6, as stated, fails: the canonical string 20210122 of 22 January 2021
    parses to no date, so re-serialising the parsed dates does not give the
    string back. *)
Lemma canonical_string_not_parsed :
  canonical 2021 1 22 = U "20210122"
  /\ get_date (U "20210122") = []
  /\ map western_str (get_date (canonical 2021 1 22)) <> [canonical 2021 1 22].
Proof.
  assert (E : get_date (U "20210122") = []) by (vm_compute; reflexivity).
  assert (C : canonical 2021 1 22 = U "20210122") by (vm_compute; reflexivity).
  repeat split; auto. rewrite C, E. discriminate.
Qed.

(** ** The fallback corrections of the analyzer *)

Section KouhiFallbacks.

Variable insurer_match : matcher.
Variable kohi_num_match : matcher.

Lemma handle_nums_loop_other (all : Page) (lines : list (nat * Line))
      (i : Info) (tag : string) :
  tag <> "Num"%string -> tag <> "HknajaNum"%string ->
  dict_get tag (handle_nums_loop insurer_match kohi_num_match all lines i)
  = dict_get tag i.
Proof.
  intros H1 H2. revert i. induction lines as [|[idx line] lines IH];
    intros i; simpl; auto.
  rewrite IH.
  destruct (truthy _ && truthy _ && (idx + 1 <? length all)); auto.
  destruct (nth_error all (idx + 1)); auto.
  destruct (isdigit (line_text l)); auto.
  now rewrite !dict_get_set_other by congruence.
Qed.

Lemma handle_nums_keeps (p : Page) (i : Info) (tag : string) :
  (tag = "Num"%string \/ tag = "HknajaNum"%string ->
   _have i "HknjaNum" = true /\ _have i "Num" = true) ->
  dict_get tag (_handle_nums insurer_match kohi_num_match p i) = dict_get tag i.
Proof.
  intros H. unfold _handle_nums.
  destruct (_have i "HknjaNum" && _have i "Num") eqn:E; auto.
  apply handle_nums_loop_other; intros ->;
    (destruct H as [H1 H2]; [auto|]; rewrite H1, H2 in E; discriminate).
Qed.

Lemma kigo_fold_other (p : Page) (i : Info) (tag : string) :
  tag <> "Kigo"%string ->
  dict_get tag (fold_left (fun acc line => kigo_of_line line acc) p i)
  = dict_get tag i.
Proof.
  intros H. revert i. induction p as [|line p IH]; intros i; simpl; auto.
  rewrite IH. unfold kigo_of_line.
  generalize KIGO as ps. intros ps. revert i.
  induction ps as [|r ps IHp]; intros i; simpl; auto.
  rewrite IHp. destruct (findall1 r (line_text line)); auto.
  now rewrite dict_get_set_other by congruence.
Qed.

Lemma handle_kigo_keeps (p : Page) (i : Info) (tag : string) (v : value) :
  dict_get tag i = Some (Some v) ->
  dict_get tag (_handle_kigo p i) = Some (Some v).
Proof.
  intros H. unfold _handle_kigo.
  destruct (_have i "Kigo") eqn:E; auto.
  assert (Hne : tag <> "Kigo"%string).
  { intros ->. unfold _have in E. rewrite H in E. discriminate. }
  rewrite kigo_fold_other by exact Hne.
  now rewrite dict_get_set_other by congruence.
Qed.

Lemma handle_multi_dates_other (p : Page) (i : Info) (tag : string) :
  tag <> "YukoStYmd"%string -> tag <> "YukoEdYmd"%string ->
  dict_get tag (_handle_multi_dates p i) = dict_get tag i.
Proof.
  intros H1 H2. unfold _handle_multi_dates.
  destruct (collect_dates (enumerate p) [] []) as [froms untils].
  destruct (negb ((1 <? length untils) && (1 <? length froms))); auto.
  destruct (negb (is_nil _) && negb (is_nil _)); auto.
  now rewrite !dict_get_set_other by congruence.
Qed.

(** C8 (amended): a field that is not null after the finder merge keeps
    its value through the fallback corrections of [KouhiAnalyzer.fit]
    unless a correction targets it without a null check: the Kigo
    correction fires only when Kigo is null and the number correction is
    skipped when HknjaNum and Num are both set, but [_handle_multi_dates]
    assigns YukoStYmd and YukoEdYmd whatever they hold. *)
Theorem fallbacks_keep (p : Page) (i : Info) (tag : string) (v : value) :
  dict_get tag i = Some (Some v) ->
  tag <> "YukoStYmd"%string -> tag <> "YukoEdYmd"%string ->
  (tag = "Num"%string \/ tag = "HknajaNum"%string ->
   _have i "HknjaNum" = true /\ _have i "Num" = true) ->
  dict_get tag (fit_fallbacks insurer_match kohi_num_match p i)
  = Some (Some v).
Proof.
  intros Hv H1 H2 Hn. unfold fit_fallbacks.
  rewrite handle_multi_dates_other by assumption.
  apply handle_kigo_keeps. now rewrite handle_nums_keeps.
Qed.

End KouhiFallbacks.

Definition tagged_periods : Page :=
  [ mkLine [] (U "入院 2020年4月1日から2021年3月31日まで");
    mkLine [] (U "外来 2020年5月1日から2021年4月30日まで") ].

Definition merged_info : Info :=
  [ ("HknjaNum", Some (VStr (U "12345678")));
    ("Num", Some (VStr (U "1234567")));
    ("Kigo", Some (VStr (U "12")));
    ("YukoStYmd", Some (VDate (mkObj 0 (Date_init (U "2020") (U "4") (U "1") Ew))));
    ("YukoEdYmd", Some (VDate (mkObj 1 (Date_init (U "2021") (U "3") (U "31") Ew)))) ]%string.

Definition no_match : matcher := fun t => (PBool false, t).

Lemma fallbacks_keep_witness :
  dict_get "Kigo" (fit_fallbacks no_match no_match tagged_periods merged_info)
  = Some (Some (VStr (U "12"))).
Proof.
  apply (@fallbacks_keep no_match no_match tagged_periods merged_info
           "Kigo" (VStr (U "12"))).
  - reflexivity.
  - discriminate.
  - discriminate.
  - intros [H|H]; discriminate.
Defined.

(** C8, as stated, fails: with both numbers and Kigo set (so that the other
    corrections return at once, whatever the two matchers say), two lines
    each carrying a tagged period make [_handle_multi_dates] replace the
    date the finders stored in YukoStYmd by a tagged string. *)
Lemma multi_dates_overwrite :
  dict_get "YukoStYmd" merged_info
  = Some (Some (VDate (mkObj 0 (Date_init (U "2020") (U "4") (U "1") Ew))))
  /\ (forall im km : matcher,
         dict_get "YukoStYmd" (fit_fallbacks im km tagged_periods merged_info)
         = Some (Some (VStr (U "入院 20200401;外来 20200401;入院 20200501;外来 20200501;")))).
Proof.
  split; [reflexivity|]. intros im km. vm_compute. reflexivity.
Qed.

(** ** Runs of the finder that raise nothing *)

(** [ok P m Q]: from a state satisfying [P], [m] returns a value and a
    state satisfying [Q], without raising. *)
Definition ok (A : Type) (P : state -> Prop) (m : M A)
           (Q : A -> state -> Prop) : Prop :=
  forall s, P s -> exists a s', m s = (inr a, s') /\ Q a s'.

Lemma ok_ret (A : Type) (P : state -> Prop) (a : A) (Q : A -> state -> Prop) :
  (forall s, P s -> Q a s) -> ok P (ret a) Q.
Proof. intros H s Hs. exists a, s. split; auto. Qed.

Lemma ok_bind (A B : Type) (P : state -> Prop) (m : M A) (f : A -> M B)
      (R : A -> state -> Prop) (Q : B -> state -> Prop) :
  ok P m R -> (forall a, ok (R a) (f a) Q) -> ok P (bind m f) Q.
Proof.
  intros Hm Hf s Hs. destruct (Hm s Hs) as (a & s1 & E & HR).
  destruct (Hf a s1 HR) as (b & s2 & E2 & HQ).
  exists b, s2. split; auto. unfold bind. now rewrite E.
Qed.

Lemma ok_get (A : Type) (P : state -> Prop) (f : state -> A)
      (Q : A -> state -> Prop) :
  (forall s, P s -> Q (f s) s) -> ok P (get f) Q.
Proof. intros H s Hs. exists (f s), s. split; auto. Qed.

Lemma ok_modify (P : state -> Prop) (f : state -> state)
      (Q : unit -> state -> Prop) :
  (forall s, P s -> Q tt (f s)) -> ok P (modify f) Q.
Proof. intros H s Hs. exists tt, (f s). split; auto. Qed.

Lemma ok_lift (A : Type) (P : state -> Prop) (e : exn) (o : option A)
      (Q : A -> state -> Prop) :
  (forall s, P s -> exists a, o = Some a /\ Q a s) -> ok P (lift e o) Q.
Proof.
  intros H s Hs. destruct (H s Hs) as (a & E & HQ).
  exists a, s. rewrite E. split; auto.
Qed.

Lemma ok_conseq (A : Type) (P P' : state -> Prop) (m : M A)
      (Q Q' : A -> state -> Prop) :
  ok P m Q -> (forall s, P' s -> P s) -> (forall a s, Q a s -> Q' a s) ->
  ok P' m Q'.
Proof.
  intros H HP HQ s Hs. destruct (H s (HP s Hs)) as (a & s' & E & Hq).
  exists a, s'. auto.
Qed.

Lemma ok_for_each (A : Type) (I : state -> Prop) (xs : list A)
      (body : A -> M unit) :
  (forall x, In x xs -> ok I (body x) (fun _ => I)) ->
  ok I (for_each xs body) (fun _ => I).
Proof.
  induction xs as [|x xs IH]; intros H; simpl.
  - apply ok_ret. auto.
  - eapply ok_bind.
    + apply H. now left.
    + intros u. apply IH. intros y Hy. apply H. now right.
Qed.

(** Reading with the state at hand. *)
Lemma ok_get_keep (A : Type) (P : state -> Prop) (f : state -> A) :
  ok P (get f) (fun a s => P s /\ a = f s).
Proof. apply ok_get. auto. Qed.

(** The shape of a running [extract] on a page of [n] lines for the tags
    [ks]: one score vector and one row of candidate lists for each tag, all
    of length [n], and fields for tags only. *)
Record wf (n : nat) (ks : list string) (s : state) : Prop := mkWf {
  wf_scores : keys (scores s) = ks;
  wf_dates : keys (dates_all s) = ks;
  wf_scores_len : forall k a, dict_get k (scores s) = Some a -> length a = n;
  wf_dates_len : forall k a, dict_get k (dates_all s) = Some a -> length a = n;
  wf_info : incl (keys (info s)) ks;
  wf_info_nodup : NoDup (keys (info s))
}.

Lemma keys_set_nodup (V : Type) (k : string) (v : V) (d : dict V) :
  NoDup (keys d) -> NoDup (keys (dict_set k v d)).
Proof.
  intros H. destruct (in_dec string_dec k (keys d)) as [Hin|Hni].
  - now rewrite keys_set_present.
  - rewrite keys_set_absent by assumption.
    apply NoDup_app; auto.
    + repeat constructor. simpl. tauto.
    + intros x Hx [<-|[]]. contradiction.
Qed.

Lemma wf_score_row (n : nat) (ks : list string) (s : state) (k : string) :
  wf n ks s -> In k ks ->
  exists a, dict_get k (scores s) = Some a /\ length a = n.
Proof.
  intros W Hk. rewrite <- (wf_scores W) in Hk.
  apply dict_get_in_keys in Hk. destruct Hk as [a Ha].
  exists a. split; auto. eapply wf_scores_len; eauto.
Qed.

Lemma wf_dates_row (n : nat) (ks : list string) (s : state) (k : string) :
  wf n ks s -> In k ks ->
  exists a, dict_get k (dates_all s) = Some a /\ length a = n.
Proof.
  intros W Hk. rewrite <- (wf_dates W) in Hk.
  apply dict_get_in_keys in Hk. destruct Hk as [a Ha].
  exists a. split; auto. eapply wf_dates_len; eauto.
Qed.

Lemma nth_error_some (A : Type) (l : list A) (i : nat) :
  i < length l -> exists x, nth_error l i = Some x.
Proof.
  intros H. destruct (nth_error l i) eqn:E; eauto.
  apply nth_error_None in E. lia.
Qed.

Lemma keys_set_in (V : Type) (k : string) (v : V) (d : dict V) (ks : list string) :
  keys d = ks -> In k ks -> keys (dict_set k v d) = ks.
Proof. intros <- H. now apply keys_set_present. Qed.

Lemma dict_get_set_cases (V : Type) (k k0 : string) (v : V) (d : dict V) (w : V) :
  dict_get k0 (dict_set k v d) = Some w ->
  (k0 = k /\ w = v) \/ (k0 <> k /\ dict_get k0 d = Some w).
Proof.
  intros H. destruct (string_dec k0 k) as [->|Hne].
  - rewrite dict_get_set_same in H. left. split; congruence.
  - rewrite dict_get_set_other in H by assumption. now right.
Qed.

Definition with_scores (s : state) (v : dict (list Z)) : state :=
  mkState v (texts s) (info s) (dates_all s) (heap s).
Definition with_info (s : state) (v : dict (option obj)) : state :=
  mkState (scores s) (texts s) v (dates_all s) (heap s).
Definition with_dates (s : state) (v : dict (list (list obj))) : state :=
  mkState (scores s) (texts s) (info s) v (heap s).

Lemma score_at_run (s : state) (k : string) (i : nat) (a : list Z) (x : Z) :
  dict_get k (scores s) = Some a -> nth_error a i = Some x ->
  score_at k i s = (inr x, s).
Proof.
  intros Ha Hx. unfold score_at, bind, get, item, at_, lift.
  rewrite Ha. simpl. now rewrite Hx.
Qed.

Lemma dates_at_run (s : state) (k : string) (i : nat)
      (a : list (list obj)) (x : list obj) :
  dict_get k (dates_all s) = Some a -> nth_error a i = Some x ->
  dates_at k i s = (inr x, s).
Proof.
  intros Ha Hx. unfold dates_at, bind, get, item, at_, lift.
  rewrite Ha. simpl. now rewrite Hx.
Qed.

Lemma set_score_at_run (s : state) (k : string) (i : nat) (v : Z) (a : list Z) :
  dict_get k (scores s) = Some a -> i < length a ->
  set_score_at k i v s
  = (inr tt, with_scores s (dict_set k (list_set i v a) (scores s))).
Proof.
  intros Ha Hi. destruct (nth_error_some a Hi) as [x Hx].
  unfold set_score_at, bind, get, item, at_, lift.
  rewrite Ha. simpl. now rewrite Hx.
Qed.

Lemma set_dates_at_run (s : state) (k : string) (i : nat) (v : list obj)
      (a : list (list obj)) :
  dict_get k (dates_all s) = Some a -> i < length a ->
  set_dates_at k i v s
  = (inr tt, with_dates s (dict_set k (list_set i v a) (dates_all s))).
Proof.
  intros Ha Hi. destruct (nth_error_some a Hi) as [x Hx].
  unfold set_dates_at, bind, get, item, at_, lift.
  rewrite Ha. simpl. now rewrite Hx.
Qed.

Lemma set_info_at_run (s : state) (k : string) (v : option obj) :
  set_info_at k v s = (inr tt, with_info s (dict_set k v (info s))).
Proof. reflexivity. Qed.

Lemma info_get_run (s : state) (k : string) :
  info_get k s
  = (inr (match dict_get k (info s) with Some v => v | None => None end), s).
Proof. reflexivity. Qed.

Section Shape.

Variable n : nat.
Variable ks : list string.

Lemma wf_with_scores (s : state) (k : string) (a b : list Z) :
  wf n ks s -> dict_get k (scores s) = Some a -> length b = n ->
  wf n ks (with_scores s (dict_set k b (scores s))).
Proof.
  intros W Ha Hb. destruct W as [W1 W2 W3 W4 W5 W6].
  constructor; simpl; auto.
  - apply keys_set_in; auto. rewrite <- W1. apply dict_get_in_keys. eauto.
  - intros k0 a0 H0. apply dict_get_set_cases in H0.
    destruct H0 as [[-> ->]|[_ H0]]; eauto.
Qed.

Lemma wf_with_dates (s : state) (k : string) (a b : list (list obj)) :
  wf n ks s -> dict_get k (dates_all s) = Some a -> length b = n ->
  wf n ks (with_dates s (dict_set k b (dates_all s))).
Proof.
  intros W Ha Hb. destruct W as [W1 W2 W3 W4 W5 W6].
  constructor; simpl; auto.
  - apply keys_set_in; auto. rewrite <- W2. apply dict_get_in_keys. eauto.
  - intros k0 a0 H0. apply dict_get_set_cases in H0.
    destruct H0 as [[-> ->]|[_ H0]]; eauto.
Qed.

Lemma keys_set_incl (V : Type) (k : string) (v : V) (d : dict V) :
  incl (keys (dict_set k v d)) (k :: keys d).
Proof.
  induction d as [|[k' v'] d IH]; simpl.
  - intros x Hx. exact Hx.
  - destruct (String.eqb k' k); simpl.
    + intros x Hx. now right.
    + intros x [Hx|Hx]; [right; now left|].
      destruct (IH x Hx) as [E|E]; [now left | right; now right].
Qed.

Lemma wf_with_info (s : state) (k : string) (v : option obj) :
  wf n ks s -> In k ks -> wf n ks (with_info s (dict_set k v (info s))).
Proof.
  intros W Hk. destruct W as [W1 W2 W3 W4 W5 W6].
  constructor; simpl; auto.
  - intros x Hx. apply keys_set_incl in Hx. destruct Hx as [<-|Hx]; auto.
  - now apply keys_set_nodup.
Qed.

Lemma ok_score_at (k : string) (i : nat) :
  In k ks -> i < n -> ok (wf n ks) (score_at k i) (fun _ => wf n ks).
Proof.
  intros Hk Hi s W. destruct (@wf_score_row n ks s k W Hk) as (a & Ha & Hl).
  destruct (@nth_error_some _ a i) as [x Hx]; [lia|].
  exists x, s. split; auto. eapply score_at_run; eauto.
Qed.

Lemma ok_dates_at (k : string) (i : nat) :
  In k ks -> i < n -> ok (wf n ks) (dates_at k i) (fun _ => wf n ks).
Proof.
  intros Hk Hi s W. destruct (@wf_dates_row n ks s k W Hk) as (a & Ha & Hl).
  destruct (@nth_error_some _ a i) as [x Hx]; [lia|].
  exists x, s. split; auto. eapply dates_at_run; eauto.
Qed.

Lemma ok_set_score_at (k : string) (i : nat) (v : Z) :
  In k ks -> i < n -> ok (wf n ks) (set_score_at k i v) (fun _ => wf n ks).
Proof.
  intros Hk Hi s W. destruct (@wf_score_row n ks s k W Hk) as (a & Ha & Hl).
  eexists tt, _. split.
  - apply set_score_at_run with (a := a); auto. lia.
  - eapply wf_with_scores; eauto. now rewrite length_list_set.
Qed.

Lemma ok_set_dates_at (k : string) (i : nat) (v : list obj) :
  In k ks -> i < n -> ok (wf n ks) (set_dates_at k i v) (fun _ => wf n ks).
Proof.
  intros Hk Hi s W. destruct (@wf_dates_row n ks s k W Hk) as (a & Ha & Hl).
  eexists tt, _. split.
  - apply set_dates_at_run with (a := a); auto. lia.
  - eapply wf_with_dates; eauto. now rewrite length_list_set.
Qed.

Lemma ok_set_info_at (k : string) (v : option obj) :
  In k ks -> ok (wf n ks) (set_info_at k v) (fun _ => wf n ks).
Proof.
  intros Hk s W. eexists tt, _. split; [apply set_info_at_run|].
  now apply wf_with_info.
Qed.

Lemma ok_info_get (k : string) :
  ok (wf n ks) (info_get k) (fun _ => wf n ks).
Proof. intros s W. eexists _, s. split; [apply info_get_run|auto]. Qed.

Lemma ok_skip : ok (wf n ks) (ret tt) (fun _ => wf n ks).
Proof. apply ok_ret. auto. Qed.

End Shape.

Create HintDb okdb.

#[local] Hint Resolve ok_score_at ok_dates_at ok_set_score_at ok_set_dates_at
  ok_set_info_at ok_info_get ok_skip : okdb.

Lemma suppress_lines_length (cur keep : list (list obj)) :
  length (suppress_lines cur keep) = length cur.
Proof.
  revert keep. induction cur as [|c cur IH]; intros [|k keep]; simpl; auto.
Qed.

Lemma claim_scan_ok (i : nat) (items : dict (list Z)) :
  (forall k a, In (k, a) items -> i < length a) ->
  forall kk sup,
  exists r, claim_scan items i kk sup = inr r
            /\ (forall k, fst r = Some k -> In k (keys items) \/ kk = Some k).
Proof.
  induction items as [|[key a] items IH]; intros Hlen kk sup; simpl.
  - eexists. split; [reflexivity|]. simpl. auto.
  - destruct (@nth_error_some _ a i) as [x Hx]; [apply (Hlen key); now left|].
    rewrite Hx.
    assert (Hlen' : forall k a0, In (k, a0) items -> i < length a0)
      by (intros; eapply Hlen; right; eauto).
    destruct (x <? 2)%Z.
    + destruct (IH Hlen' kk sup) as (r & E & Hr). exists r. split; auto.
      intros k Hk. destruct (Hr k Hk); auto.
    + destruct sup.
      * eexists. split; [reflexivity|]. simpl. auto.
      * destruct (IH Hlen' (Some key) true) as (r & E & Hr). exists r.
        split; auto. intros k Hk. destruct (Hr k Hk) as [H|H]; auto.
        inversion H; subst. auto.
Qed.

Lemma dict_in_get (V : Type) (k : string) (v : V) (d : dict V) :
  NoDup (keys d) -> In (k, v) d -> dict_get k d = Some v.
Proof.
  induction d as [|[k' v'] d IH]; simpl; [tauto|].
  intros Hnd [E|Hin].
  - inversion E; subst. now rewrite String.eqb_refl.
  - inversion Hnd as [|? ? Hni Hnd']; subst.
    destruct (String.eqb k' k) eqn:Ek.
    + apply String.eqb_eq in Ek. subst k'. exfalso. apply Hni.
      change k with (fst (k, v)). now apply in_map.
    + now apply IH.
Qed.

Section Steps.

Variable n : nat.
Variable ks : list string.
Hypothesis ks_nodup : NoDup ks.
Hypothesis ks_from : In "YukoStYmd"%string ks.
Hypothesis ks_until : In "YukoEdYmd"%string ks.
Hypothesis ks_issue : In "KofuYmd"%string ks.

Lemma ok_suppress_key (kk key : string) :
  In kk ks -> In key ks ->
  ok (wf n ks) (suppress_key kk key) (fun _ => wf n ks).
Proof.
  intros Hkk Hkey s W.
  destruct (@wf_dates_row n ks s key W Hkey) as (a & Ha & Hl).
  destruct (@wf_dates_row n ks s kk W Hkk) as (b & Hb & Hlb).
  unfold suppress_key, bind, get, item, lift. rewrite Ha. simpl.
  destruct (String.eqb key kk || is_nil a).
  - exists tt, s. auto.
  - rewrite Hb. simpl. eexists tt, _. split; [reflexivity|].
    apply (@wf_with_dates n ks s key a); auto.
    now rewrite suppress_lines_length.
Qed.

Lemma wf_rows_in (s : state) (i : nat) :
  wf n ks s -> i < n ->
  forall k a, In (k, a) (scores s) -> i < length a.
Proof.
  intros W Hi k a Hin.
  assert (E : dict_get k (scores s) = Some a).
  { apply dict_in_get; auto. now rewrite (wf_scores W). }
  rewrite (wf_scores_len W k E). exact Hi.
Qed.

Lemma ok_nms_line (i : nat) :
  i < n -> ok (wf n ks) (nms_line i) (fun _ => wf n ks).
Proof.
  intros Hi s W. unfold nms_line, bind, get.
  destruct (@claim_scan_ok i (scores s) (wf_rows_in W Hi) None false)
    as ([kk sup] & E & Hk).
  rewrite E.
  destruct kk as [key_keep|]; [|exists tt, s; auto].
  destruct sup; [|exists tt, s; auto].
  assert (Hin : In key_keep ks).
  { destruct (Hk key_keep eq_refl) as [H|H]; [|discriminate].
    now rewrite <- (wf_scores W). }
  apply (@ok_for_each _ (wf n ks)); auto.
  intros x Hx. apply ok_suppress_key; auto.
  now rewrite <- (wf_dates W).
Qed.

Lemma ok_nms : ok (wf n ks) (nms n) (fun _ => wf n ks).
Proof.
  apply ok_for_each. intros i Hi. apply ok_nms_line.
  apply in_seq in Hi. lia.
Qed.

Lemma enumerate_in (A : Type) (l : list A) (i : nat) (x : A) :
  In (i, x) (enumerate l) -> i < length l.
Proof.
  unfold enumerate. intros H. apply in_combine_l in H. apply in_seq in H. lia.
Qed.

Lemma ok_drop_from_line (p : nat * list obj) :
  fst p < n -> ok (wf n ks) (drop_from_line p) (fun _ => wf n ks).
Proof.
  destruct p as [idx dates]. simpl. intros Hi. unfold drop_from_line.
  eapply ok_bind; [apply ok_score_at; auto|]. intros st_sc.
  destruct (Z.eqb st_sc 0); [apply ok_skip|].
  eapply ok_bind; [apply ok_score_at; auto|]. intros kf_sc.
  destruct (Z.eqb kf_sc 0); [apply ok_skip|].
  destruct (length dates <? 3); [|apply ok_skip].
  eapply ok_bind; [apply ok_set_score_at; auto|]. intros u.
  apply ok_set_dates_at; auto.
Qed.

Lemma ok_over_until (body : nat * list obj -> M unit) :
  (forall p, fst p < n -> ok (wf n ks) (body p) (fun _ => wf n ks)) ->
  ok (wf n ks)
     (d <- get dates_all ;; ed <- item "YukoEdYmd" d ;;
      for_each (enumerate ed) body)
     (fun _ => wf n ks).
Proof.
  intros Hb s W.
  destruct (@wf_dates_row n ks s "YukoEdYmd"%string W ks_until) as (a & Ha & Hl).
  unfold bind at 1. unfold get. unfold bind at 1. unfold item, lift.
  rewrite Ha. simpl.
  apply (@ok_for_each _ (wf n ks)); auto.
  intros [i x] Hx. apply Hb. simpl. apply enumerate_in in Hx. lia.
Qed.

Lemma ok_suppress_from : ok (wf n ks) suppress_from (fun _ => wf n ks).
Proof. apply ok_over_until. apply ok_drop_from_line. Qed.

Lemma ok_assign_ordered (a b : string) (x y : obj) :
  In a ks -> In b ks ->
  ok (wf n ks) (assign_ordered a b x y) (fun _ => wf n ks).
Proof.
  intros Ha Hb. unfold assign_ordered.
  eapply ok_bind; [apply ok_set_info_at; auto|]. intros u.
  eapply ok_bind; [apply ok_set_info_at; auto|]. intros u'.
  destruct (text_gtb (obj_str x) (obj_str y)); [|apply ok_skip].
  eapply ok_bind; [apply ok_set_info_at; auto|]. intros u''.
  apply ok_set_info_at; auto.
Qed.

Lemma ok_two_dates_line (p : nat * list obj) :
  fst p < n -> ok (wf n ks) (two_dates_line p) (fun _ => wf n ks).
Proof.
  destruct p as [idx dates]. simpl. intros Hi. unfold two_dates_line.
  destruct dates as [|x [|y [|? ?]]]; try apply ok_skip.
  eapply ok_bind; [apply ok_score_at; auto|]. intros st_sc.
  destruct (0 <? st_sc)%Z; [|apply ok_skip].
  eapply ok_bind; [apply ok_score_at; auto|]. intros kf_sc.
  destruct (Z.eqb kf_sc 0); [|apply ok_skip].
  apply ok_assign_ordered; auto.
Qed.

Lemma ok_two_dates : ok (wf n ks) two_dates (fun _ => wf n ks).
Proof. apply ok_over_until. apply ok_two_dates_line. Qed.

End Steps.

(** ** What the assignment loop leaves alone *)

(** [keeps_scores m]: whatever [m] returns or raises, it leaves the score
    vectors as they were. *)
Definition keeps_scores (A : Type) (m : M A) : Prop :=
  forall s, scores (snd (m s)) = scores s.

Lemma ks_ret (A : Type) (a : A) : keeps_scores (ret a).
Proof. intros s. reflexivity. Qed.

Lemma ks_raise (A : Type) (e : exn) : keeps_scores (raise A e).
Proof. intros s. reflexivity. Qed.

Lemma ks_get (A : Type) (f : state -> A) : keeps_scores (get f).
Proof. intros s. reflexivity. Qed.

Lemma ks_lift (A : Type) (e : exn) (o : option A) : keeps_scores (lift e o).
Proof. intros s. destruct o; reflexivity. Qed.

Lemma ks_bind (A B : Type) (m : M A) (f : A -> M B) :
  keeps_scores m -> (forall a, keeps_scores (f a)) -> keeps_scores (bind m f).
Proof.
  intros Hm Hf s. unfold bind. specialize (Hm s).
  destruct (m s) as [[e|a] s1]; simpl in *; auto.
  now rewrite Hf.
Qed.

Lemma ks_for_each (A : Type) (xs : list A) (body : A -> M unit) :
  (forall x, keeps_scores (body x)) -> keeps_scores (for_each xs body).
Proof.
  intros H. induction xs as [|x xs IH]; simpl.
  - apply ks_ret.
  - apply ks_bind; auto.
Qed.

Lemma ks_set_info (v : dict (option obj)) : keeps_scores (set_info v).
Proof. intros s. reflexivity. Qed.

Lemma ks_set_dates_all (v : dict (list (list obj))) :
  keeps_scores (set_dates_all v).
Proof. intros s. reflexivity. Qed.

Ltac frame :=
  repeat first
         [ apply ks_ret | apply ks_raise | apply ks_get | apply ks_lift
         | apply ks_set_info | apply ks_set_dates_all
         | apply ks_for_each; intros
         | apply ks_bind; [|intros]
         | match goal with
           | |- keeps_scores (if ?c then _ else _) => destruct c
           | |- keeps_scores (match ?x with _ => _ end) => destruct x
           end ].

Lemma ks_dates_at (k : string) (i : nat) : keeps_scores (dates_at k i).
Proof. unfold dates_at, item, at_. frame. Qed.

Lemma ks_set_dates_at (k : string) (i : nat) (v : list obj) :
  keeps_scores (set_dates_at k i v).
Proof. unfold set_dates_at, item, at_. frame. Qed.

Lemma ks_set_info_at (k : string) (v : option obj) :
  keeps_scores (set_info_at k v).
Proof. unfold set_info_at. frame. Qed.

Lemma ks_info_get (k : string) : keeps_scores (info_get k).
Proof. unfold info_get. frame. Qed.

Lemma ks_pop_used (i : nat) (used : obj) (k : string) :
  keeps_scores (pop_used i used k).
Proof.
  unfold pop_used. apply ks_bind; [apply ks_dates_at|]. intros ds.
  destruct (is_nil ds); [apply ks_ret | apply ks_set_dates_at].
Qed.

Lemma ks_assign_key (th : Z) (key : string) : keeps_scores (assign_key th key).
Proof.
  unfold assign_key. apply ks_bind; [apply ks_info_get|]. intros cur.
  destruct cur; [apply ks_ret|].
  apply ks_bind; [apply ks_get|]. intros s.
  apply ks_bind; [unfold item; apply ks_lift|]. intros a.
  apply ks_bind; [apply ks_lift|]. intros val_max.
  apply ks_bind; [apply ks_lift|]. intros idx_max.
  destruct ((th <=? val_max)%Z && Nat.eqb (count_eq val_max a) 1);
    [|apply ks_ret].
  apply ks_bind; [apply ks_dates_at|]. intros ds.
  destruct ds as [|dt [|? ?]]; try apply ks_ret.
  apply ks_bind; [apply ks_set_info_at|]. intros u.
  apply ks_bind; [apply ks_get|]. intros s'.
  apply ks_for_each. intros k. apply ks_pop_used.
Qed.

Lemma ks_assign_pass (th : Z) : keeps_scores (assign_pass th).
Proof.
  unfold assign_pass. apply ks_bind; [apply ks_get|]. intros s.
  apply ks_for_each. intros k. apply ks_assign_key.
Qed.

Lemma list_Z_eqb_refl (a : list Z) : list_Z_eqb a a = true.
Proof.
  unfold list_Z_eqb. rewrite Nat.eqb_refl. simpl.
  induction a as [|x a IH]; simpl; auto. now rewrite Z.eqb_refl.
Qed.

Lemma scores_settled_refl (s : dict (list Z)) :
  NoDup (keys s) -> scores_settled s s = true.
Proof.
  intros Hnd. unfold scores_settled. apply forallb_forall.
  intros [k v] Hin. simpl. rewrite (dict_in_get k v s Hnd Hin).
  apply list_Z_eqb_refl.
Qed.

(** The [while] loop of a threshold runs its body once: the body never
    changes the scores its guard compares. *)
Lemma assign_while_once (fuel : nat) (th : Z) (s : state) :
  NoDup (keys (scores s)) ->
  scores_settled [] (scores s) = false ->
  assign_while (S (S fuel)) th [] s = assign_pass th s.
Proof.
  intros Hnd Hfirst.
  change (assign_while (S (S fuel)) th [] s)
    with (bind (get scores)
               (fun sc => if scores_settled [] sc then ret tt
                          else bind (assign_pass th)
                                    (fun _ => assign_while (S fuel) th sc)) s).
  unfold bind at 1. unfold get. rewrite Hfirst.
  unfold bind. pose proof (ks_assign_pass th s) as Hk.
  destruct (assign_pass th s) as [[e|[]] s1]; [reflexivity|].
  simpl in Hk. simpl. unfold bind, get. rewrite Hk.
  now rewrite scores_settled_refl.
Qed.

Lemma np_max_some (a : list Z) : a <> [] -> exists m, np_max a = Some m.
Proof.
  destruct a as [|x a]; [congruence|]. intros _. simpl.
  destruct (np_max a); eauto.
Qed.

Lemma np_max_in (a : list Z) (m : Z) : np_max a = Some m -> In m a.
Proof.
  revert m. induction a as [|x a IH]; simpl; [discriminate|].
  intros m. destruct (np_max a) as [m'|] eqn:E.
  - intros H. inversion H; subst.
    destruct (Z.max_spec x m') as [[_ ->]|[_ ->]]; auto.
  - intros H. inversion H. auto.
Qed.

Lemma first_index_lt (v : Z) (a : list Z) : In v a -> first_index v a < length a.
Proof.
  induction a as [|x a IH]; simpl; [tauto|].
  intros H. destruct (Z.eqb x v) eqn:E; [lia|].
  apply Z.eqb_neq in E. destruct H as [H|H]; [congruence|].
  specialize (IH H). lia.
Qed.

Lemma np_argmax_some (a : list Z) :
  a <> [] -> exists i, np_argmax a = Some i /\ i < length a.
Proof.
  intros H. unfold np_argmax. destruct (np_max_some H) as [m Hm].
  rewrite Hm. eexists. split; [reflexivity|].
  apply first_index_lt. now apply np_max_in.
Qed.

Lemma nonempty_length (A : Type) (a : list A) (n : nat) :
  length a = n -> 0 < n -> a <> [].
Proof. intros H Hn ->. simpl in H. lia. Qed.

Section Assignment.

Variable n : nat.
Variable ks : list string.
Hypothesis n_pos : 0 < n.
Hypothesis ks_nodup : NoDup ks.
Hypothesis ks_from : In "YukoStYmd"%string ks.
Hypothesis ks_until : In "YukoEdYmd"%string ks.
Hypothesis ks_issue : In "KofuYmd"%string ks.

Lemma ok_pop_used (i : nat) (used : obj) (k : string) :
  In k ks -> i < n -> ok (wf n ks) (pop_used i used k) (fun _ => wf n ks).
Proof.
  intros Hk Hi. unfold pop_used.
  eapply ok_bind; [apply ok_dates_at; auto|]. intros ds.
  destruct (is_nil ds); [apply ok_skip | apply ok_set_dates_at; auto].
Qed.

Lemma other_keys_incl (l : list string) (key : string) :
  incl (other_keys l key) l.
Proof. unfold other_keys. intros x Hx. apply filter_In in Hx. tauto. Qed.

Lemma ok_assign_found (key : string) (im : nat) :
  In key ks -> im < n ->
  ok (wf n ks)
     (ds <- dates_at key im ;;
      match ds with
      | [dt] =>
        set_info_at key (Some dt) ;;
        s0 <- get scores ;;
        for_each (other_keys (keys s0) key) (pop_used im dt)
      | _ => ret tt
      end)
     (fun _ => wf n ks).
Proof.
  intros Hkey Him.
  eapply ok_bind; [apply ok_dates_at; auto|]. intros ds.
  destruct ds as [|dt [|? ?]]; try apply ok_skip.
  eapply ok_bind; [apply ok_set_info_at; auto|]. intros u.
  intros s W. unfold bind, get.
  apply (@ok_for_each _ (wf n ks)); auto.
  intros k Hk. apply ok_pop_used; [|lia].
  apply other_keys_incl in Hk. now rewrite <- (wf_scores W).
Qed.

Lemma ok_assign_key (th : Z) (key : string) :
  In key ks -> ok (wf n ks) (assign_key th key) (fun _ => wf n ks).
Proof.
  intros Hkey s W. unfold assign_key. unfold bind at 1. rewrite info_get_run.
  destruct (match dict_get key (info s) with Some v => v | None => None end);
    [exists tt, s; auto|].
  destruct (@wf_score_row n ks s key W Hkey) as (a & Ha & Hl).
  destruct (@np_max_some a) as [vm Hvm]; [eapply nonempty_length; eauto|].
  destruct (@np_argmax_some a) as (im & Him & Hlt);
    [eapply nonempty_length; eauto|].
  unfold bind at 1. unfold get. unfold bind at 1. unfold item, lift.
  rewrite Ha. unfold ret. unfold bind at 1. rewrite Hvm.
  unfold ret. unfold bind at 1. rewrite Him. unfold ret.
  destruct ((th <=? vm)%Z && Nat.eqb (count_eq vm a) 1); [|exists tt, s; auto].
  apply (@ok_assign_found key im Hkey); [lia | exact W].
Qed.

Lemma ok_assign_pass (th : Z) :
  ok (wf n ks) (assign_pass th) (fun _ => wf n ks).
Proof.
  intros s W. unfold assign_pass, bind, get.
  apply (@ok_for_each _ (wf n ks)); auto.
  intros k Hk. apply ok_assign_key. now rewrite <- (wf_scores W).
Qed.

Lemma wf_first_unsettled (s : state) :
  wf n ks s -> scores_settled [] (scores s) = false.
Proof.
  intros W. destruct (@wf_score_row n ks s _ W ks_from) as (a & Ha & Hl).
  destruct (scores s) as [|[k v] d] eqn:E; [discriminate|].
  simpl. assert (Hv : length v = n).
  { apply (wf_scores_len W k). rewrite E. simpl. now rewrite String.eqb_refl. }
  destruct v; [simpl in Hv; lia|]. reflexivity.
Qed.

Lemma ok_assign_while (fuel : nat) (th : Z) :
  ok (wf n ks) (assign_while (S (S fuel)) th []) (fun _ => wf n ks).
Proof.
  intros s W. rewrite assign_while_once.
  - now apply ok_assign_pass.
  - now rewrite (wf_scores W).
  - now apply wf_first_unsettled.
Qed.

Lemma np_max_all_some (s : state) :
  wf n ks s -> exists m, np_max_all (scores s) = Some m.
Proof.
  intros W. destruct (@wf_score_row n ks s _ W ks_from) as (a & Ha & Hl).
  unfold np_max_all. apply np_max_some.
  destruct (scores s) as [|[k v] d] eqn:E; [discriminate|].
  simpl. assert (Hv : length v = n).
  { apply (wf_scores_len W k). rewrite E. simpl. now rewrite String.eqb_refl. }
  destruct v; [simpl in Hv; lia|]. discriminate.
Qed.

Lemma ok_assign_all (fuel : nat) :
  ok (wf n ks) (assign_all (S (S fuel))) (fun _ => wf n ks).
Proof.
  intros s W. unfold assign_all. unfold bind at 1. unfold get.
  destruct (np_max_all_some W) as [m Hm].
  unfold bind at 1. rewrite Hm. unfold lift, ret.
  apply (@ok_for_each _ (wf n ks)); auto.
  intros th Hth. apply ok_assign_while.
Qed.

End Assignment.

(** ** The order of the fallback *)

Lemma insert_desc_perm (x : nat * Z) (l : list (nat * Z)) :
  Permutation (insert_desc x l) (x :: l).
Proof.
  induction l as [|y l IH]; simpl; auto.
  destruct (snd y <=? snd x)%Z; auto.
  rewrite IH. apply perm_swap.
Qed.

Lemma sort_desc_perm (l : list (nat * Z)) :
  Permutation (fold_right insert_desc [] l) l.
Proof.
  induction l as [|x l IH]; simpl; auto.
  rewrite insert_desc_perm. now constructor.
Qed.

Lemma map_fst_combine (A B : Type) (l1 : list A) (l2 : list B) :
  length l1 = length l2 -> map fst (combine l1 l2) = l1.
Proof.
  revert l2. induction l1 as [|x l1 IH]; intros [|y l2] H; simpl in *;
    try discriminate; auto.
  f_equal. apply IH. lia.
Qed.

Lemma argsort_neg_perm (a : list Z) :
  Permutation (argsort_neg a) (seq 0 (length a)).
Proof.
  unfold argsort_neg. rewrite sort_desc_perm. unfold enumerate.
  rewrite map_fst_combine; auto. now rewrite length_seq.
Qed.

Lemma argsort_neg_lt (a : list Z) :
  Forall (fun i => i < length a) (argsort_neg a).
Proof.
  apply Forall_forall. intros i Hi.
  apply (Permutation_in _ (argsort_neg_perm a)) in Hi.
  apply in_seq in Hi. lia.
Qed.

Lemma insert_by_str_perm (x : obj) (l : list obj) :
  Permutation (insert_by_str x l) (x :: l).
Proof.
  induction l as [|y l IH]; simpl; auto.
  destruct (text_leb (obj_str x) (obj_str y)); auto.
  rewrite IH. apply perm_swap.
Qed.

Lemma sorted_by_str_perm (l : list obj) : Permutation (sorted_by_str l) l.
Proof.
  induction l as [|x l IH]; simpl; auto.
  rewrite insert_by_str_perm. now constructor.
Qed.

Lemma sorted_by_str_cons (x : obj) (l : list obj) :
  exists y l', sorted_by_str (x :: l) = y :: l'.
Proof.
  destruct (sorted_by_str (x :: l)) as [|y l'] eqn:E; eauto.
  pose proof (sorted_by_str_perm (x :: l)) as H. rewrite E in H.
  apply Permutation_nil in H. discriminate.
Qed.

Section Resolution.

Variable n : nat.
Variable ks : list string.
Hypothesis n_pos : 0 < n.
Hypothesis ks_from : In "YukoStYmd"%string ks.
Hypothesis ks_until : In "YukoEdYmd"%string ks.
Hypothesis ks_issue : In "KofuYmd"%string ks.

Lemma ok_same_line_from_until :
  ok (wf n ks) same_line_from_until (fun _ => wf n ks).
Proof.
  intros s W. unfold same_line_from_until. unfold bind at 1. unfold get.
  destruct (negb (dict_mem "YukoStYmd" (info s))
            && negb (dict_mem "YukoEdYmd" (info s))); [|exists tt, s; auto].
  destruct (@wf_score_row n ks s _ W ks_from) as (a & Ha & Hl).
  destruct (@wf_score_row n ks s _ W ks_until) as (b & Hb & Hlb).
  destruct (@np_argmax_some a) as (i & Hi & Hilt);
    [eapply nonempty_length; eauto|].
  destruct (@np_argmax_some b) as (j & Hj & Hjlt);
    [eapply nonempty_length; eauto|].
  destruct (@wf_dates_row n ks s _ W ks_from) as (da & Hda & Hlda).
  destruct (@wf_dates_row n ks s _ W ks_until) as (db & Hdb & Hldb).
  destruct (@nth_error_some _ da i) as [x Hx]; [lia|].
  destruct (@nth_error_some _ db j) as [y Hy]; [lia|].
  unfold bind at 1. unfold bind at 1. unfold item, lift. rewrite Ha.
  unfold ret. unfold bind at 1. rewrite Hi.
  unfold bind at 1. rewrite Hb. unfold ret. unfold bind at 1. rewrite Hj.
  unfold ret. unfold bind at 1. rewrite (@dates_at_run s _ _ _ _ Hda Hx).
  unfold bind at 1. rewrite (@dates_at_run s _ _ _ _ Hdb Hy).
  destruct (text_eqb (list_str x) (list_str y)); [|exists tt, s; auto].
  destruct x as [|x1 [|x2 [|? ?]]]; try (exists tt, s; auto; fail).
  revert s W Ha Hb Hda Hdb. intros s W _ _ _ _.
  apply (@ok_bind _ _ (wf n ks) _ _ (fun _ => wf n ks)); auto.
  - apply ok_set_info_at; auto.
  - intros u. apply ok_set_info_at; auto.
Qed.

Lemma ok_until_issue_line (idx : nat) :
  idx < n -> ok (wf n ks) (until_issue_line idx) (fun _ => wf n ks).
Proof.
  intros Hi. unfold until_issue_line.
  eapply ok_bind; [apply ok_score_at; auto|]. intros kf_sc.
  destruct (0 <? kf_sc)%Z; [|apply ok_skip].
  eapply ok_bind; [apply ok_dates_at; auto|]. intros ed.
  destruct (Nat.eqb (length ed) 2); [|apply ok_skip].
  eapply ok_bind; [apply ok_dates_at; auto|]. intros kf.
  destruct kf as [|x [|y [|? ?]]]; try apply ok_skip.
  apply ok_assign_ordered; auto.
Qed.

Lemma ok_same_line_until_issue :
  ok (wf n ks) same_line_until_issue (fun _ => wf n ks).
Proof.
  intros s W. unfold same_line_until_issue.
  unfold bind at 1. rewrite info_get_run.
  unfold bind at 1. rewrite info_get_run.
  destruct (match dict_get "YukoEdYmd" (info s) with
            | Some v => v | None => None end); [exists tt, s; auto|].
  destruct (match dict_get "KofuYmd" (info s) with
            | Some v => v | None => None end); [exists tt, s; auto|].
  destruct (@wf_score_row n ks s _ W ks_until) as (a & Ha & Hl).
  unfold bind at 1. unfold get. unfold bind at 1. unfold item, lift.
  rewrite Ha. unfold ret.
  apply (@ok_for_each _ (wf n ks)); auto.
  intros i Hi. apply ok_until_issue_line. apply in_seq in Hi. lia.
Qed.

Lemma ok_fallback_scan (key : string) (order : list nat) :
  In key ks -> Forall (fun i => i < n) order ->
  ok (wf n ks) (fallback_scan key order) (fun _ => wf n ks).
Proof.
  intros Hk Hall. induction order as [|idx order IH]; simpl.
  - apply ok_skip.
  - inversion Hall as [|? ? Hidx Hrest]; subst.
    intros s W.
    destruct (@wf_dates_row n ks s key W Hk) as (rows & Hrows & Hlen).
    destruct (@nth_error_some _ rows idx) as [ds Hds]; [lia|].
    unfold bind at 1. rewrite (@dates_at_run s _ _ _ _ Hrows Hds).
    destruct ds as [|x ds']; cbn [is_nil].
    + now apply IH.
    + destruct (String.eqb key "Birthday"); cbv iota.
      * unfold bind at 1.
        rewrite (@set_dates_at_run s key idx _ rows Hrows) by lia.
        set (s1 := with_dates s _).
        assert (W1 : wf n ks s1).
        { apply (@wf_with_dates n ks s key rows); auto.
          now rewrite length_list_set. }
        assert (R1 : dict_get key (dates_all s1)
                     = Some (list_set idx (sorted_by_str (x :: ds')) rows))
          by apply dict_get_set_same.
        destruct (sorted_by_str_cons x ds') as (y & l' & Ey).
        unfold bind at 1.
        rewrite (@dates_at_run s1 key idx _ (y :: l') R1)
          by (rewrite <- Ey; apply nth_error_list_set_same; lia).
        apply (@ok_bind _ _ (wf n ks) _ _ (fun _ => wf n ks)); auto.
        -- apply ok_set_dates_at; auto.
        -- intros u. apply ok_set_info_at; auto.
      * unfold bind at 1. unfold ret. unfold bind at 1.
        rewrite (@dates_at_run s _ _ _ _ Hrows Hds).
        apply (@ok_bind _ _ (wf n ks) _ _ (fun _ => wf n ks)); auto.
        -- apply ok_set_dates_at; auto.
        -- intros u. apply ok_set_info_at; auto.
Qed.

Lemma ok_fallback_key (key : string) :
  In key ks -> ok (wf n ks) (fallback_key key) (fun _ => wf n ks).
Proof.
  intros Hk s W. unfold fallback_key. unfold bind at 1. rewrite info_get_run.
  destruct (match dict_get key (info s) with Some v => v | None => None end);
    [exists tt, s; auto|].
  destruct (@wf_score_row n ks s key W Hk) as (a & Ha & Hl).
  unfold bind at 1. unfold get. unfold bind at 1. unfold item, lift.
  rewrite Ha. unfold ret.
  apply ok_fallback_scan; auto. rewrite <- Hl. apply argsort_neg_lt.
Qed.

Lemma ok_fallback : ok (wf n ks) fallback (fun _ => wf n ks).
Proof.
  intros s W. unfold fallback, bind, get.
  apply (@ok_for_each _ (wf n ks)); auto.
  intros k Hk. apply ok_fallback_key. now rewrite <- (wf_scores W).
Qed.

End Resolution.

(** ** The state a call starts from *)

(** What [_score] writes for each tag. *)
Definition scored_scores (p : Page) (l : dict matcher) : dict (list Z) :=
  map (fun tm => (fst tm, fst (role_result (fst tm) (snd tm) p))) l.

Definition scored_texts (p : Page) (l : dict matcher) : dict (list text) :=
  map (fun tm => (fst tm, snd (role_result (fst tm) (snd tm) p))) l.

Lemma fold_set_fresh (V W : Type) (g : string * W -> V) (l : dict W) :
  forall pre : dict V,
    NoDup (keys pre ++ keys l) ->
    fold_left (fun d tm => dict_set (fst tm) (g tm) d) l pre
    = pre ++ map (fun tm => (fst tm, g tm)) l.
Proof.
  induction l as [|[k w] l IH]; intros pre Hnd; simpl.
  - now rewrite List.app_nil_r.
  - assert (Hk : ~ In k (keys pre)).
    { intros Hin. apply NoDup_remove_2 in Hnd. apply Hnd.
      apply in_or_app. now left. }
    assert (E : dict_set k (g (k, w)) pre = pre ++ [(k, g (k, w))]).
    { clear - Hk. induction pre as [|[k' v'] pre IHp]; simpl; auto.
      simpl in Hk. destruct (String.eqb k' k) eqn:Ek.
      - apply String.eqb_eq in Ek. tauto.
      - f_equal. apply IHp. tauto. }
    rewrite E, IH.
    + now rewrite <- app_assoc.
    + unfold keys in *. rewrite map_app. simpl in *.
      now rewrite <- app_assoc.
Qed.

Lemma fold_set_cons (V W : Type) (g : string * W -> V) (l : dict W)
      (k : string) (v : V) (d : dict V) :
  ~ In k (keys l) ->
  fold_left (fun d tm => dict_set (fst tm) (g tm) d) l ((k, v) :: d)
  = (k, v) :: fold_left (fun d tm => dict_set (fst tm) (g tm) d) l d.
Proof.
  revert d. induction l as [|[k' w] l IH]; intros d Hk; simpl; auto.
  simpl in Hk. destruct (String.eqb k k') eqn:E.
  - apply String.eqb_eq in E. subst. tauto.
  - apply IH. tauto.
Qed.

Lemma fold_set_same_keys (V W : Type) (g : string * W -> V) (l : dict W) :
  forall d : dict V,
    NoDup (keys l) -> keys d = keys l ->
    fold_left (fun d tm => dict_set (fst tm) (g tm) d) l d
    = map (fun tm => (fst tm, g tm)) l.
Proof.
  induction l as [|[k w] l IH]; intros d Hnd Hk; simpl.
  - destruct d; [reflexivity|discriminate].
  - destruct d as [|[k' v'] d]; [discriminate|].
    simpl in Hk. inversion Hk; subst. inversion Hnd; subst.
    simpl. rewrite String.eqb_refl. rewrite fold_set_cons by assumption.
    f_equal. now apply IH.
Qed.

(** A finder is settled when its [scores] dictionary is empty, as after
    [__init__], or has the tags of [match_methods], as after a call. *)
Definition settled (f : DatesFinder) (s : state) : Prop :=
  keys (scores s) = [] \/ keys (scores s) = keys (match_methods f).

Lemma scored_fields (p : Page) (l : dict matcher) (s : state) :
  scores (scored p l s)
  = fold_left (fun d tm => dict_set (fst tm)
                             (fst (role_result (fst tm) (snd tm) p)) d)
              l (scores s)
  /\ texts (scored p l s)
     = fold_left (fun d tm => dict_set (fst tm)
                                (snd (role_result (fst tm) (snd tm) p)) d)
                 l (texts s)
  /\ info (scored p l s) = info s
  /\ dates_all (scored p l s) = dates_all s
  /\ heap (scored p l s) = heap s.
Proof.
  revert s. induction l as [|tm l IH]; intros s; simpl; auto.
  destruct (IH (mkState
                  (dict_set (fst tm) (fst (role_result (fst tm) (snd tm) p))
                            (scores s))
                  (dict_set (fst tm) (snd (role_result (fst tm) (snd tm) p))
                            (texts s))
                  (info s) (dates_all s) (heap s)))
    as (H1 & H2 & H3 & H4 & H5).
  simpl in *. auto.
Qed.

Lemma scored_settled (f : DatesFinder) (p : Page) (s : state) :
  NoDup (keys (match_methods f)) -> settled f s ->
  scores (scored p (match_methods f) s) = scored_scores p (match_methods f).
Proof.
  intros Hnd Hs. destruct (scored_fields p (match_methods f) s) as (H & _).
  rewrite H. unfold scored_scores. destruct Hs as [Hs|Hs].
  - destruct (scores s); [|discriminate].
    now rewrite fold_set_fresh.
  - now apply fold_set_same_keys.
Qed.

Lemma scored_texts_fresh (f : DatesFinder) (p : Page) (s : state) :
  NoDup (keys (match_methods f)) -> texts s = [] ->
  texts (scored p (match_methods f) s) = scored_texts p (match_methods f).
Proof.
  intros Hnd Hs. destruct (scored_fields p (match_methods f) s) as (_ & H & _).
  rewrite H, Hs. unfold scored_texts. now rewrite fold_set_fresh.
Qed.

Lemma role_result_lengths (tag : string) (m : matcher) (p : Page) :
  length (fst (role_result tag m p)) = length p
  /\ length (snd (role_result tag m p)) = length p.
Proof.
  assert (T : forall b, length (snd (score m p b)) = length p).
  { intros b. unfold score. cbv zeta. destruct b; simpl;
      now rewrite !length_map. }
  assert (S : forall b, length (fst (score m p b)) = length p).
  { intros [|]; [rewrite score_no_ext; apply hits_length
                | apply score_ext_length]. }
  unfold role_result. cbv zeta.
  destruct (String.eqb tag "YukoEdYmd" && _); auto.
Qed.

Lemma extract_lines_length (ef : text -> list Date) (sl : list (Z * text)) :
  forall h, length (fst (extract_lines ef sl h)) = length sl.
Proof.
  induction sl as [|[sc line] sl IH]; intros h; simpl; auto.
  destruct (if (0 <? sc)%Z then alloc (ef line) h else ([], h)) as [os h1].
  specialize (IH h1). destruct (extract_lines ef sl h1) as [rest h2].
  simpl in *. now rewrite IH.
Qed.

Lemma combine_map (A B C : Type) (f : A -> B) (g : A -> C) (l : list A) :
  combine (map f l) (map g l) = map (fun x => (f x, g x)) l.
Proof. induction l; simpl; auto. now rewrite IHl. Qed.

Lemma extract_tags_shape (ef : text -> list Date) (p : Page) (l : dict matcher) :
  forall s,
    NoDup (keys (dates_all s) ++ keys l) ->
    (forall k a, dict_get k (dates_all s) = Some a -> length a = length p) ->
    exists s',
      for_each
        (map (fun tm => ((fst tm, snd (role_result (fst tm) (snd tm) p)),
                         (fst tm, fst (role_result (fst tm) (snd tm) p)))) l)
        (extract_tag ef) s = (inr tt, s')
      /\ scores s' = scores s /\ info s' = info s
      /\ keys (dates_all s') = keys (dates_all s) ++ keys l
      /\ (forall k a, dict_get k (dates_all s') = Some a -> length a = length p).
Proof.
  induction l as [|[tag m] l IH]; intros s Hnd Hlen; simpl.
  - exists s. rewrite List.app_nil_r. auto.
  - unfold bind at 1. unfold extract_tag at 1.
    unfold bind at 1. unfold get at 1.
    destruct (extract_lines ef
                (combine (fst (role_result tag m p))
                         (snd (role_result tag m p))) (heap s))
      as [ds h'] eqn:E.
    unfold bind, set_heap, set_dates_all, modify, get. simpl.
    assert (Hds : length ds = length p).
    { pose proof (extract_lines_length ef
                    (combine (fst (role_result tag m p))
                             (snd (role_result tag m p))) (heap s)) as H.
      rewrite E in H. simpl in H. rewrite H, length_combine.
      destruct (role_result_lengths tag m p) as [H1 H2]. lia. }
    assert (Hk : ~ In tag (keys (dates_all s))).
    { intros Hin. apply NoDup_remove_2 in Hnd. apply Hnd.
      apply in_or_app. now left. }
    destruct (IH (mkState (scores s) (texts s) (info s)
                          (dict_set tag ds (dates_all s)) h'))
      as (s' & Hrun & Hsc & Hinfo & Hkeys & Hrows).
    + simpl. rewrite keys_set_absent by assumption.
      rewrite <- app_assoc. exact Hnd.
    + simpl. intros k a Ha. apply dict_get_set_cases in Ha.
      destruct Ha as [[-> ->]|[_ Ha]]; eauto.
    + exists s'. split; [exact Hrun|]. simpl in *. repeat split; auto.
      rewrite Hkeys, keys_set_absent by assumption.
      now rewrite <- app_assoc.
Qed.

Lemma keys_scored_scores (p : Page) (l : dict matcher) :
  keys (scored_scores p l) = keys l.
Proof. unfold scored_scores, keys. rewrite map_map. reflexivity. Qed.

Lemma scored_scores_len (p : Page) (l : dict matcher) (k : string) (a : list Z) :
  dict_get k (scored_scores p l) = Some a -> length a = length p.
Proof.
  induction l as [|[tag m] l IH]; simpl; [discriminate|].
  destruct (String.eqb tag k); auto.
  intros H. inversion H. apply role_result_lengths.
Qed.

(** The state in which the resolution steps start: after the resets,
    [_score] and the extraction of the candidates. *)
Lemma prepared (f : DatesFinder) (p : Page) (s0 : state) :
  NoDup (keys (match_methods f)) -> settled f s0 ->
  exists s,
    prepare f p s0 = (inr tt, s)
    /\ wf (length p) (keys (match_methods f)) s.
Proof.
  intros Hnd Hs. unfold prepare.
  unfold bind at 1. unfold set_texts at 1, modify at 1.
  unfold bind at 1. unfold set_info at 1, modify at 1.
  unfold bind at 1. rewrite _score_run.
  set (s1 := mkState (scores s0) [] [] (dates_all s0) (heap s0)).
  assert (Hs1 : settled f s1) by exact Hs.
  pose proof (scored_settled p Hnd Hs1) as Hsc.
  pose proof (@scored_texts_fresh f p s1 Hnd eq_refl) as Htx.
  destruct (scored_fields p (match_methods f) s1) as (_ & _ & Hi & _ & _).
  unfold extract_all. unfold bind at 1. unfold set_dates_all at 1, modify at 1.
  unfold bind at 1. unfold set_heap at 1, modify at 1.
  unfold bind at 1. unfold get at 1. unfold bind at 1. unfold get at 1.
  cbn [texts scores info dates_all heap]. fold s1.
  rewrite Hsc, Htx, Hi. unfold scored_texts, scored_scores.
  rewrite combine_map.
  destruct (@extract_tags_shape (extract_method f) p (match_methods f)
              (mkState (scored_scores p (match_methods f))
                       (scored_texts p (match_methods f)) (info s1) [] 0))
    as (s & Hrun & Hscs & Hinfo & Hkeys & Hrows).
  - simpl. exact Hnd.
  - simpl. discriminate.
  - exists s. split; [exact Hrun|].
    simpl in *. constructor.
    + rewrite Hscs. apply keys_scored_scores.
    + exact Hkeys.
    + rewrite Hscs. intros k a. apply scored_scores_len.
    + exact Hrows.
    + rewrite Hinfo. simpl. intros x [].
    + rewrite Hinfo. simpl. constructor.
Qed.

Lemma ok_fill_missing (f : DatesFinder) (n : nat) :
  ok (wf n (keys (match_methods f))) (fill_missing f)
     (fun _ s => wf n (keys (match_methods f)) s
                 /\ incl (keys (match_methods f)) (keys (info s))).
Proof.
  unfold fill_missing.
  set (ks := keys (match_methods f)).
  assert (G : forall l done,
             incl (done ++ l) ks ->
             ok (fun s => wf n ks s /\ incl done (keys (info s)))
                (for_each l
                   (fun tag => i <- get info ;;
                               if dict_mem tag i then ret tt
                               else set_info_at tag None))
                (fun _ s => wf n ks s /\ incl (done ++ l) (keys (info s)))).
  { induction l as [|tag l IH]; intros done Hincl; simpl.
    - apply ok_ret. intros s. now rewrite List.app_nil_r.
    - eapply ok_bind with
          (R := fun _ s => wf n ks s /\ incl (done ++ [tag]) (keys (info s))).
      + intros s [W Hd]. unfold bind, get.
        destruct (dict_mem tag (info s)) eqn:E.
        * exists tt, s. split; auto. split; auto.
          intros x Hx. apply in_app_or in Hx. destruct Hx as [Hx|[<-|[]]]; auto.
          apply dict_get_in_keys. unfold dict_mem in E.
          destruct (dict_get tag (info s)); [eauto|discriminate].
        * rewrite set_info_at_run. eexists tt, _. split; [reflexivity|].
          split.
          -- apply wf_with_info; auto. apply Hincl. apply in_or_app.
             right. now left.
          -- simpl. intros x Hx. apply in_app_or in Hx.
             destruct Hx as [Hx|[<-|[]]].
             ++ apply Hd in Hx. apply dict_get_in_keys in Hx.
                destruct Hx as [v Hv]. apply dict_get_in_keys.
                destruct (string_dec x tag) as [->|Hne].
                ** rewrite dict_get_set_same. eauto.
                ** rewrite dict_get_set_other by assumption. eauto.
             ++ apply dict_get_in_keys. rewrite dict_get_set_same. eauto.
      + intros u. specialize (IH (done ++ [tag])).
        rewrite <- app_assoc in IH. simpl in IH. now apply IH. }
  eapply ok_conseq; [apply (G ks []); simpl; apply incl_refl| |].
  - intros s W. split; auto. intros x [].
  - simpl. auto.
Qed.

(** The tags of the four date roles. *)
Definition date_roles : list string :=
  ["Birthday"; "YukoStYmd"; "YukoEdYmd"; "KofuYmd"]%string.

Lemma ok_resolve (fuel : nat) (f : DatesFinder) (p : Page) :
  p <> [] ->
  NoDup (keys (match_methods f)) ->
  incl date_roles (keys (match_methods f)) ->
  ok (wf (length p) (keys (match_methods f)))
     (resolve (S (S fuel)) f p)
     (fun r s => r = info s
                 /\ wf (length p) (keys (match_methods f)) s
                 /\ incl (keys (match_methods f)) (keys r)).
Proof.
  intros Hp Hnd Hroles.
  assert (Hn : 0 < length p) by (destruct p; [congruence|simpl; lia]).
  assert (H1 : In "YukoStYmd"%string (keys (match_methods f)))
    by (apply Hroles; simpl; tauto).
  assert (H2 : In "YukoEdYmd"%string (keys (match_methods f)))
    by (apply Hroles; simpl; tauto).
  assert (H3 : In "KofuYmd"%string (keys (match_methods f)))
    by (apply Hroles; simpl; tauto).
  unfold resolve.
  eapply ok_bind; [apply ok_nms; auto|]. intros u1.
  eapply ok_bind; [apply ok_suppress_from; auto|]. intros u2.
  eapply ok_bind; [apply ok_two_dates; auto|]. intros u3.
  eapply ok_bind; [apply ok_assign_all; auto|]. intros u4.
  eapply ok_bind; [apply ok_same_line_from_until; auto|]. intros u5.
  eapply ok_bind; [apply ok_same_line_until_issue; auto|]. intros u6.
  eapply ok_bind; [apply ok_fallback; auto|]. intros u7.
  eapply ok_bind; [apply ok_fill_missing|]. intros u8.
  apply ok_get. intros s [W Hi]. auto.
Qed.

(** C7: on every non-empty page, a finder configured with the four date
    roles returns a field map and raises nothing; the map has exactly the
    four keys, each once, so a role that was not resolved is present with
    the value null.  The finder may be fresh or may have served earlier
    calls. *)
Theorem extract_total (f : DatesFinder) (p : Page) (s0 : state) :
  p <> [] ->
  NoDup (keys (match_methods f)) ->
  (forall k, In k (keys (match_methods f)) <-> In k date_roles) ->
  settled f s0 ->
  exists r s',
    extract f p s0 = (inr r, s')
    /\ (forall k, In k (keys r) <-> In k date_roles)
    /\ NoDup (keys r)
    /\ (forall k, In k date_roles -> exists v, dict_get k r = Some v).
Proof.
  intros Hp Hnd Hroles Hs.
  destruct (prepared p Hnd Hs) as (s1 & Hprep & W1).
  assert (Hincl : incl date_roles (keys (match_methods f)))
    by (intros k Hk; now apply Hroles).
  destruct (@ok_resolve 0 f p Hp Hnd Hincl s1 W1) as (r & s2 & Hres & -> & W2 & Hk).
  exists (info s2), s2. unfold extract, extract_with, while_fuel.
  unfold bind. rewrite Hprep. split; [exact Hres|].
  assert (Hiff : forall k, In k (keys (info s2)) <-> In k date_roles).
  { intros k. rewrite <- Hroles. split; [apply (wf_info W2) | apply Hk]. }
  repeat split; try apply Hiff.
  - apply (wf_info_nodup W2).
  - intros k Hkr. apply dict_get_in_keys. now apply Hiff.
Qed.

Definition one_line_page : Page := [mkLine [] (U "令和元年1月1日交付")].

Lemma dates_finder_roles :
  forall k, In k (keys (match_methods dates_finder)) <-> In k date_roles.
Proof. intros k. simpl. tauto. Qed.

Lemma extract_total_witness :
  exists r s',
    extract dates_finder one_line_page init_state = (inr r, s')
    /\ (forall k, In k (keys r) <-> In k date_roles)
    /\ NoDup (keys r)
    /\ (forall k, In k date_roles -> exists v, dict_get k r = Some v).
Proof.
  apply (@extract_total dates_finder one_line_page init_state).
  - discriminate.
  - apply dates_finder_nodup.
  - apply dates_finder_roles.
  - left. reflexivity.
Defined.

(** ** What a call leaves of the scores *)

Lemma ks_score_at (k : string) (i : nat) : keeps_scores (score_at k i).
Proof. unfold score_at, item, at_. frame. Qed.

Ltac frame_step :=
  first
    [ apply ks_ret | apply ks_raise | apply ks_get | apply ks_lift
    | apply ks_set_info | apply ks_set_dates_all
    | apply ks_score_at | apply ks_dates_at | apply ks_set_dates_at
    | apply ks_set_info_at | apply ks_info_get | apply ks_pop_used
    | apply ks_assign_key | apply ks_assign_pass
    | apply ks_for_each; intros
    | apply ks_bind; [|intros]
    | match goal with
      | |- keeps_scores (if ?c then _ else _) => destruct c
      | |- keeps_scores (match ?x with _ => _ end) => destruct x
      | |- keeps_scores (let (_, _) := ?x in _) => destruct x
      end ].

Lemma ks_nms (n : nat) : keeps_scores (nms n).
Proof. unfold nms, nms_line, suppress_key, item. repeat frame_step. Qed.

Lemma ks_two_dates : keeps_scores two_dates.
Proof.
  unfold two_dates, two_dates_line, assign_ordered, item. repeat frame_step.
Qed.

Lemma ks_assign_while (fuel : nat) (th : Z) :
  forall prev, keeps_scores (assign_while fuel th prev).
Proof.
  induction fuel as [|fuel IH]; intros prev; simpl; repeat frame_step.
  apply IH.
Qed.

Lemma ks_assign_all (fuel : nat) : keeps_scores (assign_all fuel).
Proof. unfold assign_all. repeat frame_step. apply ks_assign_while. Qed.

Lemma ks_same_line_from_until : keeps_scores same_line_from_until.
Proof. unfold same_line_from_until, item. repeat frame_step. Qed.

Lemma ks_same_line_until_issue : keeps_scores same_line_until_issue.
Proof.
  unfold same_line_until_issue, until_issue_line, assign_ordered, item.
  repeat frame_step.
Qed.

Lemma ks_fallback_scan (key : string) (order : list nat) :
  keeps_scores (fallback_scan key order).
Proof.
  induction order as [|idx order IH]; simpl; repeat frame_step. exact IH.
Qed.

Lemma ks_fallback : keeps_scores fallback.
Proof.
  unfold fallback, fallback_key, item. repeat frame_step.
  apply ks_fallback_scan.
Qed.

Lemma ks_fill_missing (f : DatesFinder) : keeps_scores (fill_missing f).
Proof. unfold fill_missing. repeat frame_step. Qed.

(** [keeps_tags m]: [m] leaves the tags of the score dictionary, and their
    order, as they were. *)
Definition keeps_tags (A : Type) (m : M A) : Prop :=
  forall s, keys (scores (snd (m s))) = keys (scores s).

Lemma kt_of_ks (A : Type) (m : M A) : keeps_scores m -> keeps_tags m.
Proof. intros H s. now rewrite H. Qed.

Lemma kt_bind (A B : Type) (m : M A) (f : A -> M B) :
  keeps_tags m -> (forall a, keeps_tags (f a)) -> keeps_tags (bind m f).
Proof.
  intros Hm Hf s. unfold bind. specialize (Hm s).
  destruct (m s) as [[e|a] s1]; simpl in *; auto.
  now rewrite Hf.
Qed.

Lemma kt_for_each (A : Type) (xs : list A) (body : A -> M unit) :
  (forall x, keeps_tags (body x)) -> keeps_tags (for_each xs body).
Proof.
  intros H. induction xs as [|x xs IH]; simpl.
  - apply kt_of_ks, ks_ret.
  - apply kt_bind; auto.
Qed.

Lemma kt_set_score_at (k : string) (i : nat) (v : Z) :
  keeps_tags (set_score_at k i v).
Proof.
  intros s. unfold set_score_at, bind, get, item, at_, lift.
  destruct (dict_get k (scores s)) as [a|] eqn:E; simpl; auto.
  destruct (nth_error a i); simpl; auto.
  apply keys_set_present. apply dict_get_in_keys. eauto.
Qed.

Lemma kt_suppress_from : keeps_tags suppress_from.
Proof.
  unfold suppress_from.
  apply kt_bind; [apply kt_of_ks, ks_get|]. intros d.
  apply kt_bind; [apply kt_of_ks; unfold item; apply ks_lift|]. intros ed.
  apply kt_for_each. intros [idx dates]. unfold drop_from_line.
  apply kt_bind; [apply kt_of_ks, ks_score_at|]. intros a.
  destruct (Z.eqb a 0); [apply kt_of_ks, ks_ret|].
  apply kt_bind; [apply kt_of_ks, ks_score_at|]. intros b.
  destruct (Z.eqb b 0); [apply kt_of_ks, ks_ret|].
  destruct (length dates <? 3); [|apply kt_of_ks, ks_ret].
  apply kt_bind; [apply kt_set_score_at|]. intros u.
  apply kt_of_ks, ks_set_dates_at.
Qed.

Lemma kt_resolve (fuel : nat) (f : DatesFinder) (p : Page) :
  keeps_tags (resolve fuel f p).
Proof.
  unfold resolve.
  apply kt_bind; [apply kt_of_ks, ks_nms|]. intros u1.
  apply kt_bind; [apply kt_suppress_from|]. intros u2.
  apply kt_bind; [apply kt_of_ks, ks_two_dates|]. intros u3.
  apply kt_bind; [apply kt_of_ks, ks_assign_all|]. intros u4.
  apply kt_bind; [apply kt_of_ks, ks_same_line_from_until|]. intros u5.
  apply kt_bind; [apply kt_of_ks, ks_same_line_until_issue|]. intros u6.
  apply kt_bind; [apply kt_of_ks, ks_fallback|]. intros u7.
  apply kt_bind; [apply kt_of_ks, ks_fill_missing|]. intros u8.
  apply kt_of_ks, ks_get.
Qed.

(** ** Successive calls *)

Lemma prepare_run (f : DatesFinder) (p : Page) (s0 : state) :
  NoDup (keys (match_methods f)) -> settled f s0 ->
  prepare f p s0
  = for_each (combine (scored_texts p (match_methods f))
                      (scored_scores p (match_methods f)))
             (extract_tag (extract_method f))
             (mkState (scored_scores p (match_methods f))
                      (scored_texts p (match_methods f)) [] [] 0).
Proof.
  intros Hnd Hs. unfold prepare.
  unfold bind at 1. unfold set_texts at 1, modify at 1.
  unfold bind at 1. unfold set_info at 1, modify at 1.
  unfold bind at 1. rewrite _score_run.
  set (s1 := mkState (scores s0) [] [] (dates_all s0) (heap s0)).
  assert (Hs1 : settled f s1) by exact Hs.
  pose proof (scored_settled p Hnd Hs1) as Hsc.
  pose proof (@scored_texts_fresh f p s1 Hnd eq_refl) as Htx.
  destruct (scored_fields p (match_methods f) s1) as (_ & _ & Hi & _ & _).
  unfold extract_all. unfold bind at 1. unfold set_dates_all at 1, modify at 1.
  unfold bind at 1. unfold set_heap at 1, modify at 1.
  unfold bind at 1. unfold get at 1. unfold bind at 1. unfold get at 1.
  cbn [texts scores info dates_all heap]. fold s1.
  now rewrite Hsc, Htx, Hi.
Qed.

Lemma init_settled (f : DatesFinder) : settled f init_state.
Proof. left. reflexivity. Qed.

Lemma extract_from_settled (f : DatesFinder) (p : Page) (s0 : state) :
  NoDup (keys (match_methods f)) -> settled f s0 ->
  extract f p s0 = extract f p init_state.
Proof.
  intros Hnd Hs. unfold extract, extract_with, bind.
  rewrite (prepare_run p Hnd Hs), (prepare_run p Hnd (init_settled f)).
  reflexivity.
Qed.

Lemma settled_after (f : DatesFinder) (p : Page) (s0 : state) :
  NoDup (keys (match_methods f)) -> settled f s0 ->
  settled f (snd (extract f p s0)).
Proof.
  intros Hnd Hs. right. unfold extract, extract_with, bind.
  destruct (prepared p Hnd Hs) as (s1 & Hprep & W1). rewrite Hprep.
  pose proof (kt_resolve while_fuel f p s1) as Hk.
  destruct (resolve while_fuel f p s1) as [[e|r] s2]; simpl in *;
    rewrite Hk; apply (wf_scores W1).
Qed.

(** C9: a call of [extract] on a page returns the same result, and leaves
    the finder in the same state, whatever earlier calls left in the
    finder: it is the result a fresh finder gives; in particular a second
    call in succession on the same page repeats the first, field map (or
    exception) and state alike. *)
Theorem extract_idempotent (f : DatesFinder) (p : Page) (s0 : state) :
  NoDup (keys (match_methods f)) -> settled f s0 ->
  extract f p (snd (extract f p s0)) = extract f p s0
  /\ extract f p s0 = extract f p init_state
  /\ settled f (snd (extract f p s0)).
Proof.
  intros Hnd Hs. pose proof (settled_after p Hnd Hs) as Ha.
  repeat split; auto.
  - rewrite (extract_from_settled p Hnd Ha). symmetry.
    now apply extract_from_settled.
  - now apply extract_from_settled.
Qed.

Lemma extract_idempotent_witness :
  extract dates_finder docs_page
          (snd (extract dates_finder docs_page init_state))
  = extract dates_finder docs_page init_state
  /\ extract dates_finder docs_page init_state
     = extract dates_finder docs_page init_state
  /\ settled dates_finder (snd (extract dates_finder docs_page init_state)).
Proof.
  apply (@extract_idempotent dates_finder docs_page init_state).
  - apply dates_finder_nodup.
  - apply init_settled.
Defined.

(** ** The assignment of one role *)

(** The candidates of role [k] on line [j], and a candidate list without
    the values whose canonical string is that of [dt]. *)
Definition cell (s : state) (k : string) (j : nat) : option (list obj) :=
  match dict_get k (dates_all s) with
  | Some rows => nth_error rows j
  | None => None
  end.

Definition popped (dt : obj) (ds : list obj) : list obj :=
  filter (fun d => negb (text_eqb (obj_str d) (obj_str dt))) ds.

Lemma text_eqb_refl (t : text) : text_eqb t t = true.
Proof.
  induction t as [|c t IH]; simpl; auto.
  unfold char_eqb. now rewrite N.eqb_refl.
Qed.

Lemma nth_error_list_set (V : Type) (i j : nat) (v : V) (a : list V) :
  i < length a ->
  nth_error (list_set i v a) j = if Nat.eqb j i then Some v else nth_error a j.
Proof.
  intros Hi. destruct (Nat.eqb j i) eqn:E.
  - apply Nat.eqb_eq in E. subst. now apply nth_error_list_set_same.
  - apply Nat.eqb_neq in E. apply nth_error_list_set_other. auto.
Qed.

Lemma pop_used_cell (s : state) (im : nat) (dt : obj) (k : string)
      (ds : list obj) :
  cell s k im = Some ds ->
  exists s1,
    pop_used im dt k s = (inr tt, s1)
    /\ info s1 = info s /\ scores s1 = scores s
    /\ (forall k' j,
           cell s1 k' j
           = if String.eqb k' k && Nat.eqb j im
             then option_map (popped dt) (cell s k' j)
             else cell s k' j).
Proof.
  unfold cell at 1. destruct (dict_get k (dates_all s)) as [rows|] eqn:Hr;
    [|discriminate].
  intros Hds. unfold pop_used. unfold bind at 1.
  rewrite (@dates_at_run s k im rows ds Hr Hds).
  destruct ds as [|d ds']; cbn [is_nil].
  - exists s. repeat split; auto. intros k' j.
    destruct (String.eqb k' k) eqn:Ek; simpl; auto.
    destruct (Nat.eqb j im) eqn:Ej; auto.
    apply String.eqb_eq in Ek. apply Nat.eqb_eq in Ej. subst.
    unfold cell. now rewrite Hr, Hds.
  - assert (Hlt : im < length rows).
    { apply nth_error_Some. congruence. }
    rewrite (@set_dates_at_run s k im _ rows Hr Hlt).
    eexists. split; [reflexivity|]. repeat split; auto.
    intros k' j. unfold cell. simpl.
    destruct (String.eqb k' k) eqn:Ek; simpl.
    + apply String.eqb_eq in Ek. subst k'.
      rewrite dict_get_set_same, Hr, nth_error_list_set by assumption.
      destruct (Nat.eqb j im) eqn:Ej; auto.
      apply Nat.eqb_eq in Ej. subst. now rewrite Hds.
    + apply String.eqb_neq in Ek.
      now rewrite dict_get_set_other by assumption.
Qed.

Definition mem (k : string) (l : list string) : bool :=
  existsb (String.eqb k) l.

Lemma pop_all_cells (im : nat) (dt : obj) (l : list string) :
  NoDup l ->
  forall s,
    (forall k, In k l -> exists ds, cell s k im = Some ds) ->
    exists s',
      for_each l (pop_used im dt) s = (inr tt, s')
      /\ info s' = info s /\ scores s' = scores s
      /\ (forall k j,
             cell s' k j
             = if mem k l && Nat.eqb j im
               then option_map (popped dt) (cell s k j)
               else cell s k j).
Proof.
  induction 1 as [|k l Hni Hnd IH]; intros s Hall; simpl.
  - exists s. auto.
  - destruct (Hall k (or_introl eq_refl)) as [ds Hds].
    destruct (pop_used_cell s im dt k Hds) as (s1 & Hrun & Hi & Hs & Hc).
    destruct (IH s1) as (s' & Hrun' & Hi' & Hs' & Hc').
    { intros k' Hk'. destruct (Hall k' (or_intror Hk')) as [ds' Hds'].
      rewrite Hc. destruct (String.eqb k' k) eqn:E.
      - apply String.eqb_eq in E. subst. contradiction.
      - simpl. eauto. }
    exists s'. unfold bind. rewrite Hrun. split; [exact Hrun'|].
    split; [congruence|]. split; [congruence|].
    intros k' j. rewrite Hc', Hc. unfold mem. cbn [existsb].
    destruct (String.eqb k' k) eqn:E; cbn [orb andb].
    + apply String.eqb_eq in E. subst k'.
      assert (Hm : existsb (String.eqb k) l = false).
      { destruct (existsb (String.eqb k) l) eqn:Em; auto.
        apply existsb_exists in Em. destruct Em as (x & Hx & Ex).
        apply String.eqb_eq in Ex. subst. contradiction. }
      rewrite Hm. reflexivity.
    + reflexivity.
Qed.

Lemma other_keys_all (l : list string) (key : string) :
  (forall k, In k l -> one_char_of key k = false) -> other_keys l key = l.
Proof.
  intros H. unfold other_keys. induction l as [|k l IH]; simpl; auto.
  rewrite (H k (or_introl eq_refl)). simpl. f_equal.
  apply IH. intros k' Hk'. apply H. now right.
Qed.

Lemma mem_in (k : string) (l : list string) : In k l -> mem k l = true.
Proof.
  intros H. apply existsb_exists. exists k. split; auto. apply String.eqb_refl.
Qed.

(** C10: when the threshold step assigns a role its single remaining
    candidate [dt] on line [im], the candidates whose canonical string is
    that of [dt] leave the list of every role on that line, the list of the
    assigned role included, which becomes empty; the other lines keep their
    candidates. *)
Theorem assign_key_pops (s : state) (th : Z) (key : string) (dt : obj)
        (a : list Z) (vm : Z) (im : nat) :
  NoDup (keys (scores s)) ->
  (forall k, In k (keys (scores s)) -> one_char_of key k = false) ->
  (forall k, In k (keys (scores s)) -> exists ds, cell s k im = Some ds) ->
  match dict_get key (info s) with Some v => v | None => None end = None ->
  dict_get key (scores s) = Some a ->
  np_max a = Some vm -> np_argmax a = Some im ->
  (th <= vm)%Z -> count_eq vm a = 1 ->
  cell s key im = Some [dt] ->
  exists s',
    assign_key th key s = (inr tt, s')
    /\ dict_get key (info s') = Some (Some dt)
    /\ (forall k, In k (keys (scores s)) ->
                  cell s' k im = option_map (popped dt) (cell s k im))
    /\ cell s' key im = Some []
    /\ (forall k j, j <> im -> cell s' k j = cell s k j).
Proof.
  intros Hnd Hone Hall Hinfo Ha Hvm Him Hth Hcount Hcell.
  assert (Hkey : In key (keys (scores s)))
    by (apply dict_get_in_keys; eauto).
  unfold cell in Hcell.
  destruct (dict_get key (dates_all s)) as [rows|] eqn:Hrows; [|discriminate].
  unfold assign_key. unfold bind at 1. rewrite info_get_run, Hinfo.
  unfold bind at 1. unfold get at 1. unfold bind at 1. unfold item, lift.
  rewrite Ha. unfold ret at 1. unfold bind at 1. rewrite Hvm. unfold ret at 1.
  unfold bind at 1. rewrite Him. unfold ret at 1.
  assert (Hc : ((th <=? vm)%Z && Nat.eqb (count_eq vm a) 1) = true).
  { rewrite Hcount. simpl. rewrite andb_true_r. now apply Z.leb_le. }
  rewrite Hc. unfold bind at 1.
  rewrite (@dates_at_run s key im rows [dt] Hrows Hcell).
  unfold bind at 1. rewrite set_info_at_run.
  set (s1 := with_info s (dict_set key (Some dt) (info s))).
  unfold bind at 1. unfold get at 1.
  change (scores s1) with (scores s).
  rewrite (other_keys_all _ key Hone).
  destruct (@pop_all_cells im dt (keys (scores s)) Hnd s1)
    as (s' & Hrun & Hi & Hs & Hcells).
  { intros k Hk. exact (Hall k Hk). }
  exists s'. split; [exact Hrun|].
  assert (Hcs : forall k j, cell s1 k j = cell s k j) by reflexivity.
  split; [|split; [|split]].
  - rewrite Hi. simpl. apply dict_get_set_same.
  - intros k Hk. rewrite Hcells, (mem_in _ _ Hk), Nat.eqb_refl. simpl.
    now rewrite Hcs.
  - rewrite Hcells, (mem_in _ _ Hkey), Nat.eqb_refl, Hcs. simpl.
    unfold cell. rewrite Hrows, Hcell. simpl.
    now rewrite text_eqb_refl.
  - intros k j Hj. rewrite Hcells, Hcs.
    apply Nat.eqb_neq in Hj. rewrite Hj. now rewrite andb_false_r.
Qed.

(** The state of a fresh finder on a page when the threshold step starts. *)
Definition before_assign (f : DatesFinder) (p : Page) : state :=
  snd ((prepare f p ;; nms (length p) ;; suppress_from ;; two_dates)
         init_state).

Definition issue_until_page : Page :=
  [mkLine [] (U "交付年月日2021年1月1日まで")].

Definition new_year_2021 (id : nat) : obj :=
  mkObj id (Date_init (U "2021") (U "1") (U "1") Ew).

Lemma assign_key_pops_witness :
  exists s',
    assign_key 2 "YukoEdYmd" (before_assign dates_finder issue_until_page)
    = (inr tt, s')
    /\ dict_get "YukoEdYmd" (info s') = Some (Some (new_year_2021 0))
    /\ (forall k,
           In k (keys (scores (before_assign dates_finder issue_until_page))) ->
           cell s' k 0
           = option_map (popped (new_year_2021 0))
                        (cell (before_assign dates_finder issue_until_page) k 0))
    /\ cell s' "YukoEdYmd" 0 = Some []
    /\ (forall k j, j <> 0 ->
                    cell s' k j
                    = cell (before_assign dates_finder issue_until_page) k j).
Proof.
  apply (@assign_key_pops (before_assign dates_finder issue_until_page)
           2%Z "YukoEdYmd" (new_year_2021 0) [2%Z] 2%Z 0).
  - vm_compute. repeat constructor; simpl; intuition discriminate.
  - intros k Hk. vm_compute in Hk.
    repeat (destruct Hk as [<-|Hk]; [reflexivity|]). contradiction.
  - intros k Hk. vm_compute in Hk.
    repeat (destruct Hk as [<-|Hk]; [eexists; vm_compute; reflexivity|]).
    contradiction.
  - vm_compute. reflexivity.
  - vm_compute. reflexivity.
  - reflexivity.
  - reflexivity.
  - lia.
  - reflexivity.
  - vm_compute. reflexivity.
Defined.

(** ** The fallback of an unresolved role *)

(** Line [j] comes before line [i] in the fallback of a role with scores
    [a]: it has a higher score, or the same score and stands earlier. *)
Definition precedes (a : list Z) (j i : nat) : Prop :=
  (nth i a 0%Z < nth j a 0%Z)%Z \/ (nth j a 0%Z = nth i a 0%Z /\ j < i).

Definition pair_before (x y : nat * Z) : Prop :=
  (snd y < snd x)%Z \/ (snd x = snd y /\ fst x < fst y).

Lemma insert_desc_in (x z : nat * Z) (l : list (nat * Z)) :
  In z (insert_desc x l) -> z = x \/ In z l.
Proof.
  intros H. apply (Permutation_in _ (insert_desc_perm x l)) in H.
  destruct H; auto.
Qed.

Lemma insert_desc_sorted (x : nat * Z) (l : list (nat * Z)) :
  StronglySorted pair_before l ->
  (forall y, In y l -> fst x < fst y) ->
  StronglySorted pair_before (insert_desc x l).
Proof.
  induction l as [|y l IH]; intros Hs Hx; simpl.
  - repeat constructor.
  - inversion Hs as [|? ? Hs' Hy]; subst.
    destruct (snd y <=? snd x)%Z eqn:E.
    + apply Z.leb_le in E. constructor; auto.
      apply Forall_forall. intros z [<-|Hz].
      * unfold pair_before. specialize (Hx y (or_introl eq_refl)). lia.
      * rewrite Forall_forall in Hy. specialize (Hy z Hz).
        specialize (Hx z (or_intror Hz)). unfold pair_before in *. lia.
    + apply Z.leb_gt in E. constructor.
      * apply IH; auto. intros z Hz. apply Hx. now right.
      * apply Forall_forall. intros z Hz. apply insert_desc_in in Hz.
        destruct Hz as [->|Hz].
        -- unfold pair_before. lia.
        -- rewrite Forall_forall in Hy. auto.
Qed.

Lemma sort_desc_sorted (l : list Z) (k : nat) :
  StronglySorted pair_before
    (fold_right insert_desc [] (combine (seq k (length l)) l)).
Proof.
  revert k. induction l as [|v l IH]; intros k; simpl.
  - constructor.
  - apply insert_desc_sorted; [apply IH|].
    intros [i w] Hy. apply (Permutation_in _ (sort_desc_perm _)) in Hy.
    apply in_combine_l in Hy. apply in_seq in Hy. simpl. lia.
Qed.

Lemma enumerate_nth (l : list Z) (k i : nat) (v : Z) :
  In (i, v) (combine (seq k (length l)) l) -> v = nth (i - k) l 0%Z /\ k <= i.
Proof.
  revert k. induction l as [|x l IH]; intros k; simpl; [tauto|].
  intros [E|H].
  - inversion E; subst. rewrite Nat.sub_diag. auto.
  - destruct (IH (S k) H) as [-> Hk]. split; [|lia].
    replace (i - k) with (S (i - S k)) by lia. reflexivity.
Qed.

Lemma argsort_neg_sorted (a : list Z) :
  StronglySorted (precedes a) (argsort_neg a).
Proof.
  unfold argsort_neg, enumerate.
  assert (Hin : forall x, In x (fold_right insert_desc []
                                  (combine (seq 0 (length a)) a)) ->
                          snd x = nth (fst x) a 0%Z).
  { intros [i v] Hx. apply (Permutation_in _ (sort_desc_perm _)) in Hx.
    apply enumerate_nth in Hx. destruct Hx as [-> _]. simpl.
    now rewrite Nat.sub_0_r. }
  pose proof (sort_desc_sorted a 0) as Hs.
  induction Hs as [|x l Hs IH Hx]; simpl; constructor.
  - apply IH. intros y Hy. apply Hin. now right.
  - apply Forall_forall. intros j Hj. apply in_map_iff in Hj.
    destruct Hj as (y & <- & Hy). rewrite Forall_forall in Hx.
    specialize (Hx y Hy). unfold pair_before in Hx. unfold precedes.
    rewrite <- (Hin x (or_introl eq_refl)), <- (Hin y (or_intror Hy)). lia.
Qed.

(** In the fallback order every line that precedes a line stands before
    it. *)
Lemma argsort_neg_before (a : list Z) (pre post : list nat) (idx j : nat) :
  argsort_neg a = pre ++ idx :: post ->
  j < length a -> precedes a j idx -> In j pre.
Proof.
  intros E Hj Hp.
  assert (Hin : In j (argsort_neg a)).
  { apply (Permutation_in _ (Permutation_sym (argsort_neg_perm a))).
    apply in_seq. lia. }
  pose proof (argsort_neg_sorted a) as Hs. rewrite E in Hs, Hin.
  apply in_app_or in Hin. destruct Hin as [Hin|[->|Hin]]; auto.
  - unfold precedes in Hp. lia.
  - exfalso. clear E. induction pre as [|x pre IH]; simpl in Hs.
    + inversion Hs as [|? ? _ Hall]; subst. rewrite Forall_forall in Hall.
      specialize (Hall j Hin). unfold precedes in *. lia.
    + inversion Hs; subst. auto.
Qed.

Lemma text_ltb_irrefl (t : text) : text_ltb t t = false.
Proof.
  induction t as [|c t IH]; simpl; auto. now rewrite N.ltb_irrefl.
Qed.

Lemma text_leb_refl (t : text) : text_leb t t = true.
Proof. unfold text_leb. now rewrite text_ltb_irrefl. Qed.

Lemma text_ltb_asym (a b : text) : text_ltb a b = true -> text_ltb b a = false.
Proof.
  revert b. induction a as [|x a IH]; intros [|y b]; simpl; auto;
    try discriminate.
  destruct (N.ltb_spec x y), (N.ltb_spec y x); auto; try lia; discriminate.
Qed.

Lemma text_leb_total (a b : text) : text_leb a b = false -> text_leb b a = true.
Proof.
  unfold text_leb. intros H. apply negb_false_iff in H.
  now rewrite (text_ltb_asym _ _ H).
Qed.

Ltac ltb_decide :=
  repeat match goal with
         | |- context [N.ltb ?a ?b] =>
           first [ replace (N.ltb a b) with true
                     by (symmetry; apply N.ltb_lt; lia)
                 | replace (N.ltb a b) with false
                     by (symmetry; apply N.ltb_ge; lia) ]
         end.

Lemma text_ltb_trans (a b c : text) :
  text_ltb a b = true -> text_ltb b c = true -> text_ltb a c = true.
Proof.
  revert b c. induction a as [|x a IH]; intros [|y b] [|z c]; simpl; auto;
    try discriminate.
  destruct (N.lt_trichotomy x y) as [H1|[H1|H1]];
    destruct (N.lt_trichotomy y z) as [H2|[H2|H2]];
    ltb_decide; eauto; try discriminate.
Qed.

Lemma text_leb_ltb (a b c : text) :
  text_ltb c a = true -> text_leb a b = true -> text_ltb c b = true.
Proof.
  unfold text_leb. rewrite negb_true_iff.
  revert b c. induction a as [|x a IH]; intros [|y b] [|z c]; simpl; auto;
    try discriminate.
  destruct (N.lt_trichotomy z x) as [H1|[H1|H1]];
    destruct (N.lt_trichotomy x y) as [H2|[H2|H2]];
    ltb_decide; eauto; try discriminate.
Qed.

Lemma text_leb_trans (a b c : text) :
  text_leb a b = true -> text_leb b c = true -> text_leb a c = true.
Proof.
  intros H1 H2. unfold text_leb. apply negb_true_iff.
  destruct (text_ltb c a) eqn:E; auto.
  pose proof (text_leb_ltb _ _ _ E H1) as H3.
  unfold text_leb in H2. rewrite H3 in H2. discriminate.
Qed.

(** The first element of [sorted(ds, key=str)] is a candidate of [ds] with
    the least canonical string. *)
Lemma sorted_by_str_head (ds : list obj) (v : obj) (tl : list obj) :
  sorted_by_str ds = v :: tl ->
  In v ds /\ forall d, In d ds -> text_leb (obj_str v) (obj_str d) = true.
Proof.
  revert v tl. induction ds as [|x ds IH]; intros v tl; simpl; [discriminate|].
  destruct (sorted_by_str ds) as [|w tl'] eqn:E; simpl.
  - intros H. inversion H; subst.
    assert (ds = []).
    { pose proof (sorted_by_str_perm ds) as P. rewrite E in P.
      apply Permutation_nil in P. exact P. }
    subst. split; auto. intros d [<-|[]]. apply text_leb_refl.
  - destruct (IH w tl' eq_refl) as [Hw Hmin].
    destruct (text_leb (obj_str x) (obj_str w)) eqn:L; intros H;
      inversion H; subst.
    + split; auto. intros d [<-|Hd]; [apply text_leb_refl|].
      eapply text_leb_trans; eauto.
    + split; auto. intros d [<-|Hd]; auto. now apply text_leb_total.
Qed.

(** The candidate the fallback takes from a line: the first one, after
    sorting by canonical string for Birthday. *)
Definition pick (key : string) (ds : list obj) : option obj :=
  hd_error (if String.eqb key "Birthday" then sorted_by_str ds else ds).

Lemma cell_row (s : state) (key : string) (i : nat) (ds : list obj) :
  cell s key i = Some ds ->
  exists rows, dict_get key (dates_all s) = Some rows
               /\ nth_error rows i = Some ds /\ i < length rows.
Proof.
  unfold cell. destruct (dict_get key (dates_all s)) as [rows|]; [|discriminate].
  intros H. exists rows. repeat split; auto. apply nth_error_Some. congruence.
Qed.

Lemma fallback_scan_spec (key : string) (order : list nat) :
  forall s,
    (forall i, In i order -> exists ds, cell s key i = Some ds) ->
    exists s',
      fallback_scan key order s = (inr tt, s')
      /\ ((forall i, In i order -> cell s key i = Some []) /\ s' = s
          \/ exists pre idx post ds v,
            order = pre ++ idx :: post
            /\ (forall i, In i pre -> cell s key i = Some [])
            /\ cell s key idx = Some ds /\ ds <> []
            /\ pick key ds = Some v
            /\ dict_get key (info s') = Some (Some v)).
Proof.
  induction order as [|idx order IH]; intros s Hall; simpl.
  - exists s. split; auto. left. split; auto. intros i [].
  - destruct (Hall idx (or_introl eq_refl)) as [ds Hds].
    destruct (cell_row s key idx Hds) as (rows & Hrows & Hnth & Hlt).
    unfold bind at 1. rewrite (@dates_at_run s key idx rows ds Hrows Hnth).
    destruct ds as [|x ds']; cbn [is_nil].
    + destruct (IH s) as (s' & Hrun & Hcases).
      { intros i Hi. apply Hall. now right. }
      exists s'. split; auto. destruct Hcases as [[Hnil ->]|Hfound].
      * left. split; auto. intros i [<-|Hi]; auto.
      * right. destruct Hfound as (pre & i & post & ds & v & -> & H1 & H2).
        exists (idx :: pre), i, post, ds, v. split; auto. split; auto.
        intros j [<-|Hj]; auto.
    + assert (Hpick : exists v rest,
                 (if String.eqb key "Birthday"
                  then sorted_by_str (x :: ds') else x :: ds') = v :: rest).
      { destruct (String.eqb key "Birthday"); [|eauto].
        apply sorted_by_str_cons. }
      destruct Hpick as (v & rest & Hv).
      assert (Hres : exists s',
                 ((if String.eqb key "Birthday"
                   then set_dates_at key idx (sorted_by_str (x :: ds'))
                   else ret tt) ;;
                  ds <- dates_at key idx ;;
                  match ds with
                  | [] => raise unit IndexError
                  | y :: ds0 =>
                    set_dates_at key idx ds0 ;; set_info_at key (Some y)
                  end) s = (inr tt, s')
                 /\ dict_get key (info s') = Some (Some v)).
      { destruct (String.eqb key "Birthday").
        - unfold bind at 1.
          rewrite (@set_dates_at_run s key idx _ rows Hrows Hlt).
          set (s1 := with_dates s _).
          assert (R1 : dict_get key (dates_all s1)
                       = Some (list_set idx (sorted_by_str (x :: ds')) rows))
            by apply dict_get_set_same.
          unfold bind at 1.
          rewrite (@dates_at_run s1 key idx _ (v :: rest) R1)
            by (rewrite <- Hv; now apply nth_error_list_set_same).
          unfold bind at 1.
          rewrite (@set_dates_at_run s1 key idx rest _ R1)
            by (now rewrite length_list_set).
          rewrite set_info_at_run. eexists. split; [reflexivity|].
          simpl. apply dict_get_set_same.
        - unfold bind at 1. unfold ret at 1. unfold bind at 1.
          rewrite (@dates_at_run s key idx rows (x :: ds') Hrows Hnth).
          inversion Hv; subst. unfold bind at 1.
          rewrite (@set_dates_at_run s key idx rest rows Hrows Hlt).
          rewrite set_info_at_run. eexists. split; [reflexivity|].
          simpl. apply dict_get_set_same. }
      destruct Hres as (s' & Hrun & Hinfo).
      exists s'. split; [exact Hrun|]. right.
      exists [], idx, order, (x :: ds'), v. repeat split; auto.
      * intros i [].
      * discriminate.
      * unfold pick. now rewrite Hv.
Qed.

(** C5: a role still unresolved takes its value from the first line, in
    descending score order with ties in line order, that has a candidate
    left: every line that precedes the chosen one has none.  Birthday takes
    a candidate of that line with the least canonical string, the other
    roles take the first candidate of the line's list; with no candidate on
    any line the role stays unresolved. *)
Theorem fallback_key_spec (s : state) (key : string) (a : list Z)
        (rows : list (list obj)) :
  match dict_get key (info s) with Some v => v | None => None end = None ->
  dict_get key (scores s) = Some a ->
  dict_get key (dates_all s) = Some rows ->
  length rows = length a ->
  exists s',
    fallback_key key s = (inr tt, s')
    /\ ((forall j, j < length a -> nth_error rows j = Some []) /\ s' = s
        \/ exists idx ds v,
          nth_error rows idx = Some ds /\ ds <> []
          /\ (forall j, j < length a -> precedes a j idx ->
                        nth_error rows j = Some [])
          /\ dict_get key (info s') = Some (Some v)
          /\ (key = "Birthday"%string ->
              In v ds
              /\ forall d, In d ds -> text_leb (obj_str v) (obj_str d) = true)
          /\ (key <> "Birthday"%string -> exists rest, ds = v :: rest)).
Proof.
  intros Hinfo Ha Hrows Hlen.
  assert (Hcell : forall i, cell s key i = nth_error rows i)
    by (intros i; unfold cell; now rewrite Hrows).
  unfold fallback_key. unfold bind at 1. rewrite info_get_run, Hinfo.
  unfold bind at 1. unfold get at 1. unfold bind at 1. unfold item, lift.
  rewrite Ha. unfold ret at 1.
  destruct (@fallback_scan_spec key (argsort_neg a) s) as (s' & Hrun & Hcases).
  { intros i Hi. rewrite Hcell. apply nth_error_some.
    pose proof (argsort_neg_lt a) as Hlt. rewrite Forall_forall in Hlt.
    specialize (Hlt i Hi). lia. }
  exists s'. split; [exact Hrun|].
  destruct Hcases as [[Hnil ->]|(pre & idx & post & ds & v & E & Hpre & Hds & Hne & Hpick & Hv)].
  - left. split; auto. intros j Hj. rewrite <- Hcell. apply Hnil.
    apply (Permutation_in _ (Permutation_sym (argsort_neg_perm a))).
    apply in_seq. lia.
  - right. exists idx, ds, v. rewrite <- Hcell. repeat split; auto.
    + intros j Hj Hp. rewrite <- Hcell. apply Hpre.
      eapply argsort_neg_before; eauto.
    + unfold pick in Hpick. rewrite H, String.eqb_refl in Hpick.
      destruct (sorted_by_str ds) as [|w tl] eqn:Es; [discriminate|].
      inversion Hpick; subst. eapply sorted_by_str_head; eauto.
    + unfold pick in Hpick. rewrite H, String.eqb_refl in Hpick.
      destruct (sorted_by_str ds) as [|w tl] eqn:Es; [discriminate|].
      inversion Hpick; subst. eapply sorted_by_str_head; eauto.
    + intros Hnb. unfold pick in Hpick.
      apply String.eqb_neq in Hnb. rewrite Hnb in Hpick.
      destruct ds as [|w tl]; [discriminate|]. inversion Hpick; subst. eauto.
Qed.

(** The state of a fresh finder on a page when the fallback starts. *)
Definition before_fallback (f : DatesFinder) (p : Page) : state :=
  snd ((prepare f p ;; nms (length p) ;; suppress_from ;; two_dates ;;
        assign_all while_fuel ;; same_line_from_until ;;
        same_line_until_issue) init_state).

(** A heading on its own line, two dates on the next one. *)
Definition birthdays_page : Page :=
  [ mkLine [] (U "生年月日");
    mkLine [] (U "2001年2月3日1999年1月1日");
    mkLine [] (U "1998年1月1日") ].

Definition birthday_rows : list (list obj) :=
  [ [];
    [ mkObj 0 (Date_init (U "2001") (U "2") (U "3") Ew);
      mkObj 1 (Date_init (U "1999") (U "1") (U "1") Ew) ];
    [] ].

Lemma fallback_key_spec_witness :
  exists s',
    fallback_key "Birthday" (before_fallback dates_finder birthdays_page)
    = (inr tt, s')
    /\ ((forall j, j < 3 -> nth_error birthday_rows j = Some [])
        /\ s' = before_fallback dates_finder birthdays_page
        \/ exists idx ds v,
          nth_error birthday_rows idx = Some ds /\ ds <> []
          /\ (forall j, j < 3 -> precedes [2; 1; 0]%Z j idx ->
                        nth_error birthday_rows j = Some [])
          /\ dict_get "Birthday" (info s') = Some (Some v)
          /\ ("Birthday"%string = "Birthday"%string ->
              In v ds
              /\ forall d, In d ds -> text_leb (obj_str v) (obj_str d) = true)
          /\ ("Birthday"%string <> "Birthday"%string ->
              exists rest, ds = v :: rest)).
Proof.
  apply (@fallback_key_spec (before_fallback dates_finder birthdays_page)
           "Birthday" [2; 1; 0]%Z birthday_rows).
  - vm_compute. reflexivity.
  - vm_compute. reflexivity.
  - vm_compute. reflexivity.
  - reflexivity.
Defined.

(* ===================================================================== *)
(** * The suppression pass and the threshold loop on concrete pages       *)
(* ===================================================================== *)

(** The state of a fresh finder on a page once scores and candidates are
    there, and the state after the suppression pass that follows. *)
Definition after_prepare (f : DatesFinder) (p : Page) : state :=
  snd (prepare f p init_state).

Definition after_nms (f : DatesFinder) (p : Page) : state :=
  snd ((prepare f p ;; nms (length p)) init_state).

(** The canonical strings of the candidates of a role on a line. *)
Definition cell_strs (s : state) (key : string) (i : nat)
  : option (list text) :=
  option_map (map obj_str) (cell s key i).

(** The canonical string a role holds in [info], if it holds a date. *)
Definition info_str (s : state) (key : string) : option text :=
  match dict_get key (info s) with
  | Some (Some d) => Some (obj_str d)
  | _ => None
  end.

(** C1: on the one-line page [issue_until_page] only YukoEdYmd scores 2 or
    more on line 0, and KofuYmd holds a candidate with the same canonical
    string 20210101 there; the suppression pass leaves that candidate in
    place, and all candidates of the page as they were: its membership test
    compares [Date] objects, which are never the same object for two
    roles. *)
Theorem nms_keeps_shared_date :
  scores (after_nms dates_finder issue_until_page)
  = [ ("Birthday", [0]); ("YukoEdYmd", [2]);
      ("YukoStYmd", [0]); ("KofuYmd", [1]) ]%Z%string
  /\ cell_strs (after_prepare dates_finder issue_until_page) "YukoEdYmd" 0
     = Some [U "20210101"]
  /\ cell_strs (after_prepare dates_finder issue_until_page) "KofuYmd" 0
     = Some [U "20210101"]
  /\ cell_strs (after_nms dates_finder issue_until_page) "KofuYmd" 0
     = Some [U "20210101"]
  /\ dates_all (after_nms dates_finder issue_until_page)
     = dates_all (after_prepare dates_finder issue_until_page).
Proof. vm_compute. repeat split; reflexivity. Qed.

(** The state of a fresh finder on a page when the threshold step is over. *)
Definition after_assign (f : DatesFinder) (p : Page) : state :=
  snd ((prepare f p ;; nms (length p) ;; suppress_from ;; two_dates ;;
        assign_all while_fuel) init_state).

(** A first line with an issue date, a start date and an end keyword, and
    a second line with an issue date and an expiry date. *)
Definition periods_page : Page :=
  [ mkLine [] (U "交付年月日2018年4月1日2020年4月1日有効開始2020年4月1日まで");
    mkLine [] (U "喪失予定日交付年月日2019年5月1日2022年9月30日") ].

(** C3: on [periods_page] the pass at threshold 1 assigns YukoStYmd, which
    leaves YukoEdYmd with one candidate, 20180401, on line 0, the only line
    with its maximum score 2; the threshold step ends with YukoEdYmd still
    unresolved, although one more pass at threshold 1 would assign it, and
    [extract] returns 20220930 for it, taken from line 1 by a later step. *)
Theorem assign_stops_early :
  info_str (after_assign dates_finder periods_page) "YukoStYmd"
  = Some (U "20200401")
  /\ info_str (after_assign dates_finder periods_page) "YukoEdYmd" = None
  /\ dict_get "YukoEdYmd" (scores (after_assign dates_finder periods_page))
     = Some [2; 1]%Z
  /\ cell_strs (after_assign dates_finder periods_page) "YukoEdYmd" 0
     = Some [U "20180401"]
  /\ info_str (snd (assign_pass 1 (after_assign dates_finder periods_page)))
              "YukoEdYmd"
     = Some (U "20180401")
  /\ info_str (snd (extract dates_finder periods_page init_state)) "YukoEdYmd"
     = Some (U "20220930").
Proof. vm_compute. repeat split; reflexivity. Qed.

(* ===================================================================== *)
(** * The identities of the candidates                                    *)
(* ===================================================================== *)

(** The object identities held by the lines of a role, and by all roles. *)
Definition row_ids (rows : list (list obj)) : list nat := map oid (concat rows).

Definition all_ids (d : dict (list (list obj))) : list nat :=
  flat_map (fun kv => row_ids (snd kv)) d.

(** Every candidate is an object of its own, allocated by the running
    call. *)
Definition fresh (s : state) : Prop :=
  NoDup (all_ids (dates_all s))
  /\ Forall (fun i => i < heap s) (all_ids (dates_all s)).

Lemma nodup_app_disjoint (A : Type) (l1 l2 : list A) (a : A) :
  NoDup (l1 ++ l2) -> In a l1 -> ~ In a l2.
Proof.
  induction l1 as [|x l1 IH]; simpl; intros Hnd Hin; [contradiction|].
  inversion Hnd as [|? ? Hx Hnd']; subst.
  destruct Hin as [->|Hin]; auto.
  intros H2. apply Hx. apply in_or_app. now right.
Qed.

Lemma alloc_ids (ds : list Date) :
  forall h, map oid (fst (alloc ds h)) = seq h (length ds)
            /\ snd (alloc ds h) = h + length ds.
Proof.
  induction ds as [|d ds IH]; intros h; simpl.
  - split; auto.
  - specialize (IH (S h)). destruct (alloc ds (S h)) as [os h'].
    simpl in *. destruct IH as [-> ->]. split; [reflexivity | lia].
Qed.

Lemma extract_lines_ids (ef : text -> list Date) (sl : list (Z * text)) :
  forall h, exists k,
      row_ids (fst (extract_lines ef sl h)) = seq h k
      /\ snd (extract_lines ef sl h) = h + k.
Proof.
  induction sl as [|[sc line] sl IH]; intros h; simpl.
  - exists 0. split; auto.
  - destruct (0 <? sc)%Z.
    + pose proof (alloc_ids (ef line) h) as [Ho Hh].
      destruct (alloc (ef line) h) as [os h1]. simpl in Ho, Hh.
      destruct (IH h1) as (k & Hk1 & Hk2).
      destruct (extract_lines ef sl h1) as [rest h2]. simpl in *.
      exists (length (ef line) + k). unfold row_ids in *. simpl.
      rewrite map_app, Ho, Hk1, Hh, seq_app. split; [reflexivity | lia].
    + destruct (IH h) as (k & Hk1 & Hk2).
      destruct (extract_lines ef sl h) as [rest h2]. simpl in *.
      exists k. auto.
Qed.

Lemma all_ids_set_in (k : string) (v : list (list obj))
      (d : dict (list (list obj))) (x : nat) :
  In x (all_ids (dict_set k v d)) -> In x (row_ids v) \/ In x (all_ids d).
Proof.
  induction d as [|[k' v'] d IH]; simpl.
  - rewrite List.app_nil_r. auto.
  - destruct (String.eqb k' k); simpl; intros H; apply in_app_or in H.
    + destruct H; auto. right. apply in_or_app. now right.
    + destruct H as [H|H].
      * right. apply in_or_app. now left.
      * destruct (IH H); auto. right. apply in_or_app. now right.
Qed.

Lemma all_ids_set_nodup (k : string) (v : list (list obj))
      (d : dict (list (list obj))) :
  NoDup (all_ids d) -> NoDup (row_ids v) ->
  (forall x, In x (row_ids v) -> ~ In x (all_ids d)) ->
  NoDup (all_ids (dict_set k v d)).
Proof.
  induction d as [|[k' v'] d IH]; simpl; intros Hd Hv Hdis.
  - now rewrite List.app_nil_r.
  - destruct (String.eqb k' k); simpl.
    + apply NoDup_app; auto.
      * now apply NoDup_app_remove_l in Hd.
      * intros x Hx Hin. apply (Hdis x Hx). apply in_or_app. now right.
    + apply NoDup_app.
      * now apply NoDup_app_remove_r in Hd.
      * apply IH; auto.
        -- now apply NoDup_app_remove_l in Hd.
        -- intros x Hx Hin. apply (Hdis x Hx). apply in_or_app. now right.
      * intros x Hx Hin. apply all_ids_set_in in Hin. destruct Hin as [Hin|Hin].
        -- apply (Hdis x Hin). apply in_or_app. now left.
        -- exact (@nodup_app_disjoint _ _ _ x Hd Hx Hin).
Qed.

Lemma extract_tag_fresh (ef : text -> list Date)
      (pr : (string * list text) * (string * list Z)) (s : state) :
  fresh s -> fresh (snd (extract_tag ef pr s)).
Proof.
  intros [Hnd Hlt]. destruct pr as [[tag lines] [tag' scs]].
  unfold extract_tag. unfold bind at 1. unfold get at 1.
  destruct (extract_lines_ids ef (combine scs lines) (heap s))
    as (k & Hk1 & Hk2).
  destruct (extract_lines ef (combine scs lines) (heap s)) as [ds h'].
  simpl in Hk1, Hk2. subst h'.
  unfold bind, set_heap, set_dates_all, modify, get. simpl.
  rewrite Forall_forall in Hlt. split; simpl.
  - apply all_ids_set_nodup; auto.
    + rewrite Hk1. apply seq_NoDup.
    + intros x Hx Hin. rewrite Hk1 in Hx. apply in_seq in Hx.
      specialize (Hlt x Hin). lia.
  - apply Forall_forall. intros x Hx. apply all_ids_set_in in Hx.
    destruct Hx as [Hx|Hx].
    + rewrite Hk1 in Hx. apply in_seq in Hx. lia.
    + specialize (Hlt x Hx). lia.
Qed.

(** A loop keeps what each of its turns keeps, also when a turn raises. *)
Lemma for_each_keeps (A : Type) (I : state -> Prop) (body : A -> M unit)
      (xs : list A) :
  (forall x s, I s -> I (snd (body x s))) ->
  forall s, I s -> I (snd (for_each xs body s)).
Proof.
  intros Hb. induction xs as [|x xs IH]; intros s Hs; simpl; auto.
  unfold bind. specialize (Hb x s Hs).
  destruct (body x s) as [[e|[]] s1]; simpl in *; auto.
Qed.

Lemma prepare_fresh (f : DatesFinder) (p : Page) (s0 : state) :
  NoDup (keys (match_methods f)) -> settled f s0 ->
  fresh (snd (prepare f p s0)).
Proof.
  intros Hnd Hs. rewrite (prepare_run p Hnd Hs).
  apply for_each_keeps.
  - intros x s1. apply extract_tag_fresh.
  - split; simpl; constructor.
Qed.

Lemma dict_set_same_value (V : Type) (k : string) (v : V) (d : dict V) :
  dict_get k d = Some v -> dict_set k v d = d.
Proof.
  induction d as [|[k' v'] d IH]; simpl; [discriminate|].
  destruct (String.eqb k' k).
  - intros H. inversion H. reflexivity.
  - intros H. f_equal. auto.
Qed.

Lemma row_ids_in (d : dict (list (list obj))) (k : string)
      (rows : list (list obj)) (x : nat) :
  dict_get k d = Some rows -> In x (row_ids rows) -> In x (all_ids d).
Proof.
  induction d as [|[k' v'] d IH]; simpl; [discriminate|].
  destruct (String.eqb k' k); intros H Hx; apply in_or_app.
  - inversion H; subst. now left.
  - right. auto.
Qed.

(** Two roles share no object. *)
Lemma rows_disjoint (d : dict (list (list obj))) (k1 k2 : string)
      (r1 r2 : list (list obj)) (x : nat) :
  NoDup (all_ids d) -> k1 <> k2 ->
  dict_get k1 d = Some r1 -> dict_get k2 d = Some r2 ->
  In x (row_ids r1) -> ~ In x (row_ids r2).
Proof.
  induction d as [|[k' v'] d IH]; simpl; [discriminate|].
  intros Hnd Hne H1 H2 Hx1 Hx2.
  destruct (String.eqb k' k1) eqn:E1; destruct (String.eqb k' k2) eqn:E2.
  - apply String.eqb_eq in E1, E2. congruence.
  - inversion H1; subst.
    exact (@nodup_app_disjoint _ _ _ x Hnd Hx1 (@row_ids_in d k2 r2 x H2 Hx2)).
  - inversion H2; subst.
    exact (@nodup_app_disjoint _ _ _ x Hnd Hx2 (@row_ids_in d k1 r1 x H1 Hx1)).
  - apply NoDup_app_remove_l in Hnd. exact (IH Hnd Hne H1 H2 Hx1 Hx2).
Qed.

Lemma row_ids_cons (a : list obj) (rows : list (list obj)) :
  row_ids (a :: rows) = map oid a ++ row_ids rows.
Proof. unfold row_ids. simpl. apply map_app. Qed.

(** The filter of the suppression pass keeps every candidate of a line
    when the two lists share no object. *)
Lemma suppress_lines_inert (cur : list (list obj)) :
  forall keep,
    (forall x, In x (row_ids cur) -> ~ In x (row_ids keep)) ->
    suppress_lines cur keep = cur.
Proof.
  induction cur as [|dates1 cur IH]; intros [|dates2 keep] Hdis; simpl; auto.
  rewrite !row_ids_cons in *. f_equal.
  - apply forallb_filter_id. apply forallb_forall. intros d1 Hd1.
    apply negb_true_iff. destruct (obj_in d1 dates2) eqn:E; auto.
    unfold obj_in in E. apply existsb_exists in E.
    destruct E as (y & Hy & Hid). unfold obj_is in Hid.
    apply Nat.eqb_eq in Hid. exfalso.
    apply (Hdis (oid d1)).
    + apply in_or_app. left. now apply in_map.
    + apply in_or_app. left. rewrite Hid. now apply in_map.
  - apply IH. intros x Hx Hin. apply (Hdis x); apply in_or_app; now right.
Qed.

Lemma with_dates_same (s : state) : with_dates s (dates_all s) = s.
Proof. now destruct s. Qed.

Lemma suppress_key_inert (kk key : string) (s : state) :
  NoDup (all_ids (dates_all s)) -> snd (suppress_key kk key s) = s.
Proof.
  intros Hnd. unfold suppress_key, bind, get, item, lift.
  destruct (dict_get key (dates_all s)) as [cur|] eqn:Ha; simpl; auto.
  destruct (String.eqb key kk) eqn:E; simpl; auto.
  destruct (is_nil cur); simpl; auto.
  destruct (dict_get kk (dates_all s)) as [keep|] eqn:Hb; simpl; auto.
  apply String.eqb_neq in E.
  rewrite suppress_lines_inert.
  - rewrite (@dict_set_same_value _ key cur (dates_all s) Ha).
    apply with_dates_same.
  - intros x. exact (@rows_disjoint _ key kk cur keep x Hnd E Ha Hb).
Qed.

Lemma nms_line_inert (i : nat) (s : state) :
  NoDup (all_ids (dates_all s)) -> snd (nms_line i s) = s.
Proof.
  intros Hnd. unfold nms_line, bind, get.
  destruct (claim_scan (scores s) i None false) as [e|[[kk|] [|]]];
    simpl; auto.
  apply (@for_each_keeps _ (fun s' => s' = s)); auto.
  intros x s' ->. now apply suppress_key_inert.
Qed.

Lemma nms_inert (n : nat) (s : state) :
  NoDup (all_ids (dates_all s)) -> snd (nms n s) = s.
Proof.
  intros Hnd. unfold nms.
  apply (@for_each_keeps _ (fun s' => s' = s)); auto.
  intros x s' ->. now apply nms_line_inert.
Qed.

(** On every page the suppression pass ends without raising and leaves
    the finder as it found it, the candidates of every role and line
    included: no candidate of one role is the same object as a candidate
    of another. *)
Lemma nms_removes_nothing (f : DatesFinder) (p : Page) (s0 : state) :
  NoDup (keys (match_methods f)) -> settled f s0 ->
  exists s1,
    prepare f p s0 = (inr tt, s1) /\ nms (length p) s1 = (inr tt, s1).
Proof.
  intros Hnd Hs. destruct (prepared p Hnd Hs) as (s1 & Hprep & W).
  exists s1. split; [exact Hprep|].
  pose proof (prepare_fresh p Hnd Hs) as [Hf _]. rewrite Hprep in Hf.
  simpl in Hf. pose proof (@nms_inert (length p) s1 Hf) as Hi.
  destruct (@ok_nms (length p) _ Hnd s1 W) as ([] & s2 & Hrun & _).
  rewrite Hrun in Hi. simpl in Hi. now rewrite Hrun, Hi.
Qed.

(* ===================================================================== *)
(** * The strings of a [Date]                                             *)
(* ===================================================================== *)

Lemma zfill_length (w : nat) (s : text) :
  length s <= w -> length (zfill w s) = w.
Proof.
  intros H. unfold zfill. rewrite length_app, repeat_length.
  unfold text, char in *. lia.
Qed.

(** The numbers from [lo] on, [n] of them. *)
Fixpoint countN (n : nat) (lo : N) : list N :=
  match n with
  | O => []
  | S n' => lo :: countN n' (N.succ lo)
  end.

Lemma in_countN (n : nat) :
  forall lo x, (lo <= x)%N -> (x < lo + N.of_nat n)%N -> In x (countN n lo).
Proof.
  induction n as [|n IH]; intros lo x H1 H2; [lia|]. cbn [countN].
  destruct (N.eq_dec lo x) as [->|Hne]; [now left|].
  right. apply IH; lia.
Qed.

Lemma py_str_length_4 (n : N) :
  (1000 <= n <= 9999)%N -> length (py_str n) = 4.
Proof.
  intros [H1 H2].
  assert (A : forallb (fun n => Nat.eqb (length (py_str n)) 4)
                      (countN (N.to_nat 9000) 1000) = true)
    by (vm_compute; reflexivity).
  rewrite forallb_forall in A. apply Nat.eqb_eq. apply A.
  apply in_countN; [lia|]. rewrite N2Nat.id. lia.
Qed.

Lemma py_str_length_le_2 (n : N) :
  (n <= 99)%N -> 1 <= length (py_str n) <= 2.
Proof.
  intros H.
  assert (A : forallb (fun n => (1 <=? length (py_str n))
                                && (length (py_str n) <=? 2))
                      (rangeN 0 100) = true)
    by (vm_compute; reflexivity).
  rewrite forallb_forall in A. specialize (A n).
  rewrite andb_true_iff, !Nat.leb_le in A. apply A. apply in_rangeN; lia.
Qed.

(** A date of any era prints with the western year: the era year plus the
    offset of the era.  For a four-digit western year and a month and a day
    of one or two characters, [western_str] has eight characters and
    [mynum_str] six, the two ending in the same month and day; for a
    western date [mynum_str] is [western_str] without the century, for a
    Japanese era it starts with the era year on two digits. *)
Theorem Date_strings (y : N) (m d : text) (e : era) :
  (1000 <= y + ERA_OFFSET e <= 9999)%N ->
  (e <> Ew -> (y <= 99)%N) ->
  1 <= length m <= 2 -> 1 <= length d <= 2 ->
  western_str (Date_init (py_str y) m d e)
  = py_str (y + ERA_OFFSET e) ++ zfill 2 m ++ zfill 2 d
  /\ length (western_str (Date_init (py_str y) m d e)) = 8
  /\ length (mynum_str (Date_init (py_str y) m d e)) = 6
  /\ (e = Ew -> mynum_str (Date_init (py_str y) m d e)
                = skipn 2 (western_str (Date_init (py_str y) m d e)))
  /\ (e <> Ew -> mynum_str (Date_init (py_str y) m d e)
                 = zfill 2 (py_str y) ++ zfill 2 m ++ zfill 2 d).
Proof.
  intros Hy Hjp Hm Hd.
  pose proof (py_str_length_4 Hy) as Hlen.
  assert (Hzm : length (zfill 2 m) = 2) by (apply zfill_length; lia).
  assert (Hzd : length (zfill 2 d) = 2) by (apply zfill_length; lia).
  unfold western_str, mynum_str, Date_init.
  cbn [date_y date_m date_d date_jpy]. rewrite py_int_str.
  split; [reflexivity|]. split; [rewrite !length_app; lia|].
  assert (Hw : e = Ew ->
               last2 (py_str (y + ERA_OFFSET e))
               = skipn 2 (py_str (y + ERA_OFFSET e))).
  { intros _. unfold last2. now rewrite Hlen. }
  split; [|split].
  - destruct e; try (rewrite !length_app, zfill_length;
                     [lia | apply py_str_length_le_2; apply Hjp; discriminate]).
    rewrite !length_app. unfold last2. rewrite length_skipn. lia.
  - intros ->. rewrite Hw by reflexivity.
    rewrite skipn_app, Hlen. cbn [Nat.sub skipn]. reflexivity.
  - intros Hne. destruct e; try reflexivity. congruence.
Qed.

Lemma Date_strings_witness :
  western_str (Date_init (py_str 3) (U "2") (U "22") Eh)
  = py_str (3 + ERA_OFFSET Eh) ++ zfill 2 (U "2") ++ zfill 2 (U "22")
  /\ length (western_str (Date_init (py_str 3) (U "2") (U "22") Eh)) = 8
  /\ length (mynum_str (Date_init (py_str 3) (U "2") (U "22") Eh)) = 6
  /\ (Eh = Ew -> mynum_str (Date_init (py_str 3) (U "2") (U "22") Eh)
                 = skipn 2 (western_str
                              (Date_init (py_str 3) (U "2") (U "22") Eh)))
  /\ (Eh <> Ew -> mynum_str (Date_init (py_str 3) (U "2") (U "22") Eh)
                  = zfill 2 (py_str 3) ++ zfill 2 (U "2") ++ zfill 2 (U "22")).
Proof.
  apply (@Date_strings 3%N (U "2") (U "22") Eh).
  - simpl. lia.
  - intros _. lia.
  - simpl. lia.
  - simpl. lia.
Defined.

(* ===================================================================== *)
(** * Dates written with the name of a Japanese era                       *)
(* ===================================================================== *)

(** The western pattern needs four ASCII digits in a row. *)
Definition four_digits (t : text) : bool :=
  match t with
  | a :: b :: c :: d :: _ =>
    is_ascii_digit a && is_ascii_digit b && is_ascii_digit c && is_ascii_digit d
  | _ => false
  end.

Lemma chr_digit (x a : char) :
  is_ascii_digit x = true -> cls_match (Of [IChr x]) a = true ->
  is_ascii_digit a = true.
Proof.
  intros Hx H. cbn in H. rewrite orb_false_r in H. unfold char_eqb in H.
  apply N.eqb_eq in H. now subst.
Qed.

Lemma rng_digit (a : char) :
  cls_match (Of [IRange 48%N 57%N]) a = true -> is_ascii_digit a = true.
Proof. intros H. cbn in H. now rewrite orb_false_r in H. Qed.

Lemma western_needs_year (pos : nat) (rest : text) (cs : caps) (k : cont) :
  four_digits rest = false -> mt (DATE_pattern Ew) pos rest cs k = None.
Proof.
  intros Hfd. rewrite DATE_pattern_Ew. cbn [mt]. unfold western_year.
  cbn [mt].
  destruct rest as [|a [|b [|c [|d r]]]];
    cbn [rep_cls hi_open hi_pred pred Nat.eqb andb orelse];
    repeat match goal with
           | |- context [cls_match ?c ?x] =>
             let E := fresh "E" in
             destruct (cls_match c x) eqn:E;
             cbn [rep_cls hi_open hi_pred pred Nat.eqb andb orelse]
           end; try reflexivity.
  all: try (exfalso; cbn [four_digits] in Hfd;
    repeat match goal with
           | H : cls_match (Of [IChr _]) _ = true |- _ =>
             apply chr_digit in H; [|reflexivity]
           | H : cls_match (Of [IRange _ _]) _ = true |- _ =>
             apply rng_digit in H
           end;
    repeat match goal with H : is_ascii_digit _ = true |- _ => rewrite H in Hfd; clear H end;
    discriminate).
Qed.


(** No position of the text starts with four ASCII digits. *)
Fixpoint no_year (t : text) : bool :=
  negb (four_digits t) && match t with [] => true | _ :: t' => no_year t' end.

Lemma search_western_none (rest : text) :
  forall pos, no_year rest = true -> search_from (DATE_pattern Ew) pos rest = None.
Proof.
  induction rest as [|x rest IH]; intros pos H; rewrite search_from_eq.
  - now rewrite western_needs_year.
  - cbn [no_year] in H. apply andb_true_iff in H. destruct H as [H1 H2].
    apply negb_true_iff in H1. rewrite (@western_needs_year pos (x :: rest) [] accept H1). auto.
Qed.

Lemma finditer_western_none (t : text) :
  no_year t = true -> finditer (DATE_pattern Ew) t = [].
Proof.
  intros H. unfold finditer. cbn [finditer_from].
  now rewrite search_western_none.
Qed.

Lemma four_digits_stop (s : text) (x : char) (t : text) :
  length s <= 3 -> is_ascii_digit x = false -> four_digits (s ++ x :: t) = false.
Proof.
  intros Hs Hx.
  destruct s as [|a [|b [|c [|? ?]]]]; simpl in Hs; try lia; cbn [app].
  - destruct t as [|? [|? [|? ?]]]; cbn [four_digits]; auto. now rewrite Hx.
  - destruct t as [|? [|? ?]]; cbn [four_digits]; auto.
    now rewrite Hx, andb_false_r.
  - destruct t as [|? ?]; cbn [four_digits]; auto.
    now rewrite Hx, andb_false_r.
  - cbn [four_digits]. now rewrite Hx, andb_false_r.
Qed.

Lemma no_year_short (s : text) (x : char) (t : text) :
  length s <= 3 -> is_ascii_digit x = false ->
  no_year (s ++ x :: t) = no_year t.
Proof.
  revert x t. induction s as [|a s IH]; intros x t Hs Hx.
  - cbn [app no_year].
    change (x :: t) with ([] ++ x :: t) at 1.
    rewrite four_digits_stop by (simpl; auto; lia). reflexivity.
  - change ((a :: s) ++ x :: t) with (a :: (s ++ x :: t)).
    cbn [no_year].
    change (a :: (s ++ x :: t)) with ((a :: s) ++ x :: t).
    rewrite four_digits_stop by auto. cbn [negb andb].
    apply IH; auto. simpl in Hs. lia.
Qed.

(** The name of an era, the last year its pattern admits, and a date
    written with the name, the year, the month and the day. *)
Definition era_name (e : era) : text :=
  match e with
  | Er => U "令和" | Eh => U "平成" | Es => U "昭和"
  | Et => U "大正" | Em => U "明治" | Ew => []
  end.

Definition era_years (e : era) : N :=
  match e with
  | Er => 99 | Eh => 49 | Es => 64 | Et => 15 | Em => 45 | Ew => 0
  end%N.

Definition era_date (e : era) (y m d : N) : text :=
  era_name e ++ py_str y ++ U "年" ++ py_str m ++ U "月" ++ py_str d ++ U "日".

(** What comes before [MONTH_DATE] in the pattern of an era. *)
Definition era_head (e : era) : list re :=
  match e with
  | Er => [ Grp 1 (alts [lit (U "令和"); lit (U "合和"); lit (U "令")]);
            opt (Of [INonDigit]);
            Grp 2 year_1_99 ]
  | Eh => [ Grp 1 (alts [lit (U "平成"); lit (U "平"); lit (U "成")]);
            Grp 2 (alts [ seqs [chr (ch "0"); One (Of [rng "1" "9"])];
                          One (Of [rng "1" "9"]);
                          seqs [One (Of [rng "1" "4"]); One (Of [rng "0" "9"])] ]) ]
  | Es => [ Grp 1 (alts [lit (U "昭和"); lit (U "昭")]);
            Grp 2 (alts [ seqs [chr (ch "0"); One (Of [rng "1" "9"])];
                          One (Of [rng "1" "9"]);
                          seqs [One (Of [rng "1" "5"]); One (Of [rng "0" "9"])];
                          seqs [chr (ch "6"); One (Of [rng "0" "4"])] ]) ]
  | Et => [ Grp 1 (alts [lit (U "大正"); lit (U "大"); lit (U "正")]);
            Grp 2 (alts [ seqs [chr (ch "0"); One (Of [rng "1" "9"])];
                          One (Of [rng "1" "9"]);
                          seqs [chr (ch "1"); One (Of [rng "0" "5"])] ]) ]
  | Em => [ Grp 1 (alts [lit (U "明治"); lit (U "明"); lit (U "治")]);
            Grp 2 (alts [ seqs [chr (ch "0"); One (Of [rng "1" "9"])];
                          One (Of [rng "1" "9"]);
                          seqs [One (Of [rng "1" "3"]); One (Of [rng "0" "9"])];
                          seqs [chr (ch "4"); One (Of [rng "0" "5"])] ]) ]
  | Ew => []
  end.

Lemma DATE_mt_head (e : era) (pos : nat) (rest : text) (cs : caps) (k : cont) :
  e <> Ew ->
  mt (DATE_pattern e) pos rest cs k
  = mt (seqs (era_head e)) pos rest cs (fun p r c => mt (MONTH_DATE 2) p r c k).
Proof. destruct e; intros H; try congruence; reflexivity. Qed.

(** A continuation that gives up on a text starting with an ASCII digit. *)
Definition digit_dead (k : cont) : Prop :=
  forall p x r c, is_ascii_digit x = true -> k p (x :: r) c = None.

Lemma MONTH_DATE_digit_dead (g : nat) (k : cont) :
  digit_dead (fun p r c => mt (MONTH_DATE g) p r c k).
Proof.
  intros p x r c Hx. unfold MONTH_DATE. cbn [seqs mt rep_cls].
  assert (E : cls_match nondigit_or_dash x = false).
  { unfold nondigit_or_dash. cbn [cls_match existsb citem_match].
    rewrite (ascii_digit_decimal x Hx). cbn [negb orb].
    unfold is_ascii_digit in Hx. apply andb_true_iff in Hx.
    destruct Hx as [H1 H2]. apply N.leb_le in H1.
    unfold char_eqb. rewrite orb_false_r. apply N.eqb_neq.
    change (ch "-") with 45%N. lia. }
  rewrite E. now rewrite andb_false_r.
Qed.

Ltac kill_digit_calls k Hk :=
  repeat match goal with
         | |- context [k ?p (?x :: ?r) ?c] =>
           rewrite (Hk p x r c (eq_refl true))
         end.

Ltac era_prefix_case k Hk Hres :=
  vm_compute in Hres; vm_compute; kill_digit_calls k Hk; cbv beta iota;
  rewrite ?Hres; reflexivity.

Lemma era_prefix (e : era) (y : N) (k : cont) (tl : text) (res : mres) :
  e <> Ew -> In y (rangeN 1 (N.to_nat (era_years e))) -> digit_dead k ->
  k (2 + length (py_str y)) (24180%N :: tl) [(2, py_str y); (1, era_name e)]
  = Some res ->
  mt (seqs (era_head e)) 0 (era_name e ++ py_str y ++ 24180%N :: tl) [] k
  = Some res.
Proof.
  intros He Hy Hk Hres.
  destruct e; try congruence; vm_compute in Hy;
    repeat (destruct Hy as [<-|Hy]; [era_prefix_case k Hk Hres|]);
    contradiction.
Qed.

(** The month and the day after the era year: [年m月d日]. *)
Definition month_day_tail (m d : N) : text :=
  24180%N :: py_str m ++ 26376%N :: py_str d ++ [26085%N].

Lemma month_day_groups (pos : nat) (m d : N) (cs : caps) :
  pos = 3 \/ pos = 4 ->
  In m (rangeN 1 12) -> In d (rangeN 1 31) ->
  mt (MONTH_DATE 2) pos (month_day_tail m d) cs accept
  = Some (pos + length (month_day_tail m d), [],
          (7, [26085%N]) :: (6, py_str d) :: (5, [26376%N]) :: (4, py_str m)
          :: (3, [24180%N]) :: cs).
Proof.
  intros Hp Hm Hd. vm_compute in Hm, Hd.
  destruct Hp as [->| ->];
    repeat (destruct Hm as [<-|Hm]); try contradiction;
      repeat (destruct Hd as [<-|Hd]); try contradiction;
        vm_compute; reflexivity.
Qed.

(** The characters of a date written with the name of an era. *)
Definition era_alphabet (e : era) : list char :=
  era_name e ++ U "年月日" ++ digits.

Lemma era_outside (e e' : era) :
  e <> Ew -> e' <> Ew -> e <> e' ->
  outside (era_alphabet e) (DATE_pattern e') = true.
Proof.
  destruct e, e'; intros H1 H2 H3; try congruence; vm_compute; reflexivity.
Qed.

Lemma era_alphabet_clean (e : era) (t : text) :
  over (era_alphabet e) t -> clean_date t = t.
Proof.
  intros Ho. apply (@clean_date_over (era_alphabet e)); auto.
  - apply not_in_b. destruct e; vm_compute; reflexivity.
  - destruct e; vm_compute; reflexivity.
Qed.

Lemma DATE_outside_nil (e : era) : outside [] (DATE_pattern e) = true.
Proof. destruct e; vm_compute; reflexivity. Qed.

Lemma finditer_whole (r : re) (t : text) (cs : caps) :
  outside [] r = true ->
  mt r 0 t [] accept = Some (length t, [], cs) ->
  finditer r t = [mkMatch 0 (length t) cs].
Proof.
  intros Hout Hm.
  assert (Hnil : forall pos, search_from r pos [] = None).
  { intros pos. apply (@search_from_outside []); auto. constructor. }
  destruct t as [|x t].
  - rewrite (@mt_outside [] r Hout) in Hm by constructor. discriminate.
  - unfold finditer. cbn [finditer_from]. rewrite search_from_eq, Hm.
    cbn [m_end m_start length Nat.eqb]. f_equal.
    rewrite (@skipn_all2 _ (S (length t) - 0) (x :: t)) by (simpl; lia).
    cbn [finditer_from]. now rewrite Hnil.
Qed.

Lemma get_date_of_match (e : era) (t : text) (cs : caps) :
  e <> Ew ->
  over (era_alphabet e) t -> no_year t = true ->
  mt (DATE_pattern e) 0 t [] accept = Some (length t, [], cs) ->
  isdigit (cap 1 cs) = false ->
  get_date t = [Date_init (cap 2 cs) (cap 4 cs) (cap 6 cs) e].
Proof.
  intros He Ho Hny Hm Hd.
  pose proof (@finditer_whole (DATE_pattern e) t cs (DATE_outside_nil e) Hm) as Hown.
  pose proof (finditer_western_none t Hny) as Hw.
  assert (Hother : forall e', e' <> Ew -> e <> e' ->
                              finditer (DATE_pattern e') t = []).
  { intros e' H1 H2. apply (@finditer_outside (era_alphabet e)); auto.
    now apply era_outside. }
  unfold get_date. cbv zeta. rewrite (@era_alphabet_clean e t Ho).
  unfold DATE, findall_groups. cbn [map flat_map fst snd].
  rewrite Hw.
  destruct e; try congruence; rewrite Hown;
    rewrite !Hother by discriminate;
    cbn [map app DATE_groups seq m_caps]; unfold date_of_groups; cbn [nth];
    match goal with
    | |- context [if ?b then _ else _] =>
      replace b with false by (symmetry; exact Hd)
    end; reflexivity.
Qed.

Lemma era_date_tail (e : era) (y m d : N) :
  era_date e y m d = era_name e ++ py_str y ++ month_day_tail m d.
Proof. reflexivity. Qed.

Lemma era_name_length (e : era) : e <> Ew -> length (era_name e) = 2.
Proof. destruct e; intros H; try congruence; reflexivity. Qed.

Lemma era_date_match (e : era) (y m d : N) :
  e <> Ew ->
  In y (rangeN 1 (N.to_nat (era_years e))) ->
  In m (rangeN 1 12) -> In d (rangeN 1 31) ->
  mt (DATE_pattern e) 0 (era_date e y m d) [] accept
  = Some (length (era_date e y m d), [],
          [ (7, [26085%N]); (6, py_str d); (5, [26376%N]); (4, py_str m);
            (3, [24180%N]); (2, py_str y); (1, era_name e) ]).
Proof.
  intros He Hy Hm Hd. rewrite DATE_mt_head by assumption.
  rewrite era_date_tail.
  assert (Hlen : length (py_str y) = 1 \/ length (py_str y) = 2).
  { assert (Hr : (y <= 99)%N).
    { apply in_map_iff in Hy. destruct Hy as (i & <- & Hi).
      apply in_seq in Hi.
      destruct e; try congruence; unfold era_years in Hi; lia. }
    pose proof (py_str_length_le_2 Hr). lia. }
  apply era_prefix; auto.
  - apply MONTH_DATE_digit_dead.
  - change (24180%N :: py_str m ++ 26376%N :: py_str d ++ [26085%N])
      with (month_day_tail m d).
    rewrite month_day_groups by (auto; lia).
    rewrite !length_app, (era_name_length He).
    now rewrite Nat.add_assoc.
Qed.


Lemma over_incl (A : list char) (t : text) : incl t A -> over A t.
Proof. intros H. apply Forall_forall. intros c Hc. now apply H. Qed.

Lemma py_str_over (A : list char) (n : N) : incl digits A -> over A (py_str n).
Proof.
  intros H. apply Forall_forall. intros c Hc. apply H. apply ascii_digit_in.
  pose proof (text_of_uint_digits (N.to_uint n)) as Hd.
  rewrite forallb_forall in Hd. now apply Hd.
Qed.

Lemma era_date_over (e : era) (y m d : N) :
  over (era_alphabet e) (era_date e y m d).
Proof.
  assert (Hd : incl digits (era_alphabet e)).
  { intros c Hc. unfold era_alphabet. apply in_or_app. right.
    apply in_or_app. now right. }
  assert (Hk : incl (U "年月日") (era_alphabet e)).
  { intros c Hc. unfold era_alphabet. apply in_or_app. right.
    apply in_or_app. now left. }
  unfold era_date.
  repeat apply over_app; try (now apply py_str_over).
  - apply over_incl. intros c Hc. unfold era_alphabet. apply in_or_app. now left.
  - apply over_incl. intros c Hc. apply Hk. simpl in *. tauto.
  - apply over_incl. intros c Hc. apply Hk. simpl in *. tauto.
  - apply over_incl. intros c Hc. apply Hk. simpl in *. tauto.
Qed.

Lemma era_date_no_year (e : era) (y m d : N) :
  e <> Ew -> (y <= 99)%N -> (m <= 99)%N -> (d <= 99)%N ->
  no_year (era_date e y m d) = true.
Proof.
  intros He Hy Hm Hd. rewrite era_date_tail. unfold month_day_tail.
  pose proof (py_str_length_le_2 Hy). pose proof (py_str_length_le_2 Hm).
  pose proof (py_str_length_le_2 Hd).
  assert (E : exists a b, era_name e = [a; b] /\ is_ascii_digit a = false
                          /\ is_ascii_digit b = false).
  { destruct e; try congruence; eexists _, _; repeat split; reflexivity. }
  destruct E as (a & b & -> & Ha & Hb).
  change ([a; b] ++ py_str y ++ 24180%N :: py_str m ++ 26376%N :: py_str d ++ [26085%N])
    with ([] ++ a :: [] ++ b :: py_str y ++ 24180%N :: py_str m
             ++ 26376%N :: py_str d ++ [26085%N]).
  rewrite !no_year_short by (simpl; auto; lia). reflexivity.
Qed.

Lemma in_rangeN_inv (lo : N) (n : nat) (x : N) :
  In x (rangeN lo n) -> (lo <= x < lo + N.of_nat n)%N.
Proof.
  intros H. apply in_map_iff in H. destruct H as (i & <- & Hi).
  apply in_seq in Hi. lia.
Qed.

Lemma get_date_era_list (e : era) (y m d : N) :
  e <> Ew ->
  In y (rangeN 1 (N.to_nat (era_years e))) ->
  In m (rangeN 1 12) -> In d (rangeN 1 31) ->
  get_date (era_date e y m d)
  = [Date_init (py_str y) (py_str m) (py_str d) e].
Proof.
  intros He Hy Hm Hd.
  pose proof (in_rangeN_inv _ _ _ Hy) as By.
  pose proof (in_rangeN_inv _ _ _ Hm) as Bm.
  pose proof (in_rangeN_inv _ _ _ Hd) as Bd.
  assert (Hy99 : (y <= 99)%N)
    by (destruct e; try congruence; unfold era_years in By; lia).
  pose proof (era_date_over e y m d) as Ho.
  assert (Hny : no_year (era_date e y m d) = true)
    by (apply era_date_no_year; auto; lia).
  pose proof (@era_date_match e y m d He Hy Hm Hd) as Hmt.
  assert (Hdig : isdigit (era_name e) = false)
    by (destruct e; try congruence; reflexivity).
  exact (@get_date_of_match e (era_date e y m d) _ He Ho Hny Hmt Hdig).
Qed.

Lemma western_str_era (e : era) (y m d : N) :
  western_str (Date_init (py_str y) (py_str m) (py_str d) e)
  = py_str (y + ERA_OFFSET e) ++ zfill 2 (py_str m) ++ zfill 2 (py_str d).
Proof.
  unfold western_str, Date_init. cbn [date_y date_m date_d].
  now rewrite py_int_str.
Qed.

(** A date written with the name of a Japanese era, the era year, the
    month and the day in digits ([平成3年2月22日]) is read as exactly one
    date, of that era, and its western string has the year of the era plus
    the offset of the era: for every era year the pattern of the era
    admits, every month from 1 to 12 and every day from 1 to 31. *)
Theorem get_date_era (e : era) (y m d : N) :
  e <> Ew ->
  (1 <= y <= era_years e)%N -> (1 <= m <= 12)%N -> (1 <= d <= 31)%N ->
  get_date (era_date e y m d) = [Date_init (py_str y) (py_str m) (py_str d) e]
  /\ date_western_str (era_date e y m d)
     = [py_str (y + ERA_OFFSET e) ++ zfill 2 (py_str m) ++ zfill 2 (py_str d)].
Proof.
  intros He Hy Hm Hd.
  assert (E : get_date (era_date e y m d)
              = [Date_init (py_str y) (py_str m) (py_str d) e]).
  { apply get_date_era_list; auto.
    - apply in_rangeN; [lia|]. rewrite N2Nat.id. lia.
    - apply in_rangeN; simpl; lia.
    - apply in_rangeN; simpl; lia. }
  split; [exact E|]. unfold date_western_str. rewrite E. cbn [map].
  now rewrite western_str_era.
Qed.

Lemma get_date_era_witness :
  get_date (era_date Eh 3 2 22)
  = [Date_init (py_str 3) (py_str 2) (py_str 22) Eh]
  /\ date_western_str (era_date Eh 3 2 22)
     = [py_str (3 + ERA_OFFSET Eh) ++ zfill 2 (py_str 2) ++ zfill 2 (py_str 22)].
Proof.
  apply (@get_date_era Eh 3%N 2%N 22%N).
  - discriminate.
  - simpl. lia.
  - lia.
  - lia.
Defined.

Lemma text_eqb_eq (a b : text) : text_eqb a b = true -> a = b.
Proof.
  revert b. induction a as [|x a IH]; intros [|y b]; simpl; try discriminate; auto.
  rewrite andb_true_iff. unfold char_eqb. rewrite N.eqb_eq.
  intros [-> H]. f_equal. auto.
Qed.

(** The first year of an era written [元年]. *)
Definition first_year_date (e : era) (m d : N) : text :=
  era_name e ++ U "元年" ++ py_str m ++ U "月" ++ py_str d ++ U "日".

Lemma clean_first_year (e : era) (m d : N) :
  e <> Ew -> In m (rangeN 1 12) -> In d (rangeN 1 31) ->
  clean_date (first_year_date e m d) = era_date e 1 m d.
Proof.
  intros He Hm Hd.
  assert (A : forallb (fun e =>
                forallb (fun m =>
                  forallb (fun d =>
                    text_eqb (clean_date (first_year_date e m d))
                             (era_date e 1 m d))
                    (rangeN 1 31)) (rangeN 1 12)) [Er; Eh; Es; Et; Em] = true)
    by (vm_compute; reflexivity).
  rewrite forallb_forall in A.
  assert (Hin : In e [Er; Eh; Es; Et; Em])
    by (destruct e; simpl; try tauto; congruence).
  specialize (A e Hin). rewrite forallb_forall in A.
  specialize (A m Hm). rewrite forallb_forall in A.
  now apply text_eqb_eq, A.
Qed.

Lemma get_date_clean (t t' : text) :
  clean_date t = t' -> clean_date t' = t' -> get_date t = get_date t'.
Proof. intros H1 H2. unfold get_date. cbv zeta. now rewrite H1, H2. Qed.

(** The first year of a Japanese era written [元年] is read as the year 1
    of the era: the date of [令和元年5月1日] is 1 May 2019. *)
Theorem get_date_first_year (e : era) (m d : N) :
  e <> Ew -> (1 <= m <= 12)%N -> (1 <= d <= 31)%N ->
  get_date (first_year_date e m d)
  = [Date_init (U "1") (py_str m) (py_str d) e]
  /\ date_western_str (first_year_date e m d)
     = [py_str (1 + ERA_OFFSET e) ++ zfill 2 (py_str m) ++ zfill 2 (py_str d)].
Proof.
  intros He Hm Hd.
  assert (Im : In m (rangeN 1 12)) by (apply in_rangeN; simpl; lia).
  assert (Id : In d (rangeN 1 31)) by (apply in_rangeN; simpl; lia).
  assert (E : get_date (first_year_date e m d)
              = [Date_init (py_str 1) (py_str m) (py_str d) e]).
  { rewrite (@get_date_clean _ (era_date e 1 m d)).
    - apply get_date_era_list; auto.
      apply in_rangeN; [lia|]. rewrite N2Nat.id.
      destruct e; try congruence; simpl; lia.
    - now apply clean_first_year.
    - apply (@era_alphabet_clean e). apply era_date_over. }
  split; [exact E|]. unfold date_western_str. rewrite E. cbn [map].
  now rewrite western_str_era.
Qed.

Lemma get_date_first_year_witness :
  get_date (first_year_date Er 5 1)
  = [Date_init (U "1") (py_str 5) (py_str 1) Er]
  /\ date_western_str (first_year_date Er 5 1)
     = [py_str (1 + ERA_OFFSET Er) ++ zfill 2 (py_str 5) ++ zfill 2 (py_str 1)].
Proof.
  apply (@get_date_first_year Er 5%N 1%N).
  - discriminate.
  - lia.
  - lia.
Defined.

(* ===================================================================== *)
(** * [finders/simple] and [finders/wide]                                  *)
(* ===================================================================== *)

(** A finder is configured with a matcher of [match] and an extraction
    function of [extract]; [R] is what the extraction function returns and
    [res_truthy] the truth value Python gives it ([if res:]).  The finders
    return [None] or a result of the extraction function. *)
Section Finders.

Variable R : Type.
Variable res_truthy : R -> bool.
Variable mf : matcher.
Variable ef : text -> R.

(** [SimpleFinder.match_one]: the text returned for the first line whose
    flag is true. *)
Fixpoint simple_match_one (texts : Page) : option text :=
  match texts with
  | [] => None
  | line :: texts' =>
    let (ret, t) := mf (line_text line) in
    if truthy ret then Some t else simple_match_one texts'
  end.

(** [SimpleFinder.extract] *)
Definition simple_extract (texts : Page) : option R :=
  match simple_match_one texts with
  | Some t => Some (ef t)
  | None => None
  end.

(** [WideFinder.extract]: the loop over the line indices by descending
    score ([argsort] of the negated scores; numpy reads the sort kind by
    its first letter, so the kind of the source is the stable merge
    sort). *)
Fixpoint wide_scan (scs : list Z) (txs : list text) (order : list nat)
  : option R :=
  match order with
  | [] => None
  | idx :: order' =>
    if Z.eqb (nth idx scs 0%Z) 0 then None
    else let res := ef (nth idx txs []) in
         if res_truthy res then Some res else wide_scan scs txs order'
  end.

Definition wide_extract (texts : Page) : option R :=
  let (scs, txs) := score mf texts false in
  wide_scan scs txs (argsort_neg scs).

Lemma simple_match_one_spec (p : Page) :
  match simple_match_one p with
  | Some t =>
    exists i line,
      nth_error p i = Some line
      /\ truthy (fst (mf (line_text line))) = true
      /\ t = snd (mf (line_text line))
      /\ forall j l, j < i -> nth_error p j = Some l ->
                     truthy (fst (mf (line_text l))) = false
  | None => forall line, In line p -> truthy (fst (mf (line_text line))) = false
  end.
Proof.
  induction p as [|line p IH]; simpl.
  - intros line [].
  - destruct (mf (line_text line)) as [ret t] eqn:E.
    destruct (truthy ret) eqn:Et.
    + exists 0, line. simpl. rewrite E. simpl. repeat split; auto.
      intros j l Hj. lia.
    + destruct (simple_match_one p) as [t'|].
      * destruct IH as (i & l & Hn & Ht & -> & Hbefore).
        exists (S i), l. simpl. repeat split; auto.
        intros [|j] l' Hj Hl'; simpl in Hl'.
        -- inversion Hl'; subst. now rewrite E.
        -- apply (Hbefore j); auto. lia.
      * intros l [<-|Hl]; auto. now rewrite E.
Qed.


Lemma wide_scan_some (scs : list Z) (txs : list text) (order : list nat)
      (r : R) :
  wide_scan scs txs order = Some r ->
  exists pre idx post,
    order = pre ++ idx :: post
    /\ r = ef (nth idx txs []) /\ res_truthy r = true
    /\ nth idx scs 0%Z <> 0%Z
    /\ forall j, In j pre -> res_truthy (ef (nth j txs [])) = false.
Proof.
  induction order as [|idx order IH]; simpl; [discriminate|].
  destruct (Z.eqb (nth idx scs 0%Z) 0) eqn:Ez; [discriminate|].
  apply Z.eqb_neq in Ez.
  destruct (res_truthy (ef (nth idx txs []))) eqn:Et.
  - intros H. inversion H; subst. exists [], idx, order.
    repeat split; auto. intros j [].
  - intros H. destruct (IH H) as (pre & i & post & -> & Hr & Ht & Hs & Hpre).
    exists (idx :: pre), i, post. repeat split; auto.
    intros j [<-|Hj]; auto.
Qed.

Lemma wide_scan_none (scs : list Z) (txs : list text) (order : list nat) :
  wide_scan scs txs order = None ->
  (forall j, In j order -> res_truthy (ef (nth j txs [])) = false)
  \/ exists pre idx post,
      order = pre ++ idx :: post /\ nth idx scs 0%Z = 0%Z
      /\ forall j, In j pre -> res_truthy (ef (nth j txs [])) = false.
Proof.
  induction order as [|idx order IH]; simpl.
  - intros _. left. intros j [].
  - destruct (Z.eqb (nth idx scs 0%Z) 0) eqn:Ez.
    + intros _. right. exists [], idx, order. apply Z.eqb_eq in Ez.
      repeat split; auto. intros j [].
    + destruct (res_truthy (ef (nth idx txs []))) eqn:Et; [discriminate|].
      intros H. destruct (IH H) as [Hall|(pre & i & post & -> & Hz & Hpre)].
      * left. intros j [<-|Hj]; auto.
      * right. exists (idx :: pre), i, post. repeat split; auto.
        intros j [<-|Hj]; auto.
Qed.

End Finders.

Lemma score_texts (m : matcher) (p : Page) (b : bool) :
  snd (score m p b) = map (fun line => snd (m (line_text line))) p.
Proof. unfold score. cbv zeta. destruct b; simpl; now rewrite map_map. Qed.

Lemma score_text_at (m : matcher) (p : Page) (b : bool) (i : nat) (line : Line) :
  nth_error p i = Some line ->
  nth i (snd (score m p b)) [] = snd (m (line_text line)).
Proof.
  intros H. rewrite score_texts.
  apply nth_error_nth. now rewrite nth_error_map, H.
Qed.

Lemma hit_at_nonneg (m : matcher) (p : Page) (i : nat) :
  (forall t, (0 <= py_int_of (fst (m t)))%Z) -> (0 <= hit_at m p i)%Z.
Proof.
  intros H. unfold hit_at. destruct (nth_error p i); [apply H | lia].
Qed.

Lemma hit_before_nonneg (m : matcher) (p : Page) (i : nat) :
  (forall t, (0 <= py_int_of (fst (m t)))%Z) -> (0 <= hit_before m p i)%Z.
Proof.
  intros H. destruct i; simpl; [lia | now apply (@hit_at_nonneg m p i)].
Qed.

Lemma score_ext_nonneg (m : matcher) (p : Page) (i : nat) :
  (forall t, (0 <= py_int_of (fst (m t)))%Z) ->
  (0 <= nth i (fst (score m p false)) 0)%Z.
Proof.
  intros H. destruct (Nat.lt_ge_cases i (length p)) as [Hi|Hi].
  - rewrite score_ext_nth by assumption.
    pose proof (@hit_at_nonneg m p i H).
    pose proof (@hit_before_nonneg m p i H).
    pose proof (@hit_at_nonneg m p (S i) H). lia.
  - rewrite nth_overflow; [lia|]. now rewrite score_ext_length.
Qed.

Lemma sorted_after (A : Type) (lt : A -> A -> Prop) (pre post : list A)
      (x y : A) :
  StronglySorted lt (pre ++ x :: post) -> In y post -> lt x y.
Proof.
  induction pre as [|a pre IH]; simpl; intros Hs Hy.
  - inversion Hs as [|? ? _ Hall]; subst. rewrite Forall_forall in Hall. auto.
  - inversion Hs; subst. auto.
Qed.

Lemma wide_extract_none (R : Type) (res_truthy : R -> bool) (mf : matcher)
      (ef : text -> R) (p : Page) :
  (forall t, (0 <= py_int_of (fst (mf t)))%Z) ->
  wide_extract res_truthy mf ef p = None ->
  forall j, j < length p -> nth j (fst (score mf p false)) 0%Z <> 0%Z ->
            res_truthy (ef (nth j (snd (score mf p false)) [])) = false.
Proof.
  intros Hnn. unfold wide_extract.
  pose proof (score_ext_length mf p) as Hlen.
  pose proof (fun i => @score_ext_nonneg mf p i Hnn) as Hpos.
  destruct (score mf p false) as [scs txs]. cbn [fst snd] in *.
  intros E j Hj Hs.
  assert (Hin : In j (argsort_neg scs)).
  { apply (Permutation_in _ (Permutation_sym (argsort_neg_perm scs))).
    apply in_seq. lia. }
  apply wide_scan_none in E.
  destruct E as [Hall|(pre & idx & post & Ho & Hz & Hpre)]; auto.
  rewrite Ho in Hin. apply in_app_or in Hin.
  destruct Hin as [Hin|[<-|Hin]]; auto; [congruence|].
  exfalso. pose proof (argsort_neg_sorted scs) as Hsorted.
  rewrite Ho in Hsorted.
  pose proof (@sorted_after _ (precedes scs) pre post idx j Hsorted Hin) as Hp.
  unfold precedes in Hp. specialize (Hpos j). lia.
Qed.

(** [WideFinder.extract] answers from the line that comes first, by
    descending extended score with ties in line order, among the lines
    whose extraction is true in Python's sense: the result is true, and
    every line that precedes the chosen one gave a false extraction.  It
    is [None] only when every line with a non-zero score gave a false
    extraction. *)
Theorem wide_extract_best (R : Type) (res_truthy : R -> bool) (mf : matcher)
        (ef : text -> R) (p : Page) :
  (forall t, (0 <= py_int_of (fst (mf t)))%Z) ->
  match wide_extract res_truthy mf ef p with
  | Some r =>
    res_truthy r = true
    /\ exists idx,
      idx < length p
      /\ nth idx (fst (score mf p false)) 0%Z <> 0%Z
      /\ r = ef (nth idx (snd (score mf p false)) [])
      /\ forall j, j < length p -> precedes (fst (score mf p false)) j idx ->
                   res_truthy (ef (nth j (snd (score mf p false)) [])) = false
  | None =>
    forall j, j < length p -> nth j (fst (score mf p false)) 0%Z <> 0%Z ->
              res_truthy (ef (nth j (snd (score mf p false)) [])) = false
  end.
Proof.
  intros Hnn.
  destruct (wide_extract res_truthy mf ef p) as [r|] eqn:E;
    [|now apply wide_extract_none].
  unfold wide_extract in E.
  pose proof (score_ext_length mf p) as Hlen.
  destruct (score mf p false) as [scs txs]. cbn [fst snd] in *.
  apply wide_scan_some in E.
  destruct E as (pre & idx & post & Ho & -> & Ht & Hs & Hpre).
  split; [exact Ht|]. exists idx. repeat split; auto.
  - pose proof (argsort_neg_lt scs) as Hlt. rewrite Forall_forall in Hlt.
    rewrite <- Hlen. apply Hlt. rewrite Ho. apply in_or_app. right. now left.
  - intros j Hj Hp. apply Hpre.
    apply (@argsort_neg_before scs pre post idx j Ho); auto. lia.
Qed.

(** The page of the class documentation of [WideFinder]: the heading on one
    line, the date on the next. *)
Definition heading_then_date : Page :=
  [ mkLine [] (U "生年月日"); mkLine [] (U "1960年12月12日") ].

Definition nonempty (A : Type) (l : list A) : bool := negb (is_nil l).

Lemma birthday_match_nonneg (t : text) :
  (0 <= py_int_of (fst (birthday_match t)))%Z.
Proof.
  pose proof (birthday_match_flag t) as H. simpl in H.
  destruct H as [<-|[<-|[]]]; lia.
Qed.

Lemma wide_extract_best_witness :
  match wide_extract (@nonempty Date) birthday_match get_date
                     heading_then_date with
  | Some r =>
    nonempty r = true
    /\ exists idx,
      idx < length heading_then_date
      /\ nth idx (fst (score birthday_match heading_then_date false)) 0%Z
         <> 0%Z
      /\ r = get_date
               (nth idx (snd (score birthday_match heading_then_date false)) [])
      /\ forall j,
          j < length heading_then_date ->
          precedes (fst (score birthday_match heading_then_date false)) j idx ->
          nonempty
            (get_date
               (nth j (snd (score birthday_match heading_then_date false)) []))
          = false
  | None =>
    forall j,
      j < length heading_then_date ->
      nth j (fst (score birthday_match heading_then_date false)) 0%Z <> 0%Z ->
      nonempty
        (get_date
           (nth j (snd (score birthday_match heading_then_date false)) []))
      = false
  end.
Proof.
  apply (@wide_extract_best (list Date) (@nonempty Date) birthday_match
           get_date heading_then_date).
  exact birthday_match_nonneg.
Defined.

(** Whenever [SimpleFinder] extracts something true from its first matching
    line, [WideFinder] with the same configuration extracts something too:
    the line has a non-zero score and a true extraction, so the scan of
    [WideFinder] cannot end empty-handed. *)
Theorem wide_covers_simple (R : Type) (res_truthy : R -> bool) (mf : matcher)
        (ef : text -> R) (p : Page) (r : R) :
  (forall t, (0 <= py_int_of (fst (mf t)))%Z) ->
  simple_extract mf ef p = Some r -> res_truthy r = true ->
  exists r', wide_extract res_truthy mf ef p = Some r'
             /\ res_truthy r' = true.
Proof.
  intros Hnn Hs Ht.
  unfold simple_extract in Hs.
  pose proof (simple_match_one_spec mf p) as S.
  destruct (simple_match_one mf p) as [t|]; [|discriminate].
  destruct S as (i & line & Hn & Hf & -> & _). inversion Hs; subst r.
  assert (Hi : i < length p) by (apply nth_error_Some; congruence).
  destruct (wide_extract res_truthy mf ef p) as [r'|] eqn:W.
  - exists r'. split; [reflexivity|]. unfold wide_extract in W.
    destruct (score mf p false) as [scs txs].
    apply wide_scan_some in W. destruct W as (pre & idx & post & _ & -> & Hr & _).
    exact Hr.
  - exfalso.
    pose proof (@wide_extract_none R res_truthy mf ef p Hnn W i Hi) as W'.
    rewrite (@score_text_at mf p false i line Hn), Ht in W'.
    assert (Hsc : nth i (fst (score mf p false)) 0%Z <> 0%Z).
    { rewrite score_ext_nth by assumption.
      pose proof (@hit_before_nonneg mf p i Hnn).
      pose proof (@hit_at_nonneg mf p (S i) Hnn).
      assert (Hh : hit_at mf p i <> 0%Z).
      { unfold hit_at. rewrite Hn. unfold truthy in Hf.
        apply negb_true_iff, Z.eqb_neq in Hf. exact Hf. }
      pose proof (@hit_at_nonneg mf p i Hnn). lia. }
    specialize (W' Hsc). discriminate.
Qed.

Lemma wide_covers_simple_witness :
  exists r',
    wide_extract (@nonempty Date) birthday_match get_date
                 [mkLine [] (U "生年月日1960年12月12日")] = Some r'
    /\ nonempty r' = true.
Proof.
  apply (@wide_covers_simple (list Date) (@nonempty Date) birthday_match
           get_date [mkLine [] (U "生年月日1960年12月12日")]
           (get_date (U "生年月日1960年12月12日"))).
  - exact birthday_match_nonneg.
  - vm_compute. reflexivity.
  - vm_compute. reflexivity.
Defined.

(* ===================================================================== *)
(** * More on the steps of [DatesFinder.extract]                          *)
(* ===================================================================== *)

Lemma nms_removes_nothing_witness :
  exists s1,
    prepare dates_finder issue_until_page init_state = (inr tt, s1)
    /\ nms (length issue_until_page) s1 = (inr tt, s1).
Proof.
  apply (@nms_removes_nothing dates_finder issue_until_page init_state).
  - exact dates_finder_nodup.
  - apply init_settled.
Defined.

Lemma assign_loop_once (fuel : nat) (ths : list Z) :
  forall s,
    NoDup (keys (scores s)) ->
    scores_settled [] (scores s) = false ->
    for_each ths (fun th => assign_while (S (S fuel)) th []) s
    = for_each ths assign_pass s.
Proof.
  induction ths as [|th ths IH]; intros s Hnd Hns; [reflexivity|].
  cbn [for_each]. unfold bind.
  rewrite (@assign_while_once fuel th s Hnd Hns).
  pose proof (ks_assign_pass th s) as Hk.
  destruct (assign_pass th s) as [[e|[]] s1]; [reflexivity|].
  simpl in Hk. apply IH; now rewrite Hk.
Qed.

(** The threshold step makes one pass over the roles at each threshold,
    from the maximum score down to 1: the [while] loop around the pass
    ends after its first turn, since the scores it compares are the same
    before and after a pass. *)
Theorem assign_all_single_pass (fuel : nat) (s : state) (m : Z) :
  NoDup (keys (scores s)) ->
  scores_settled [] (scores s) = false ->
  np_max_all (scores s) = Some m ->
  assign_all (S (S fuel)) s = for_each (thresholds m) assign_pass s.
Proof.
  intros Hnd Hns Hm. unfold assign_all. unfold bind at 1. unfold get.
  unfold bind at 1. rewrite Hm. unfold lift, ret.
  now apply assign_loop_once.
Qed.

Lemma assign_all_single_pass_witness :
  assign_all while_fuel (before_assign dates_finder periods_page)
  = for_each (thresholds 2) assign_pass
             (before_assign dates_finder periods_page).
Proof.
  apply (@assign_all_single_pass 0 (before_assign dates_finder periods_page) 2).
  - vm_compute. repeat constructor; simpl; intuition discriminate.
  - vm_compute. reflexivity.
  - vm_compute. reflexivity.
Defined.

Lemma np_max_all_empty (d : dict (list Z)) :
  (forall k a, In (k, a) d -> a = []) -> np_max_all d = None.
Proof.
  intros H. unfold np_max_all, values.
  assert (E : concat (map snd d) = []).
  { induction d as [|[k a] d IH]; simpl; auto.
    rewrite (H k a) by now left. simpl. apply IH.
    intros k' a' Hin. apply (H k'). now right. }
  now rewrite E.
Qed.

(** On a page without lines [extract] raises [ValueError]: the maximum of
    the scores, which starts the threshold step, is taken over empty
    arrays. *)
Theorem extract_empty_page (f : DatesFinder) (s0 : state) :
  NoDup (keys (match_methods f)) ->
  In "YukoStYmd"%string (keys (match_methods f)) ->
  In "YukoEdYmd"%string (keys (match_methods f)) ->
  In "KofuYmd"%string (keys (match_methods f)) ->
  settled f s0 ->
  fst (extract f [] s0) = inl ValueError.
Proof.
  intros Hnd Hf Hu Hi Hs.
  destruct (@prepared f [] s0 Hnd Hs) as (s1 & Hprep & W1).
  unfold extract, extract_with, resolve. unfold bind at 1. rewrite Hprep.
  destruct (@ok_nms 0 _ Hnd s1 W1) as ([] & s2 & R2 & W2).
  unfold bind at 1. simpl length. rewrite R2.
  assert (O3 : ok (wf 0 (keys (match_methods f))) suppress_from
                  (fun _ => wf 0 (keys (match_methods f))))
    by (apply ok_suppress_from; auto).
  destruct (O3 s2 W2) as ([] & s3 & R3 & W3).
  unfold bind at 1. rewrite R3.
  assert (O4 : ok (wf 0 (keys (match_methods f))) two_dates
                  (fun _ => wf 0 (keys (match_methods f))))
    by (apply ok_two_dates; auto).
  destruct (O4 s3 W3) as ([] & s4 & R4 & W4).
  unfold bind at 1. rewrite R4.
  unfold bind at 1. unfold assign_all. unfold bind at 1. unfold get.
  unfold bind at 1.
  rewrite np_max_all_empty; [reflexivity|].
  intros k a Hin.
  assert (E : dict_get k (scores s4) = Some a).
  { apply dict_in_get; auto. now rewrite (wf_scores W4). }
  apply (wf_scores_len W4) in E. now destruct a.
Qed.

Lemma extract_empty_page_witness :
  fst (extract dates_finder [] init_state) = inl ValueError.
Proof.
  apply (@extract_empty_page dates_finder init_state).
  - exact dates_finder_nodup.
  - simpl. tauto.
  - simpl. tauto.
  - simpl. tauto.
  - apply init_settled.
Defined.

(** ** Where the dates of the result come from *)

(** [pc P m Q]: a run of [m] from a state satisfying [P] that returns
    leaves a value and a state satisfying [Q]. *)
Definition pc (A : Type) (P : state -> Prop) (m : M A)
           (Q : A -> state -> Prop) : Prop :=
  forall s a s', P s -> m s = (inr a, s') -> Q a s'.

Lemma pc_ret (A : Type) (P : state -> Prop) (a : A) :
  pc P (ret a) (fun _ => P).
Proof. intros s a' s' HP H. inversion H; subst. exact HP. Qed.

Lemma pc_raise (A : Type) (P : state -> Prop) (e : exn)
      (Q : A -> state -> Prop) : pc P (raise A e) Q.
Proof. intros s a s' _ H. discriminate. Qed.

Lemma pc_bind (A B : Type) (P : state -> Prop) (m : M A) (f : A -> M B)
      (Q : A -> state -> Prop) (R : B -> state -> Prop) :
  pc P m Q -> (forall a, pc (Q a) (f a) R) -> pc P (bind m f) R.
Proof.
  intros Hm Hf s b s' HP H. unfold bind in H.
  destruct (m s) as [[e|a] s1] eqn:E; [discriminate|].
  exact (Hf a s1 b s' (Hm s a s1 HP E) H).
Qed.

Lemma pc_get (A : Type) (P : state -> Prop) (f : state -> A) :
  pc P (get f) (fun a s => P s /\ a = f s).
Proof. intros s a s' HP H. inversion H; subst. auto. Qed.

Lemma pc_lift (A : Type) (P : state -> Prop) (e : exn) (o : option A) :
  pc P (lift e o) (fun a s => P s /\ o = Some a).
Proof.
  intros s a s' HP H. destruct o as [x|]; [|discriminate].
  inversion H; subst. auto.
Qed.

Lemma pc_conseq (A : Type) (P P' : state -> Prop) (m : M A)
      (Q Q' : A -> state -> Prop) :
  pc P' m Q' -> (forall s, P s -> P' s) -> (forall a s, Q' a s -> Q a s) ->
  pc P m Q.
Proof. intros H HP HQ s a s' Hs E. apply HQ. eapply H; eauto. Qed.

Lemma pc_pure (A : Type) (P : state -> Prop) (F : Prop) (m : M A)
      (Q : A -> state -> Prop) :
  (F -> pc P m Q) -> pc (fun s => P s /\ F) m Q.
Proof. intros H s a s' [HP HF]. now apply H. Qed.

Lemma pc_for_each (A : Type) (I : state -> Prop) (xs : list A)
      (body : A -> M unit) :
  (forall x, In x xs -> pc I (body x) (fun _ => I)) ->
  pc I (for_each xs body) (fun _ => I).
Proof.
  induction xs as [|x xs IH]; intros Hb; cbn [for_each].
  - apply pc_ret.
  - eapply pc_bind; [apply Hb; now left|]. intros u. apply IH.
    intros y Hy. apply Hb. now right.
Qed.

Section Provenance.

Variable D : obj -> Prop.

Definition cells_from (da : dict (list (list obj))) : Prop :=
  forall k rows row d,
    dict_get k da = Some rows -> In row rows -> In d row -> D d.

Definition info_from (i : dict (option obj)) : Prop :=
  forall k v, dict_get k i = Some (Some v) -> D v.

Definition prov (s : state) : Prop :=
  cells_from (dates_all s) /\ info_from (info s).

Lemma list_set_in (V : Type) (i : nat) (v : V) (a : list V) (x : V) :
  In x (list_set i v a) -> x = v \/ In x a.
Proof.
  revert i. induction a as [|y a IH]; intros [|i]; simpl; auto.
  - intros [<-|H]; auto.
  - intros [<-|H]; auto. destruct (IH i H); auto.
Qed.

Lemma cells_from_set (da : dict (list (list obj))) (k : string)
      (rows : list (list obj)) :
  cells_from da -> (forall row d, In row rows -> In d row -> D d) ->
  cells_from (dict_set k rows da).
Proof.
  intros Hc Hr k' rows' row d Hg. apply dict_get_set_cases in Hg.
  destruct Hg as [[-> ->]|[_ Hg]]; eauto.
Qed.

Lemma pc_dates_at (k : string) (i : nat) :
  pc prov (dates_at k i) (fun ds s => prov s /\ forall d, In d ds -> D d).
Proof.
  intros s ds s' HP H. unfold dates_at, bind, get, item, lift, at_ in H.
  destruct (dict_get k (dates_all s)) as [rows|] eqn:E; [|discriminate].
  simpl in H. destruct (nth_error rows i) as [row|] eqn:En; [|discriminate].
  inversion H; subst. split; auto. intros d Hd.
  apply (proj1 HP k rows ds d E); auto. eapply nth_error_In; eauto.
Qed.

Lemma pc_set_dates_at (k : string) (i : nat) (v : list obj) :
  (forall d, In d v -> D d) ->
  pc prov (set_dates_at k i v) (fun _ => prov).
Proof.
  intros Hv s [] s' [Hc Hi] H.
  unfold set_dates_at, bind, get, item, lift, at_, set_dates_all, modify in H.
  destruct (dict_get k (dates_all s)) as [rows|] eqn:E; [|discriminate].
  simpl in H. destruct (nth_error rows i) as [row|]; [|discriminate].
  inversion H; subst. split; simpl; auto.
  apply cells_from_set; auto. intros row' d Hr Hd.
  apply list_set_in in Hr. destruct Hr as [->|Hr]; eauto.
Qed.

Lemma pc_set_info_at (k : string) (v : option obj) :
  (forall x, v = Some x -> D x) ->
  pc prov (set_info_at k v) (fun _ => prov).
Proof.
  intros Hv s [] s' [Hc Hi] H.
  unfold set_info_at, bind, get, set_info, modify in H.
  inversion H; subst. split; simpl; auto.
  intros k' x Hg. apply dict_get_set_cases in Hg.
  destruct Hg as [[_ Hx]|[_ Hg]]; eauto.
Qed.

Lemma pc_score_at (k : string) (i : nat) :
  pc prov (score_at k i) (fun _ => prov).
Proof.
  intros s x s' HP H. unfold score_at, bind, get, item, lift, at_ in H.
  destruct (dict_get k (scores s)); [|discriminate]. simpl in H.
  destruct (nth_error _ i); [|discriminate]. inversion H; subst. exact HP.
Qed.

Lemma pc_set_score_at (k : string) (i : nat) (v : Z) :
  pc prov (set_score_at k i v) (fun _ => prov).
Proof.
  intros s [] s' HP H.
  unfold set_score_at, bind, get, item, lift, at_, set_scores, modify in H.
  destruct (dict_get k (scores s)); [|discriminate]. simpl in H.
  destruct (nth_error _ i); [|discriminate]. inversion H; subst. exact HP.
Qed.

Lemma pc_info_get (k : string) : pc prov (info_get k) (fun _ => prov).
Proof.
  intros s x s' HP H. unfold info_get, bind, get, ret in H.
  inversion H; subst. exact HP.
Qed.

Lemma pc_keep (A : Type) (f : state -> A) : pc prov (get f) (fun _ => prov).
Proof. intros s a s' HP H. inversion H; subst. exact HP. Qed.

Lemma pc_lift_keep (A : Type) (e : exn) (o : option A) :
  pc prov (lift e o) (fun _ => prov).
Proof.
  intros s a s' HP H. destruct o; [|discriminate]. inversion H; subst. exact HP.
Qed.

Lemma pc_get_dates :
  pc prov (get dates_all) (fun d s => prov s /\ cells_from d).
Proof. intros s a s' HP H. inversion H; subst. split; auto. apply HP. Qed.

Lemma suppress_lines_in (cur keep : list (list obj)) (row' : list obj) (d : obj) :
  In row' (suppress_lines cur keep) -> In d row' ->
  exists row, In row cur /\ In d row.
Proof.
  revert keep. induction cur as [|r cur IH]; intros [|k keep]; simpl;
    try tauto.
  - intros [<-|H] Hd; eauto.
  - intros [<-|H] Hd.
    + apply filter_In in Hd. exists r. tauto.
    + destruct (IH keep H Hd) as (row & Hr & Hd'). eauto.
Qed.

Lemma pc_suppress_key (kk key : string) :
  pc prov (suppress_key kk key) (fun _ => prov).
Proof.
  unfold suppress_key.
  eapply pc_bind; [apply pc_get_dates|]. intros d. apply pc_pure. intros Hd.
  eapply pc_bind; [apply pc_lift|]. intros cur. apply pc_pure. intros Hcur.
  destruct (String.eqb key kk || is_nil cur); [apply pc_ret|].
  eapply pc_bind; [apply pc_lift|]. intros keep. apply pc_pure. intros Hkeep.
  intros s [] s' [Hc Hi] H. unfold set_dates_all, modify in H.
  inversion H; subst. split; simpl; auto.
  apply cells_from_set; auto. intros row' x Hr Hx.
  destruct (suppress_lines_in _ _ _ _ Hr Hx) as (row & Hrow & Hx').
  exact (Hd key cur row x Hcur Hrow Hx').
Qed.

Lemma pc_nms (n : nat) : pc prov (nms n) (fun _ => prov).
Proof.
  unfold nms. apply pc_for_each. intros i _. unfold nms_line.
  eapply pc_bind; [apply pc_keep|]. intros sc.
  destruct (claim_scan sc i None false) as [e|[[kk|] [|]]];
    try apply pc_ret; try apply pc_raise.
  eapply pc_bind; [apply pc_keep|]. intros d.
  apply pc_for_each. intros k _. apply pc_suppress_key.
Qed.

Lemma pc_drop_from_line (p : nat * list obj) :
  pc prov (drop_from_line p) (fun _ => prov).
Proof.
  destruct p as [idx dates]. unfold drop_from_line.
  eapply pc_bind; [apply pc_score_at|]. intros st.
  destruct (Z.eqb st 0); [apply pc_ret|].
  eapply pc_bind; [apply pc_score_at|]. intros kf.
  destruct (Z.eqb kf 0); [apply pc_ret|].
  destruct (length dates <? 3); [|apply pc_ret].
  eapply pc_bind; [apply pc_set_score_at|]. intros u.
  apply pc_set_dates_at. intros d [].
Qed.

Lemma pc_suppress_from : pc prov suppress_from (fun _ => prov).
Proof.
  unfold suppress_from.
  eapply pc_bind; [apply pc_keep|]. intros d.
  eapply pc_bind; [apply pc_lift_keep|]. intros ed.
  apply pc_for_each. intros p _. apply pc_drop_from_line.
Qed.

Lemma pc_assign_ordered (a b : string) (x y : obj) :
  D x -> D y -> pc prov (assign_ordered a b x y) (fun _ => prov).
Proof.
  intros Hx Hy. unfold assign_ordered.
  assert (Sx : forall k, pc prov (set_info_at k (Some x)) (fun _ => prov))
    by (intros k; apply pc_set_info_at; intros z E; now inversion E; subst).
  assert (Sy : forall k, pc prov (set_info_at k (Some y)) (fun _ => prov))
    by (intros k; apply pc_set_info_at; intros z E; now inversion E; subst).
  eapply pc_bind; [apply Sx|]. intros u1.
  eapply pc_bind; [apply Sy|]. intros u2.
  destruct (text_gtb (obj_str x) (obj_str y)); [|apply pc_ret].
  eapply pc_bind; [apply Sy|]. intros u3. apply Sx.
Qed.

Lemma enumerate_snd_in (A : Type) (l : list A) (i : nat) (x : A) :
  In (i, x) (enumerate l) -> In x l.
Proof. unfold enumerate. apply in_combine_r. Qed.

Lemma pc_two_dates_line (p : nat * list obj) :
  (forall d, In d (snd p) -> D d) ->
  pc prov (two_dates_line p) (fun _ => prov).
Proof.
  destruct p as [idx dates]. simpl. intros Hd. unfold two_dates_line.
  destruct dates as [|x [|y [|? ?]]]; try apply pc_ret.
  eapply pc_bind; [apply pc_score_at|]. intros st.
  destruct (0 <? st)%Z; [|apply pc_ret].
  eapply pc_bind; [apply pc_score_at|]. intros kf.
  destruct (Z.eqb kf 0); [|apply pc_ret].
  apply pc_assign_ordered; apply Hd; simpl; auto.
Qed.

Lemma pc_two_dates : pc prov two_dates (fun _ => prov).
Proof.
  unfold two_dates.
  eapply pc_bind; [apply pc_get_dates|]. intros d. apply pc_pure. intros Hd.
  eapply pc_bind; [apply pc_lift|]. intros ed. apply pc_pure. intros Hed.
  apply pc_for_each. intros [idx dates] Hin. apply pc_two_dates_line.
  simpl. intros x Hx.
  exact (Hd _ ed dates x Hed (enumerate_snd_in _ _ _ Hin) Hx).
Qed.

Lemma pc_pop_used (i : nat) (used : obj) (k : string) :
  pc prov (pop_used i used k) (fun _ => prov).
Proof.
  unfold pop_used.
  eapply pc_bind; [apply pc_dates_at|]. intros ds. apply pc_pure. intros Hds.
  destruct (is_nil ds); [apply pc_ret|].
  apply pc_set_dates_at. intros d Hd. apply filter_In in Hd. apply Hds, Hd.
Qed.

Lemma pc_assign_key (th : Z) (key : string) :
  pc prov (assign_key th key) (fun _ => prov).
Proof.
  unfold assign_key.
  eapply pc_bind; [apply pc_info_get|]. intros cur.
  destruct cur; [apply pc_ret|].
  eapply pc_bind; [apply pc_keep|]. intros sc.
  eapply pc_bind; [apply pc_lift_keep|]. intros a.
  eapply pc_bind; [apply pc_lift_keep|]. intros vm.
  eapply pc_bind; [apply pc_lift_keep|]. intros im.
  destruct ((th <=? vm)%Z && Nat.eqb (count_eq vm a) 1); [|apply pc_ret].
  eapply pc_bind; [apply pc_dates_at|]. intros ds. apply pc_pure. intros Hds.
  destruct ds as [|dt [|? ?]]; try apply pc_ret.
  eapply pc_bind.
  - apply pc_set_info_at. intros x E. inversion E; subst. apply Hds. now left.
  - intros u. eapply pc_bind; [apply pc_keep|]. intros sc'.
    apply pc_for_each. intros k _. apply pc_pop_used.
Qed.

Lemma pc_assign_pass (th : Z) : pc prov (assign_pass th) (fun _ => prov).
Proof.
  unfold assign_pass. eapply pc_bind; [apply pc_keep|]. intros sc.
  apply pc_for_each. intros k _. apply pc_assign_key.
Qed.

Lemma pc_assign_while (fuel : nat) :
  forall th prev, pc prov (assign_while fuel th prev) (fun _ => prov).
Proof.
  induction fuel as [|fuel IH]; intros th prev; cbn [assign_while];
    (eapply pc_bind; [apply pc_keep|]); intros sc;
      destruct (scores_settled prev sc); try apply pc_ret.
  - apply pc_raise.
  - eapply pc_bind; [apply pc_assign_pass|]. intros u. apply IH.
Qed.

Lemma pc_assign_all (fuel : nat) : pc prov (assign_all fuel) (fun _ => prov).
Proof.
  unfold assign_all. eapply pc_bind; [apply pc_keep|]. intros sc.
  eapply pc_bind; [apply pc_lift_keep|]. intros m.
  apply pc_for_each. intros th _. apply pc_assign_while.
Qed.

Lemma pc_same_line_from_until :
  pc prov same_line_from_until (fun _ => prov).
Proof.
  unfold same_line_from_until.
  eapply pc_bind; [apply pc_keep|]. intros i.
  destruct (negb (dict_mem "YukoStYmd" i) && negb (dict_mem "YukoEdYmd" i));
    [|apply pc_ret].
  eapply pc_bind; [apply pc_keep|]. intros sc.
  eapply pc_bind; [apply pc_lift_keep|]. intros af.
  eapply pc_bind; [apply pc_lift_keep|]. intros idf.
  eapply pc_bind; [apply pc_lift_keep|]. intros au.
  eapply pc_bind; [apply pc_lift_keep|]. intros idu.
  eapply pc_bind; [apply pc_dates_at|]. intros df. apply pc_pure. intros Hdf.
  eapply pc_bind; [apply pc_dates_at|]. intros du. apply pc_pure. intros Hdu.
  destruct (text_eqb (list_str df) (list_str du)); [|apply pc_ret].
  destruct df as [|x [|y [|? ?]]]; try apply pc_ret.
  eapply pc_bind.
  - apply pc_set_info_at. intros z E. inversion E; subst. apply Hdf. now left.
  - intros u. apply pc_set_info_at. intros z E. inversion E; subst.
    apply Hdf. simpl. auto.
Qed.

Lemma pc_until_issue_line (idx : nat) :
  pc prov (until_issue_line idx) (fun _ => prov).
Proof.
  unfold until_issue_line.
  eapply pc_bind; [apply pc_score_at|]. intros kf.
  destruct (0 <? kf)%Z; [|apply pc_ret].
  eapply pc_bind; [apply pc_dates_at|]. intros ed. apply pc_pure. intros Hed.
  destruct (Nat.eqb (length ed) 2); [|apply pc_ret].
  eapply pc_bind; [apply pc_dates_at|]. intros ks. apply pc_pure. intros Hks.
  destruct ks as [|x [|y [|? ?]]]; try apply pc_ret.
  apply pc_assign_ordered; apply Hks; simpl; auto.
Qed.

Lemma pc_same_line_until_issue :
  pc prov same_line_until_issue (fun _ => prov).
Proof.
  unfold same_line_until_issue.
  eapply pc_bind; [apply pc_info_get|]. intros ed.
  eapply pc_bind; [apply pc_info_get|]. intros kf.
  destruct ed, kf; try apply pc_ret.
  eapply pc_bind; [apply pc_keep|]. intros sc.
  eapply pc_bind; [apply pc_lift_keep|]. intros a.
  apply pc_for_each. intros i _. apply pc_until_issue_line.
Qed.

Lemma pc_fallback_scan (key : string) (order : list nat) :
  pc prov (fallback_scan key order) (fun _ => prov).
Proof.
  induction order as [|idx order IH]; cbn [fallback_scan]; [apply pc_ret|].
  eapply pc_bind; [apply pc_dates_at|]. intros ds. apply pc_pure. intros Hds.
  destruct (is_nil ds); [exact IH|].
  eapply pc_bind.
  - instantiate (1 := fun _ => prov).
    destruct (String.eqb key "Birthday"); [|apply pc_ret].
    apply pc_set_dates_at. intros d Hd. apply Hds.
    now apply (Permutation_in _ (sorted_by_str_perm ds)).
  - intros u. eapply pc_bind; [apply pc_dates_at|]. intros ds'.
    apply pc_pure. intros Hds'.
    destruct ds' as [|x ds']; [apply pc_raise|].
    eapply pc_bind.
    + apply pc_set_dates_at. intros d Hd. apply Hds'. now right.
    + intros u'. apply pc_set_info_at. intros z E. inversion E; subst.
      apply Hds'. now left.
Qed.

Lemma pc_fallback : pc prov fallback (fun _ => prov).
Proof.
  unfold fallback. eapply pc_bind; [apply pc_keep|]. intros sc.
  apply pc_for_each. intros k _. unfold fallback_key.
  eapply pc_bind; [apply pc_info_get|]. intros cur.
  destruct cur; [apply pc_ret|].
  eapply pc_bind; [apply pc_keep|]. intros sc'.
  eapply pc_bind; [apply pc_lift_keep|]. intros a.
  apply pc_fallback_scan.
Qed.

Lemma pc_fill_missing (f : DatesFinder) :
  pc prov (fill_missing f) (fun _ => prov).
Proof.
  unfold fill_missing. apply pc_for_each. intros tag _.
  eapply pc_bind; [apply pc_keep|]. intros i.
  destruct (dict_mem tag i); [apply pc_ret|].
  apply pc_set_info_at. intros x E. discriminate.
Qed.

Lemma pc_resolve (fuel : nat) (f : DatesFinder) (p : Page) :
  pc prov (resolve fuel f p) (fun r _ => info_from r).
Proof.
  unfold resolve.
  eapply pc_bind; [apply pc_nms|]. intros u1.
  eapply pc_bind; [apply pc_suppress_from|]. intros u2.
  eapply pc_bind; [apply pc_two_dates|]. intros u3.
  eapply pc_bind; [apply pc_assign_all|]. intros u4.
  eapply pc_bind; [apply pc_same_line_from_until|]. intros u5.
  eapply pc_bind; [apply pc_same_line_until_issue|]. intros u6.
  eapply pc_bind; [apply pc_fallback|]. intros u7.
  eapply pc_bind; [apply pc_fill_missing|]. intros u8.
  intros s r s' HP H. inversion H; subst. apply HP.
Qed.

End Provenance.

(** A date object whose date the extraction function of the finder finds
    in the text that the matcher of some role returns for some line of the
    page. *)
Definition found_on (f : DatesFinder) (p : Page) (o : obj) : Prop :=
  exists tag m line,
    In (tag, m) (match_methods f) /\ In line p
    /\ In (val o) (extract_method f (snd (m (line_text line)))).

Lemma alloc_vals (ds : list Date) :
  forall h, map val (fst (alloc ds h)) = ds.
Proof.
  induction ds as [|d ds IH]; intros h; simpl; auto.
  specialize (IH (S h)). destruct (alloc ds (S h)) as [os h'].
  simpl in *. now rewrite IH.
Qed.

Lemma extract_lines_from (ef : text -> list Date) (sl : list (Z * text)) :
  forall h row o,
    In row (fst (extract_lines ef sl h)) -> In o row ->
    exists sc line, In (sc, line) sl /\ In (val o) (ef line).
Proof.
  induction sl as [|[sc line] sl IH]; intros h row o; simpl; [tauto|].
  destruct (0 <? sc)%Z.
  - pose proof (alloc_vals (ef line) h) as Hv.
    destruct (alloc (ef line) h) as [os h1]. simpl in Hv.
    specialize (IH h1 row o).
    destruct (extract_lines ef sl h1) as [rest h2]. simpl in *.
    intros [<-|Hr] Ho.
    + exists sc, line. split; auto. rewrite <- Hv. now apply in_map.
    + destruct (IH Hr Ho) as (sc' & l' & Hin & Hval). eauto.
  - specialize (IH h row o).
    destruct (extract_lines ef sl h) as [rest h2]. simpl in *.
    intros [<-|Hr] Ho; [contradiction|].
    destruct (IH Hr Ho) as (sc' & l' & Hin & Hval). eauto.
Qed.

Lemma role_result_texts (tag : string) (m : matcher) (p : Page) :
  snd (role_result tag m p) = map (fun line => snd (m (line_text line))) p.
Proof.
  unfold role_result. cbv zeta.
  destruct (String.eqb tag "YukoEdYmd" && _); apply score_texts.
Qed.

Lemma pc_extract_tag (f : DatesFinder) (p : Page)
      (x : (string * list text) * (string * list Z)) :
  In (fst x) (scored_texts p (match_methods f)) ->
  pc (prov (found_on f p)) (extract_tag (extract_method f) x)
     (fun _ => prov (found_on f p)).
Proof.
  destruct x as [[tag lines] [tag' scs]]. simpl. intros Hin.
  unfold scored_texts in Hin. apply in_map_iff in Hin.
  destruct Hin as ([tg m] & E & Hm). simpl in E. inversion E; subst tg lines.
  clear E. unfold extract_tag.
  eapply pc_bind; [apply pc_keep|]. intros h.
  pose proof (extract_lines_from (extract_method f)
                (combine scs (snd (role_result tag m p))) h) as Hrows.
  destruct (extract_lines (extract_method f)
              (combine scs (snd (role_result tag m p))) h) as [ds h'].
  simpl in Hrows.
  intros s [] s' [Hc Hi] H.
  unfold bind, set_heap, set_dates_all, modify, get in H.
  inversion H; subst. split; simpl; auto.
  apply cells_from_set; auto. intros row o Hr Ho.
  destruct (Hrows row o Hr Ho) as (sc & t & Hsl & Hval).
  apply in_combine_r in Hsl. rewrite role_result_texts in Hsl.
  apply in_map_iff in Hsl. destruct Hsl as (line & <- & Hline).
  exists tag, m, line. auto.
Qed.

Lemma prepare_found (f : DatesFinder) (p : Page) (s0 s1 : state) :
  NoDup (keys (match_methods f)) -> settled f s0 ->
  prepare f p s0 = (inr tt, s1) -> prov (found_on f p) s1.
Proof.
  intros Hnd Hs Hrun. rewrite (prepare_run p Hnd Hs) in Hrun.
  refine (@pc_for_each _ (prov (found_on f p)) _ _ _ _ tt s1 _ Hrun).
  - intros x Hx. apply pc_extract_tag. destruct x as [a b].
    now apply in_combine_l in Hx.
  - split; intros k; simpl; discriminate.
Qed.

(** Every date in the result of [extract] is a date that the extraction
    function found in the text some matcher of the finder returned for
    some line of the page: no step makes a date up or takes one from an
    earlier call. *)
Theorem extract_dates_found (f : DatesFinder) (p : Page) (s0 s' : state)
      (r : dict (option obj)) (k : string) (v : obj) :
  NoDup (keys (match_methods f)) -> settled f s0 ->
  extract f p s0 = (inr r, s') ->
  dict_get k r = Some (Some v) ->
  found_on f p v.
Proof.
  intros Hnd Hs Hrun Hk. unfold extract, extract_with, bind in Hrun.
  destruct (prepare f p s0) as [[e|[]] s1] eqn:Hp; [discriminate|].
  pose proof (prepare_found p Hnd Hs Hp) as Hprov.
  exact (@pc_resolve (found_on f p) while_fuel f p s1 r s' Hprov Hrun k v Hk).
Qed.

(** ** A resolved role keeps its date *)

(** What [extract] does after the step for two dates on a line. *)
Definition finish (fuel : nat) (f : DatesFinder) : M (dict (option obj)) :=
  assign_all fuel ;;
  same_line_from_until ;;
  same_line_until_issue ;;
  fallback ;;
  fill_missing f ;;
  get info.

Lemma resolve_finish (fuel : nat) (f : DatesFinder) (p : Page) :
  resolve fuel f p
  = (nms (length p) ;; suppress_from ;; two_dates ;; finish fuel f).
Proof. reflexivity. Qed.

Section Kept.

Variable k : string.
Variable v : obj.

Definition holds (s : state) : Prop := dict_get k (info s) = Some (Some v).

Lemma pk_keep (A : Type) (f : state -> A) : pc holds (get f) (fun _ => holds).
Proof. intros s a s' HP H. inversion H; subst. exact HP. Qed.

Lemma pk_lift (A : Type) (e : exn) (o : option A) :
  pc holds (lift e o) (fun _ => holds).
Proof.
  intros s a s' HP H. destruct o; [|discriminate]. inversion H; subst. exact HP.
Qed.

Lemma pk_dates_at (k' : string) (i : nat) :
  pc holds (dates_at k' i) (fun _ => holds).
Proof.
  intros s ds s' HP H. unfold dates_at, bind, get, item, lift, at_ in H.
  destruct (dict_get k' (dates_all s)); [|discriminate]. simpl in H.
  destruct (nth_error _ i); [|discriminate]. inversion H; subst. exact HP.
Qed.

Lemma pk_set_dates_at (k' : string) (i : nat) (x : list obj) :
  pc holds (set_dates_at k' i x) (fun _ => holds).
Proof.
  intros s [] s' HP H.
  unfold set_dates_at, bind, get, item, lift, at_, set_dates_all, modify in H.
  destruct (dict_get k' (dates_all s)); [|discriminate]. simpl in H.
  destruct (nth_error _ i); [|discriminate]. inversion H; subst. exact HP.
Qed.

Lemma pk_score_at (k' : string) (i : nat) :
  pc holds (score_at k' i) (fun _ => holds).
Proof.
  intros s x s' HP H. unfold score_at, bind, get, item, lift, at_ in H.
  destruct (dict_get k' (scores s)); [|discriminate]. simpl in H.
  destruct (nth_error _ i); [|discriminate]. inversion H; subst. exact HP.
Qed.

Lemma pk_set_info_at (k' : string) (x : option obj) :
  k' <> k -> pc holds (set_info_at k' x) (fun _ => holds).
Proof.
  intros Hne s [] s' HP H.
  unfold set_info_at, bind, get, set_info, modify in H.
  inversion H; subst. unfold holds. simpl.
  rewrite dict_get_set_other by congruence. exact HP.
Qed.

Lemma pk_info_get (k' : string) :
  pc holds (info_get k') (fun cur s => holds s /\ (cur = None -> k' <> k)).
Proof.
  intros s cur s' HP H. unfold info_get, bind, get, ret in H.
  inversion H; subst. split; auto. intros E ->.
  unfold holds in HP. rewrite HP in E. discriminate.
Qed.

Lemma pk_get_info :
  pc holds (get info) (fun i s => holds s /\ dict_get k i = Some (Some v)).
Proof. intros s i s' HP H. inversion H; subst. auto. Qed.

Lemma mem_not_key (i : dict (option obj)) (tag : string) :
  dict_get k i = Some (Some v) -> dict_mem tag i = false -> tag <> k.
Proof.
  intros Hk Hm ->. unfold dict_mem in Hm. now rewrite Hk in Hm.
Qed.

Lemma pk_pop_used (i : nat) (used : obj) (k' : string) :
  pc holds (pop_used i used k') (fun _ => holds).
Proof.
  unfold pop_used. eapply pc_bind; [apply pk_dates_at|]. intros ds.
  destruct (is_nil ds); [apply pc_ret | apply pk_set_dates_at].
Qed.

Lemma pk_assign_ordered (a b : string) (x y : obj) :
  a <> k -> b <> k -> pc holds (assign_ordered a b x y) (fun _ => holds).
Proof.
  intros Ha Hb. unfold assign_ordered.
  eapply pc_bind; [now apply pk_set_info_at|]. intros u1.
  eapply pc_bind; [now apply pk_set_info_at|]. intros u2.
  destruct (text_gtb (obj_str x) (obj_str y)); [|apply pc_ret].
  eapply pc_bind; [now apply pk_set_info_at|]. intros u3.
  now apply pk_set_info_at.
Qed.

Lemma pk_assign_key (th : Z) (key : string) :
  pc holds (assign_key th key) (fun _ => holds).
Proof.
  unfold assign_key.
  eapply pc_bind; [apply pk_info_get|]. intros cur. apply pc_pure. intros Hc.
  destruct cur; [apply pc_ret|]. specialize (Hc eq_refl).
  eapply pc_bind; [apply pk_keep|]. intros sc.
  eapply pc_bind; [apply pk_lift|]. intros a.
  eapply pc_bind; [apply pk_lift|]. intros vm.
  eapply pc_bind; [apply pk_lift|]. intros im.
  destruct ((th <=? vm)%Z && Nat.eqb (count_eq vm a) 1); [|apply pc_ret].
  eapply pc_bind; [apply pk_dates_at|]. intros ds.
  destruct ds as [|dt [|? ?]]; try apply pc_ret.
  eapply pc_bind; [now apply pk_set_info_at|]. intros u.
  eapply pc_bind; [apply pk_keep|]. intros sc'.
  apply pc_for_each. intros k' _. apply pk_pop_used.
Qed.

Lemma pk_assign_while (fuel : nat) :
  forall th prev, pc holds (assign_while fuel th prev) (fun _ => holds).
Proof.
  induction fuel as [|fuel IH]; intros th prev; cbn [assign_while];
    (eapply pc_bind; [apply pk_keep|]); intros sc;
      destruct (scores_settled prev sc); try apply pc_ret.
  - apply pc_raise.
  - eapply pc_bind.
    + unfold assign_pass. eapply pc_bind; [apply pk_keep|]. intros sc'.
      apply pc_for_each. intros k' _. apply pk_assign_key.
    + intros u. apply IH.
Qed.

Lemma pk_assign_all (fuel : nat) : pc holds (assign_all fuel) (fun _ => holds).
Proof.
  unfold assign_all. eapply pc_bind; [apply pk_keep|]. intros sc.
  eapply pc_bind; [apply pk_lift|]. intros m.
  apply pc_for_each. intros th _. apply pk_assign_while.
Qed.

Lemma pk_same_line_from_until : pc holds same_line_from_until (fun _ => holds).
Proof.
  unfold same_line_from_until.
  eapply pc_bind; [apply pk_get_info|]. intros i. apply pc_pure. intros Hi.
  destruct (dict_mem "YukoStYmd" i) eqn:E1; [apply pc_ret|].
  destruct (dict_mem "YukoEdYmd" i) eqn:E2; [apply pc_ret|].
  cbn [negb andb].
  pose proof (mem_not_key _ Hi E1) as N1.
  pose proof (mem_not_key _ Hi E2) as N2.
  eapply pc_bind; [apply pk_keep|]. intros sc.
  eapply pc_bind; [apply pk_lift|]. intros af.
  eapply pc_bind; [apply pk_lift|]. intros idf.
  eapply pc_bind; [apply pk_lift|]. intros au.
  eapply pc_bind; [apply pk_lift|]. intros idu.
  eapply pc_bind; [apply pk_dates_at|]. intros df.
  eapply pc_bind; [apply pk_dates_at|]. intros du.
  destruct (text_eqb (list_str df) (list_str du)); [|apply pc_ret].
  destruct df as [|x [|y [|? ?]]]; try apply pc_ret.
  eapply pc_bind; [now apply pk_set_info_at|]. intros u.
  now apply pk_set_info_at.
Qed.

Lemma pk_same_line_until_issue :
  pc holds same_line_until_issue (fun _ => holds).
Proof.
  unfold same_line_until_issue.
  eapply pc_bind; [apply pk_info_get|]. intros ed. apply pc_pure. intros He.
  eapply pc_bind; [apply pk_info_get|]. intros kf. apply pc_pure. intros Hk.
  destruct ed, kf; try apply pc_ret.
  specialize (He eq_refl). specialize (Hk eq_refl).
  eapply pc_bind; [apply pk_keep|]. intros sc.
  eapply pc_bind; [apply pk_lift|]. intros a.
  apply pc_for_each. intros i _. unfold until_issue_line.
  eapply pc_bind; [apply pk_score_at|]. intros sk.
  destruct (0 <? sk)%Z; [|apply pc_ret].
  eapply pc_bind; [apply pk_dates_at|]. intros eds.
  destruct (Nat.eqb (length eds) 2); [|apply pc_ret].
  eapply pc_bind; [apply pk_dates_at|]. intros ks.
  destruct ks as [|x [|y [|? ?]]]; try apply pc_ret.
  now apply pk_assign_ordered.
Qed.

Lemma pk_fallback_scan (key : string) (order : list nat) :
  key <> k -> pc holds (fallback_scan key order) (fun _ => holds).
Proof.
  intros Hne. induction order as [|idx order IH]; cbn [fallback_scan];
    [apply pc_ret|].
  eapply pc_bind; [apply pk_dates_at|]. intros ds.
  destruct (is_nil ds); [exact IH|].
  eapply pc_bind.
  - instantiate (1 := fun _ => holds).
    destruct (String.eqb key "Birthday"); [apply pk_set_dates_at | apply pc_ret].
  - intros u. eapply pc_bind; [apply pk_dates_at|]. intros ds'.
    destruct ds' as [|x ds']; [apply pc_raise|].
    eapply pc_bind; [apply pk_set_dates_at|]. intros u'.
    now apply pk_set_info_at.
Qed.

Lemma pk_fallback : pc holds fallback (fun _ => holds).
Proof.
  unfold fallback. eapply pc_bind; [apply pk_keep|]. intros sc.
  apply pc_for_each. intros key _. unfold fallback_key.
  eapply pc_bind; [apply pk_info_get|]. intros cur. apply pc_pure. intros Hc.
  destruct cur; [apply pc_ret|]. specialize (Hc eq_refl).
  eapply pc_bind; [apply pk_keep|]. intros sc'.
  eapply pc_bind; [apply pk_lift|]. intros a.
  now apply pk_fallback_scan.
Qed.

Lemma pk_fill_missing (f : DatesFinder) :
  pc holds (fill_missing f) (fun _ => holds).
Proof.
  unfold fill_missing. apply pc_for_each. intros tag _.
  eapply pc_bind; [apply pk_get_info|]. intros i. apply pc_pure. intros Hi.
  destruct (dict_mem tag i) eqn:E; [apply pc_ret|].
  apply pk_set_info_at. exact (mem_not_key _ Hi E).
Qed.

Lemma pk_finish (fuel : nat) (f : DatesFinder) :
  pc holds (finish fuel f) (fun r _ => dict_get k r = Some (Some v)).
Proof.
  unfold finish.
  eapply pc_bind; [apply pk_assign_all|]. intros u4.
  eapply pc_bind; [apply pk_same_line_from_until|]. intros u5.
  eapply pc_bind; [apply pk_same_line_until_issue|]. intros u6.
  eapply pc_bind; [apply pk_fallback|]. intros u7.
  eapply pc_bind; [apply pk_fill_missing|]. intros u8.
  intros s r s' HP H. inversion H; subst. exact HP.
Qed.

End Kept.

(** A resolved role keeps its date: from the threshold step on, no step of
    [extract] assigns a role that already holds a date, so a date present
    when the threshold step starts is the date of the result. *)
Theorem resolved_role_kept (fuel : nat) (f : DatesFinder) (s s' : state)
        (r : dict (option obj)) (k : string) (v : obj) :
  dict_get k (info s) = Some (Some v) ->
  finish fuel f s = (inr r, s') ->
  dict_get k r = Some (Some v).
Proof.
  intros Hk Hrun. revert s r s' Hk Hrun.
  change (pc (holds k v) (finish fuel f)
             (fun r _ => dict_get k r = Some (Some v))).
  unfold finish.
  eapply pc_bind; [apply pk_assign_all|]. intros u4.
  eapply pc_bind; [apply pk_same_line_from_until|]. intros u5.
  eapply pc_bind; [apply pk_same_line_until_issue|]. intros u6.
  eapply pc_bind; [apply pk_fallback|]. intros u7.
  eapply pc_bind; [apply pk_fill_missing|]. intros u8.
  intros s r s' HP H. inversion H; subst. exact HP.
Qed.

(** ** The period of a line with two dates *)

(** Steps that never assign a role keep whatever holds of [info]. *)
Section InfoOnly.

Variable P : dict (option obj) -> Prop.

Definition on_info (s : state) : Prop := P (info s).

Lemma pi_frame (A : Type) (m : M A) :
  (forall s, info (snd (m s)) = info s) -> pc on_info m (fun _ => on_info).
Proof.
  intros H s a s' HP E. unfold on_info. specialize (H s). rewrite E in H.
  simpl in H. now rewrite H.
Qed.

Lemma pi_keep (A : Type) (f : state -> A) : pc on_info (get f) (fun _ => on_info).
Proof. apply pi_frame. reflexivity. Qed.

Lemma pi_lift (A : Type) (e : exn) (o : option A) :
  pc on_info (lift e o) (fun _ => on_info).
Proof. apply pi_frame. intros s. now destruct o. Qed.

Lemma pi_score_at (k : string) (i : nat) :
  pc on_info (score_at k i) (fun _ => on_info).
Proof.
  apply pi_frame. intros s. unfold score_at, bind, get, item, lift, at_.
  destruct (dict_get k (scores s)); auto. simpl. now destruct (nth_error _ i).
Qed.

Lemma pi_set_score_at (k : string) (i : nat) (x : Z) :
  pc on_info (set_score_at k i x) (fun _ => on_info).
Proof.
  apply pi_frame. intros s.
  unfold set_score_at, bind, get, item, lift, at_, set_scores, modify.
  destruct (dict_get k (scores s)); auto. simpl. now destruct (nth_error _ i).
Qed.

Lemma pi_set_dates_at (k : string) (i : nat) (x : list obj) :
  pc on_info (set_dates_at k i x) (fun _ => on_info).
Proof.
  apply pi_frame. intros s.
  unfold set_dates_at, bind, get, item, lift, at_, set_dates_all, modify.
  destruct (dict_get k (dates_all s)); auto. simpl.
  now destruct (nth_error _ i).
Qed.

Lemma pi_suppress_key (kk key : string) :
  pc on_info (suppress_key kk key) (fun _ => on_info).
Proof.
  apply pi_frame. intros s. unfold suppress_key, bind, get, item, lift.
  destruct (dict_get key (dates_all s)) as [cur|]; auto. simpl.
  destruct (String.eqb key kk || is_nil cur); auto.
  now destruct (dict_get kk (dates_all s)).
Qed.

Lemma pi_nms (n : nat) : pc on_info (nms n) (fun _ => on_info).
Proof.
  unfold nms. apply pc_for_each. intros i _. unfold nms_line.
  eapply pc_bind; [apply pi_keep|]. intros sc.
  destruct (claim_scan sc i None false) as [e|[[kk|] [|]]];
    try apply pc_ret; try apply pc_raise.
  eapply pc_bind; [apply pi_keep|]. intros d.
  apply pc_for_each. intros k _. apply pi_suppress_key.
Qed.

Lemma pi_suppress_from : pc on_info suppress_from (fun _ => on_info).
Proof.
  unfold suppress_from.
  eapply pc_bind; [apply pi_keep|]. intros d.
  eapply pc_bind; [apply pi_lift|]. intros ed.
  apply pc_for_each. intros [idx dates] _. unfold drop_from_line.
  eapply pc_bind; [apply pi_score_at|]. intros st.
  destruct (Z.eqb st 0); [apply pc_ret|].
  eapply pc_bind; [apply pi_score_at|]. intros kf.
  destruct (Z.eqb kf 0); [apply pc_ret|].
  destruct (length dates <? 3); [|apply pc_ret].
  eapply pc_bind; [apply pi_set_score_at|]. intros u.
  apply pi_set_dates_at.
Qed.

Lemma pi_extract_tag (ef : text -> list Date)
      (x : (string * list text) * (string * list Z)) :
  pc on_info (extract_tag ef x) (fun _ => on_info).
Proof.
  apply pi_frame. intros s. destruct x as [[tag lines] [tag' scs]].
  unfold extract_tag, bind, get.
  now destruct (extract_lines ef (combine scs lines) (heap s)).
Qed.

End InfoOnly.

(** The period held by [info]: unset, or a start that is not after the
    end in the order of the canonical strings. *)
Definition period_ordered (i : dict (option obj)) : Prop :=
  match dict_get "YukoStYmd" i, dict_get "YukoEdYmd" i with
  | Some (Some a), Some (Some b) => text_leb (obj_str a) (obj_str b) = true
  | None, None => True
  | _, _ => False
  end.

Lemma assign_ordered_period (x y : obj) :
  pc (fun _ => True) (assign_ordered "YukoStYmd" "YukoEdYmd" x y)
     (fun _ => on_info period_ordered).
Proof.
  intros s [] s' _ H. unfold assign_ordered in H.
  unfold bind, set_info_at, get, set_info, modify in H. simpl in H.
  unfold on_info, period_ordered.
  destruct (text_gtb (obj_str x) (obj_str y)) eqn:E;
    inversion H; subst; simpl;
    repeat (rewrite ?dict_get_set_same;
            rewrite ?(@dict_get_set_other _ "YukoStYmd" "YukoEdYmd")
              by discriminate;
            rewrite ?(@dict_get_set_other _ "YukoEdYmd" "YukoStYmd")
              by discriminate).
  - unfold text_gtb in E. unfold text_leb.
    now rewrite (text_ltb_asym _ _ E).
  - unfold text_gtb in E. unfold text_leb. now rewrite E.
Qed.

Lemma pc_two_dates_period :
  pc (on_info period_ordered) two_dates (fun _ => on_info period_ordered).
Proof.
  unfold two_dates.
  eapply pc_bind; [apply pi_keep|]. intros d.
  eapply pc_bind; [apply pi_lift|]. intros ed.
  apply pc_for_each. intros [idx dates] _. unfold two_dates_line.
  destruct dates as [|x [|y [|? ?]]]; try apply pc_ret.
  eapply pc_bind; [apply pi_score_at|]. intros st.
  destruct (0 <? st)%Z; [|apply pc_ret].
  eapply pc_bind; [apply pi_score_at|]. intros kf.
  destruct (Z.eqb kf 0); [|apply pc_ret].
  eapply pc_conseq; [apply assign_ordered_period| |]; simpl; auto.
Qed.

(** The state of a finder on a page when the step for two dates on a line
    is over. *)
Definition after_two_dates (f : DatesFinder) (p : Page) (s0 : state) : state :=
  snd ((prepare f p ;; nms (length p) ;; suppress_from ;; two_dates) s0).

Lemma prepare_info (f : DatesFinder) (p : Page) (s0 s1 : state) :
  NoDup (keys (match_methods f)) -> settled f s0 ->
  prepare f p s0 = (inr tt, s1) -> info s1 = [].
Proof.
  intros Hnd Hs Hrun. rewrite (prepare_run p Hnd Hs) in Hrun.
  refine (@pc_for_each _ (on_info (fun i => i = [])) _ _ _ _ tt s1 _ Hrun).
  - intros x _. apply pi_extract_tag.
  - reflexivity.
Qed.

(** When the step for two dates on a line assigns the period, the result
    of [extract] carries that period, and its start is not after its end
    in the order of the canonical strings. *)
Theorem extract_period_ordered (f : DatesFinder) (p : Page) (s0 s' : state)
      (r : dict (option obj)) (a : obj) :
  NoDup (keys (match_methods f)) -> settled f s0 ->
  extract f p s0 = (inr r, s') ->
  dict_get "YukoStYmd" (info (after_two_dates f p s0)) = Some (Some a) ->
  exists b,
    dict_get "YukoStYmd" r = Some (Some a)
    /\ dict_get "YukoEdYmd" r = Some (Some b)
    /\ text_leb (obj_str a) (obj_str b) = true.
Proof.
  intros Hnd Hs Hrun Ha.
  unfold extract, extract_with in Hrun. rewrite resolve_finish in Hrun.
  unfold after_two_dates in Ha.
  unfold bind at 1 in Hrun. unfold bind at 1 in Ha.
  destruct (prepare f p s0) as [[e|[]] s1] eqn:R1; [discriminate|].
  unfold bind at 1 in Hrun. unfold bind at 1 in Ha.
  destruct (nms (length p) s1) as [[e|[]] s2] eqn:R2; [discriminate|].
  unfold bind at 1 in Hrun. unfold bind at 1 in Ha.
  destruct (suppress_from s2) as [[e|[]] s3] eqn:R3; [discriminate|].
  unfold bind at 1 in Hrun.
  destruct (two_dates s3) as [[e|[]] s4] eqn:R4; [discriminate|].
  simpl in Ha.
  assert (H1 : on_info period_ordered s1).
  { unfold on_info. rewrite (prepare_info p Hnd Hs R1). exact I. }
  pose proof (@pi_nms period_ordered (length p) s1 tt s2 H1 R2) as H2.
  pose proof (@pi_suppress_from period_ordered s2 tt s3 H2 R3) as H3.
  pose proof (@pc_two_dates_period s3 tt s4 H3 R4) as H4.
  unfold on_info, period_ordered in H4. rewrite Ha in H4.
  destruct (dict_get "YukoEdYmd" (info s4)) as [[b|]|] eqn:Eb;
    try contradiction.
  exists b. repeat split; auto.
  - exact (@pk_finish "YukoStYmd" a while_fuel f s4 r s' Ha Hrun).
  - exact (@pk_finish "YukoEdYmd" b while_fuel f s4 r s' Eb Hrun).
Qed.

(** A line with the end of a period before its start. *)
Definition period_page : Page :=
  [ mkLine [] (U "2021年3月31日 2020年4月1日からまで") ].

Definition result_of (x : (exn + dict (option obj)) * state)
  : dict (option obj) :=
  match fst x with inr r => r | inl _ => [] end.

Lemma extract_dates_found_witness :
  found_on dates_finder issue_until_page (new_year_2021 0).
Proof.
  apply (@extract_dates_found dates_finder issue_until_page init_state
           (snd (extract dates_finder issue_until_page init_state))
           (result_of (extract dates_finder issue_until_page init_state))
           "YukoEdYmd" (new_year_2021 0)).
  - exact dates_finder_nodup.
  - apply init_settled.
  - vm_compute. reflexivity.
  - vm_compute. reflexivity.
Defined.

Lemma resolved_role_kept_witness :
  dict_get "YukoStYmd"
           (result_of (finish while_fuel dates_finder
                              (after_two_dates dates_finder period_page
                                               init_state)))
  = Some (Some (mkObj 1 (Date_init (U "2020") (U "4") (U "1") Ew))).
Proof.
  apply (@resolved_role_kept while_fuel dates_finder
           (after_two_dates dates_finder period_page init_state)
           (snd (finish while_fuel dates_finder
                        (after_two_dates dates_finder period_page init_state)))).
  - vm_compute. reflexivity.
  - vm_compute. reflexivity.
Defined.

Lemma extract_period_ordered_witness :
  exists b,
    dict_get "YukoStYmd" (result_of (extract dates_finder period_page init_state))
    = Some (Some (mkObj 1 (Date_init (U "2020") (U "4") (U "1") Ew)))
    /\ dict_get "YukoEdYmd"
                (result_of (extract dates_finder period_page init_state))
       = Some (Some b)
    /\ text_leb (obj_str (mkObj 1 (Date_init (U "2020") (U "4") (U "1") Ew)))
                (obj_str b) = true.
Proof.
  apply (@extract_period_ordered dates_finder period_page init_state
           (snd (extract dates_finder period_page init_state))).
  - exact dates_finder_nodup.
  - apply init_settled.
  - vm_compute. reflexivity.
  - vm_compute. reflexivity.
Defined.

(* ===================================================================== *)
(** * Numbers                                                              *)
(* ===================================================================== *)

(** ** Runs of one class and the first match of a search *)

Definition hi_allows (hi : option nat) (n : nat) : Prop :=
  match hi with Some h => n <= h | None => True end.

Lemma rep_cls_total (c : cls) (rest : text) :
  forall hi pos cs, rep_cls c 0 hi pos rest cs accept <> None.
Proof.
  induction rest as [|x rest IH]; intros hi pos cs; simpl; [discriminate|].
  destruct (hi_open hi && cls_match c x); [|discriminate].
  destruct (rep_cls c 0 (hi_pred hi) (S pos) rest cs accept) eqn:E;
    simpl; [discriminate|].
  exfalso. exact (IH _ _ _ E).
Qed.

(** What follows a run of [n] characters: the upper bound is reached, the
    text ends, or the next character is outside the class. *)
Definition run_ends (c : cls) (hi : option nat) (n : nat) (rest : text) : Prop :=
  hi = Some n \/ match skipn n rest with
                 | [] => True
                 | x :: _ => cls_match c x = false
                 end.

(** With the accepting continuation a greedy repetition takes the longest
    run it may. *)
Lemma rep_cls_accept (c : cls) (rest : text) :
  forall lo hi pos cs p r cs',
    rep_cls c lo hi pos rest cs accept = Some (p, r, cs') ->
    exists n,
      p = pos + n /\ r = skipn n rest /\ cs' = cs
      /\ lo <= n /\ hi_allows hi n /\ n <= length rest
      /\ forallb (cls_match c) (firstn n rest) = true
      /\ run_ends c hi n rest.
Proof.
  induction rest as [|x rest IH]; intros lo hi pos cs p r cs' H.
  - simpl in H. destruct (Nat.eqb lo 0) eqn:E; [|discriminate].
    apply Nat.eqb_eq in E. inversion H; subst.
    exists 0. rewrite Nat.add_0_r.
    split; [reflexivity|]. split; [reflexivity|]. split; [reflexivity|].
    split; [lia|]. split; [destruct hi; simpl; lia|]. split; [simpl; lia|].
    split; [reflexivity|]. right. exact I.
  - cbn [rep_cls] in H.
    assert (Stop : (if Nat.eqb lo 0 then accept pos (x :: rest) cs else None)
                   = Some (p, r, cs') -> lo = 0 /\ p = pos /\ r = x :: rest
                                         /\ cs' = cs).
    { destruct (Nat.eqb lo 0) eqn:E; [|discriminate].
      apply Nat.eqb_eq in E. intros H0. inversion H0; subst. auto. }
    destruct (hi_open hi && cls_match c x) eqn:Hc.
    + apply andb_true_iff in Hc. destruct Hc as [Ho Hx].
      destruct (rep_cls c (pred lo) (hi_pred hi) (S pos) rest cs accept)
        as [[[p1 r1] c1]|] eqn:E1; cbn [orelse] in H.
      * inversion H; subst.
        destruct (IH _ _ _ _ _ _ _ E1)
          as (n & -> & -> & -> & Hlo & Hhi & Hn & Hall & Hmax).
        exists (S n).
        split; [lia|]. split; [reflexivity|]. split; [reflexivity|].
        split; [lia|].
        split; [destruct hi as [[|h]|]; simpl in *; try discriminate; auto; lia|].
        split; [simpl; lia|].
        split; [simpl; now rewrite Hx|].
        destruct Hmax as [Hm|Hm]; [left|now right].
        destruct hi as [[|h]|]; simpl in *; try discriminate.
        inversion Hm. reflexivity.
      * destruct (Stop H) as (-> & _). exfalso.
        exact (@rep_cls_total c rest _ _ _ E1).
    + destruct (Stop H) as (-> & -> & -> & ->).
      exists 0. rewrite Nat.add_0_r.
      split; [reflexivity|]. split; [reflexivity|]. split; [reflexivity|].
      split; [lia|]. split; [destruct hi; simpl; lia|]. split; [simpl; lia|].
      split; [reflexivity|].
      apply andb_false_iff in Hc. destruct Hc as [Hc|Hc].
      * left. destruct hi as [[|h]|]; simpl in Hc; try discriminate. reflexivity.
      * right. exact Hc.
Qed.

(** The first match of a search: where it starts the pattern matches, and
    at no earlier position. *)
Lemma search_from_some (r : re) (rest : text) :
  forall pos m,
    search_from r pos rest = Some m ->
    exists i e tl,
      i <= length rest /\ m_start m = pos + i
      /\ mt r (pos + i) (skipn i rest) [] accept = Some (e, tl, m_caps m)
      /\ m_end m = e
      /\ forall j, j < i -> mt r (pos + j) (skipn j rest) [] accept = None.
Proof.
  induction rest as [|x rest IH]; intros pos m H; rewrite search_from_eq in H.
  - destruct (mt r pos [] [] accept) as [[[e tl] cs]|] eqn:E; [|discriminate].
    inversion H; subst. exists 0, e, tl. rewrite Nat.add_0_r.
    repeat split; auto; intros j Hj; lia.
  - destruct (mt r pos (x :: rest) [] accept) as [[[e tl] cs]|] eqn:E.
    + inversion H; subst. exists 0, e, tl. rewrite Nat.add_0_r.
      repeat split; auto; try (simpl; lia); intros j Hj; lia.
    + destruct (IH _ _ H) as (i & e & tl & Hi & Hs & Hm & He & Hbefore).
      exists (S i), e, tl. rewrite Nat.add_succ_r.
      split; [simpl; lia|]. split; [simpl; lia|]. split; [exact Hm|].
      split; [exact He|].
      intros [|j] Hj; [now rewrite Nat.add_0_r|].
      rewrite Nat.add_succ_r. apply Hbefore. lia.
Qed.

Lemma search_from_none (r : re) (rest : text) :
  forall pos,
    search_from r pos rest = None ->
    forall j, j <= length rest ->
              mt r (pos + j) (skipn j rest) [] accept = None.
Proof.
  induction rest as [|x rest IH]; intros pos H; rewrite search_from_eq in H.
  - destruct (mt r pos [] [] accept) as [[[e tl] cs]|] eqn:E; [discriminate|].
    intros [|j] Hj; simpl in Hj; [|lia]. now rewrite Nat.add_0_r.
  - destruct (mt r pos (x :: rest) [] accept) as [[[e tl] cs]|] eqn:E;
      [discriminate|].
    intros [|j] Hj; [now rewrite Nat.add_0_r|].
    rewrite Nat.add_succ_r. apply (IH (S pos) H). simpl in Hj. lia.
Qed.

(** ** [extract]: numbers *)

(** [m.group(0)]: the text of a match. *)
Definition match_text (m : rmatch) (s : text) : text :=
  firstn (m_end m - m_start m) (skipn (m_start m) s).

(** [p.findall(s)] for a pattern without groups: the texts of the
    matches. *)
Definition findall0 (r : re) (s : text) : list text :=
  map (fun m => match_text m s) (finditer r s).

(** [PURE_NUM = \d+] and [INSURER_NUM = \d{6,8}] *)
Definition PURE_NUM : re := Rep (Of [IDigit]) 1 None.
Definition INSURER_NUM : re := Rep (Of [IDigit]) 6 (Some 8).

(** [get_pure_num] *)
Definition get_pure_num (t : text) : option text :=
  match search PURE_NUM t with
  | None => None
  | Some m => Some (match_text m t)
  end.

Lemma digit_class (x : char) : cls_match (Of [IDigit]) x = is_decimal x.
Proof. cbn [cls_match existsb citem_match]. apply orb_false_r. Qed.

Lemma forallb_digit_class (l : text) :
  forallb (cls_match (Of [IDigit])) l = forallb is_decimal l.
Proof.
  induction l as [|x l IH]; simpl; auto.
  now rewrite IH, orb_false_r.
Qed.

(** The first match of a repeated class: its text is a run of the class
    within the bounds, no earlier position starts such a run, and the run
    ends where the repetition may not go on. *)
Lemma search_rep (c : cls) (lo : nat) (hi : option nat) (t : text) (m : rmatch) :
  search (Rep c lo hi) t = Some m ->
  exists i n,
    m_start m = i /\ m_end m = i + n /\ i + n <= length t
    /\ match_text m t = firstn n (skipn i t)
    /\ lo <= n /\ hi_allows hi n
    /\ forallb (cls_match c) (firstn n (skipn i t)) = true
    /\ run_ends c hi n (skipn i t)
    /\ forall j, j < i -> rep_cls c lo hi j (skipn j t) [] accept = None.
Proof.
  intros H. unfold search in H.
  destruct (search_from_some _ _ _ H) as (i & e & tl & Hi & Hs & Hm & He & Hb).
  simpl in Hs, Hm, Hb. cbn [mt] in Hm.
  destruct (rep_cls_accept _ _ _ _ _ _ Hm)
    as (n & -> & -> & _ & Hlo & Hhi & Hn & Hall & Hend).
  rewrite length_skipn in Hn.
  exists i, n. unfold match_text. rewrite Hs, He.
  replace (i + n - i) with n by lia.
  repeat split; auto. lia.
Qed.

Lemma rep_one_starts (c : cls) (hi : option nat) (x : char) (rest : text)
      (pos : nat) :
  hi_open hi = true -> cls_match c x = true ->
  rep_cls c 1 hi pos (x :: rest) [] accept <> None.
Proof.
  intros Ho Hx. cbn [rep_cls]. rewrite Ho, Hx. cbn [andb pred Nat.eqb].
  destruct (rep_cls c 0 (hi_pred hi) (S pos) rest [] accept) eqn:E;
    [discriminate|].
  exfalso. exact (@rep_cls_total c rest _ _ _ E).
Qed.

Lemma skipn_cons_nth (A : Type) (l : list A) (j : nat) (d : A) :
  j < length l -> skipn j l = nth j l d :: skipn (S j) l.
Proof.
  revert j. induction l as [|x l IH]; intros [|j] Hj; simpl in *; try lia; auto.
  apply IH. lia.
Qed.

Lemma forallb_firstn_nth (A : Type) (f : A -> bool) (d : A) (l : list A) (i : nat) :
  i <= length l ->
  (forall j, j < i -> f (nth j l d) = true) ->
  forallb f (firstn i l) = true.
Proof.
  revert i. induction l as [|x l IH]; intros [|i] Hi H; simpl in *;
    auto; try lia.
  rewrite (H 0) by lia. simpl. apply IH; [lia|].
  intros j Hj. apply (H (S j)). lia.
Qed.

Ltac len_lia := unfold text, char in *; lia.

(** [get_pure_num] returns the first run of decimal digits of the text, as
    long as it goes: nothing before it is a digit and what follows it, if
    anything, does not start with a digit.  It returns [None] exactly when
    the text has no digit. *)
Theorem get_pure_num_first_run (t : text) :
  match get_pure_num t with
  | None => forallb (fun c => negb (is_decimal c)) t = true
  | Some n =>
    n <> [] /\ forallb is_decimal n = true
    /\ exists pre post,
      t = pre ++ n ++ post
      /\ forallb (fun c => negb (is_decimal c)) pre = true
      /\ match post with [] => True | x :: _ => is_decimal x = false end
  end.
Proof.
  unfold get_pure_num. destruct (search PURE_NUM t) as [m|] eqn:E.
  - destruct (search_rep _ _ _ _ E)
      as (i & n & Hs & He & Hlen & -> & Hlo & _ & Hall & Hend & Hb).
    rewrite forallb_digit_class in Hall.
    assert (Hn : length (firstn n (skipn i t)) = n).
    { rewrite length_firstn, length_skipn. lia. }
    split; [intros E0; rewrite E0 in Hn; simpl in Hn; lia|].
    split; [exact Hall|].
    exists (firstn i t), (skipn n (skipn i t)).
    split; [now rewrite firstn_skipn, firstn_skipn|]. split.
    + apply (@forallb_firstn_nth char _ 0%N); [len_lia|]. intros j Hj.
      specialize (Hb j Hj).
      rewrite (@skipn_cons_nth char t j 0%N) in Hb by len_lia.
      cbv beta.
      match goal with |- negb ?b = true => destruct b eqn:Ed end; [|reflexivity].
      exfalso. revert Hb. apply rep_one_starts; [reflexivity|].
      now rewrite digit_class.
    + destruct Hend as [Hend|Hend]; [discriminate|].
      destruct (skipn n (skipn i t)) as [|x post]; auto.
      now rewrite digit_class in Hend.
  - unfold search in E.
    pose proof (search_from_none _ _ _ E) as Hn. simpl in Hn.
    rewrite <- (firstn_all t).
    apply (@forallb_firstn_nth char _ 0%N); [len_lia|]. intros j Hj.
    specialize (Hn j ltac:(len_lia)).
    rewrite (@skipn_cons_nth char t j 0%N) in Hn by len_lia.
    cbv beta.
      match goal with |- negb ?b = true => destruct b eqn:Ed end; [|reflexivity].
    exfalso. revert Hn. cbn [mt]. apply rep_one_starts; [reflexivity|].
    now rewrite digit_class.
Qed.

(** The first element of [findall] is the match [search] finds. *)
Lemma findall0_head (r : re) (s : text) :
  hd_error (findall0 r s)
  = match search r s with Some m => Some (match_text m s) | None => None end.
Proof.
  unfold findall0, finditer, search. cbn [finditer_from].
  destruct (search_from r 0 s); reflexivity.
Qed.

Section InsurerNum.

(** [\pP]: the characters of the Unicode category Punctuation, a table of
    the [regex] library. *)
Variable is_punct : char -> bool.

(** [re.sub(r"[ｌ\pP]+", "", text)]: every run of characters of the class is
    replaced by the empty string, which leaves the characters outside the
    class, in order. *)
Definition strip_marks (t : text) : text :=
  filter (fun c => negb (char_eqb c (ch "ｌ") || is_punct c)) t.

(** [if keyword in text: text = text[:text.index(keyword)]] *)
Definition cut_at (t keyword : text) : text :=
  if str_contains keyword t then upto (str_index keyword t) t else t.

(** [電話\d] and [\d{2,3}-\d{4}-\d{4}] *)
Definition PHONE_TAG : re := seqs [lit (U "電話"); One (Of [IDigit])].
Definition PHONE_NUM : re :=
  seqs [ Rep (Of [IDigit]) 2 (Some 3); chr (ch "-");
         Rep (Of [IDigit]) 4 (Some 4); chr (ch "-");
         Rep (Of [IDigit]) 4 (Some 4) ].

(** [get_insurer_num] *)
Definition get_insurer_num (t : text) : option text :=
  if length t <? 3 then None
  else
    let t := fold_left cut_at [U "受給"; U "資格者"] t in
    match findall0 INSURER_NUM t with
    | m0 :: _ => Some m0
    | [] =>
      if matches PHONE_TAG t then None
      else if negb (matches PHONE_NUM t)
      then match findall0 INSURER_NUM (strip_marks t) with
           | m0 :: _ => Some m0
           | [] => None
           end
      else None
    end.

(** A piece of [t]: some consecutive characters of it. *)
Definition piece_of (n t : text) : Prop := exists pre post, t = pre ++ n ++ post.

Lemma findall_insurer_num (t n : text) (l : list text) :
  findall0 INSURER_NUM t = n :: l ->
  6 <= length n <= 8 /\ forallb is_decimal n = true /\ piece_of n t.
Proof.
  intros H. pose proof (findall0_head INSURER_NUM t) as Hh. rewrite H in Hh.
  simpl in Hh. destruct (search INSURER_NUM t) as [m|] eqn:E; [|discriminate].
  inversion Hh; subst n.
  destruct (search_rep _ _ _ _ E)
    as (i & k & Hs & He & Hlen & -> & Hlo & Hhi & Hall & _ & _).
  rewrite forallb_digit_class in Hall. simpl in Hhi.
  assert (Hk : length (firstn k (skipn i t)) = k).
  { rewrite length_firstn, length_skipn. lia. }
  split; [unfold text, char in *; lia|]. split; [exact Hall|].
  exists (firstn i t), (skipn k (skipn i t)).
  now rewrite firstn_skipn, firstn_skipn.
Qed.

Lemma piece_of_firstn (n t : text) (i : nat) :
  piece_of n (firstn i t) -> piece_of n t.
Proof.
  intros (pre & post & H). exists pre, (post ++ skipn i t).
  rewrite <- (firstn_skipn i t) at 1. rewrite H.
  now rewrite <- !app_assoc.
Qed.

Lemma cut_at_firstn (t keyword : text) :
  exists i, cut_at t keyword = firstn i t.
Proof.
  unfold cut_at, upto. destruct (str_contains keyword t).
  - now exists (str_index keyword t).
  - exists (length t). now rewrite firstn_all.
Qed.

Lemma strip_marks_firstn (t : text) (i : nat) :
  exists j, strip_marks (firstn i t) = firstn j (strip_marks t).
Proof.
  revert i. induction t as [|x t IH]; intros [|i]; simpl;
    try (now exists 0).
  destruct (IH i) as (j & Hj). unfold strip_marks in *. simpl.
  destruct (negb (char_eqb x (ch "ｌ") || is_punct x)).
  - exists (S j). simpl. now rewrite Hj.
  - now exists j.
Qed.

Lemma get_insurer_num_digits_aux (t : text) :
  match get_insurer_num t with
  | None => True
  | Some n => 6 <= length n <= 8 /\ forallb is_decimal n = true
  end.
Proof.
  unfold get_insurer_num. destruct (length t <? 3); [exact I|].
  destruct (findall0 INSURER_NUM _) as [|n l] eqn:Ef.
  - destruct (matches PHONE_TAG _); [exact I|].
    destruct (negb (matches PHONE_NUM _)); [|exact I].
    destruct (findall0 INSURER_NUM (strip_marks _)) as [|n l] eqn:Es;
      [exact I|].
    destruct (findall_insurer_num _ Es) as (Hl & Hd & _). auto.
  - destruct (findall_insurer_num _ Ef) as (Hl & Hd & _). auto.
Qed.

(** [get_insurer_num] returns nothing, or six to eight decimal digits that
    stand together in the text or in the text without its marks; a text of
    fewer than three characters gives nothing. *)
Theorem get_insurer_num_digits (t : text) :
  match get_insurer_num t with
  | None => True
  | Some n =>
    3 <= length t /\ 6 <= length n <= 8 /\ forallb is_decimal n = true
    /\ (piece_of n t \/ piece_of n (strip_marks t))
  end.
Proof.
  unfold get_insurer_num. destruct (length t <? 3) eqn:El; [exact I|].
  apply Nat.ltb_ge in El.
  cbn [fold_left].
  destruct (cut_at_firstn t (U "受給")) as (i1 & E1).
  destruct (cut_at_firstn (cut_at t (U "受給")) (U "資格者")) as (i2 & E2).
  set (t2 := cut_at (cut_at t (U "受給")) (U "資格者")) in *.
  destruct (findall0 INSURER_NUM t2) as [|n l] eqn:Ef.
  - destruct (matches PHONE_TAG t2); [exact I|].
    destruct (negb (matches PHONE_NUM t2)); [|exact I].
    destruct (findall0 INSURER_NUM (strip_marks t2)) as [|n l] eqn:Es;
      [exact I|].
    destruct (findall_insurer_num _ Es) as (Hl & Hd & Hp).
    split; [exact El|]. split; [exact Hl|]. split; [exact Hd|]. right.
    rewrite E2, E1 in Hp.
    destruct (strip_marks_firstn (firstn i1 t) i2) as (j2 & J2).
    destruct (strip_marks_firstn t i1) as (j1 & J1).
    rewrite J2, J1 in Hp.
    exact (piece_of_firstn _ _ (piece_of_firstn _ _ Hp)).
  - destruct (findall_insurer_num _ Ef) as (Hl & Hd & Hp).
    split; [exact El|]. split; [exact Hl|]. split; [exact Hd|]. left.
    rewrite E2, E1 in Hp.
    exact (piece_of_firstn _ _ (piece_of_firstn _ _ Hp)).
Qed.

(** ** [MainAnalyzer]: the fallback for the insurer number *)

(** [texts[-2:]] *)
Definition last_two (A : Type) (l : list A) : list A := skipn (length l - 2) l.

(** The first loop of [_handle_hknjanum]: the first of the lines that gives
    a number which is not empty. *)
Fixpoint first_insurer_num (lines : Page) : option text :=
  match lines with
  | [] => None
  | line :: lines' =>
    match get_insurer_num (line_text line) with
    | Some (c :: res) => Some (c :: res)
    | _ => first_insurer_num lines'
    end
  end.

(** The second loop: the first line that is a number of eight or six
    digits. *)
Fixpoint first_bare_num (lines : Page) : option text :=
  match lines with
  | [] => None
  | line :: lines' =>
    let t := line_text line in
    if isdigit t && ((length t =? 8) || (length t =? 6)) then Some t
    else first_bare_num lines'
  end.

Definition _handle_hknjanum (texts_ : Page) (i : Info) : Info :=
  if _have i "HknjaNum" then i
  else
    let i1 := match first_insurer_num (last_two texts_) with
              | Some res => dict_set "HknjaNum" (Some (VStr res)) i
              | None => i
              end in
    if _have i1 "HknjaNum" then i1
    else match first_bare_num texts_ with
         | Some t => dict_set "HknjaNum" (Some (VStr t)) i1
         | None => i1
         end.

(** [_trim_hknjanum]; [None] stands for the [TypeError] of [len] on a value
    that is not a string (the finder and the fallback of HknjaNum store
    strings only). *)
Definition all_text (texts_ : Page) : text := concat (map line_text texts_).

Definition _trim_hknjanum (texts_ : Page) (i : Info) : option Info :=
  match dict_get "HknjaNum" i with
  | Some (Some (VStr num)) =>
    if length num <? 7 then Some i
    else if str_contains (U "国民健康保険") (all_text texts_)
         then Some (dict_set "HknjaNum" (Some (VStr (upto 6 num))) i)
         else Some (dict_set "HknjaNum" (Some (VStr (upto 8 num))) i)
  | Some (Some _) => None
  | _ => Some i
  end.

(** A number of six to eight decimal digits. *)
Definition insurer_digits (n : text) : Prop :=
  6 <= length n <= 8 /\ forallb is_decimal n = true.

Lemma first_insurer_num_digits (lines : Page) (n : text) :
  first_insurer_num lines = Some n -> insurer_digits n.
Proof.
  induction lines as [|line lines IH]; simpl; [discriminate|].
  pose proof (get_insurer_num_digits_aux (line_text line)) as H.
  destruct (get_insurer_num (line_text line)) as [[|c res]|]; auto.
  intros E. inversion E; subst. exact H.
Qed.

Lemma first_bare_num_digits (lines : Page) (n : text) :
  first_bare_num lines = Some n -> insurer_digits n.
Proof.
  induction lines as [|line lines IH]; simpl; [discriminate|].
  destruct (isdigit (line_text line)
            && ((length (line_text line) =? 8) || (length (line_text line) =? 6)))
    eqn:E; auto.
  intros H. inversion H; subst.
  apply andb_true_iff in E. destruct E as [Hd Hl].
  apply orb_true_iff in Hl. split.
  - destruct Hl as [Hl|Hl]; apply Nat.eqb_eq in Hl;
      unfold text, char in *; lia.
  - unfold isdigit in Hd. destruct (line_text line); [discriminate|exact Hd].
Qed.

Lemma forallb_firstn (A : Type) (f : A -> bool) (k : nat) (l : list A) :
  forallb f l = true -> forallb f (firstn k l) = true.
Proof.
  revert k. induction l as [|x l IH]; intros [|k]; simpl; auto.
  intros H. apply andb_true_iff in H. destruct H as [-> H]. simpl. auto.
Qed.

Lemma handle_hknjanum_result (texts_ : Page) (i : Info) :
  _have i "HknjaNum" = false ->
  (forall tag, tag <> "HknjaNum"%string ->
               dict_get tag (_handle_hknjanum texts_ i) = dict_get tag i)
  /\ (_have (_handle_hknjanum texts_ i) "HknjaNum" = false
      \/ exists n, dict_get "HknjaNum" (_handle_hknjanum texts_ i)
                   = Some (Some (VStr n))
                   /\ insurer_digits n).
Proof.
  intros Hi. unfold _handle_hknjanum. rewrite Hi.
  destruct (first_insurer_num (last_two texts_)) as [res|] eqn:E1.
  - assert (Hh : _have (dict_set "HknjaNum" (Some (VStr res)) i) "HknjaNum"
                 = true).
    { unfold _have. now rewrite dict_get_set_same. }
    rewrite Hh. split.
    + intros tag Ht. now apply dict_get_set_other.
    + right. exists res. rewrite dict_get_set_same. split; [reflexivity|].
      exact (first_insurer_num_digits _ E1).
  - rewrite Hi. destruct (first_bare_num texts_) as [t|] eqn:E2.
    + split.
      * intros tag Ht. now apply dict_get_set_other.
      * right. exists t. rewrite dict_get_set_same. split; [reflexivity|].
        exact (first_bare_num_digits _ E2).
    + split; auto.
Qed.

(** When the finders left HknjaNum null, [_handle_hknjanum] followed by
    [_trim_hknjanum] raises nothing, touches no other field, and leaves
    HknjaNum null or a number of six to eight decimal digits, of six digits
    when the page mentions 国民健康保険. *)
Theorem hknjanum_fallback (texts_ : Page) (i : Info) :
  _have i "HknjaNum" = false ->
  exists i',
    _trim_hknjanum texts_ (_handle_hknjanum texts_ i) = Some i'
    /\ (forall tag, tag <> "HknjaNum"%string ->
                    dict_get tag i' = dict_get tag i)
    /\ (_have i' "HknjaNum" = false
        \/ exists n, dict_get "HknjaNum" i' = Some (Some (VStr n))
                     /\ insurer_digits n
                     /\ (str_contains (U "国民健康保険") (all_text texts_) = true
                         -> length n = 6)).
Proof.
  intros Hi.
  destruct (handle_hknjanum_result texts_ i Hi) as (Hother & [Hn|(n & Hg & Hl & Hd)]).
  - exists (_handle_hknjanum texts_ i). unfold _trim_hknjanum.
    unfold _have in Hn.
    destruct (dict_get "HknjaNum" (_handle_hknjanum texts_ i)) as [[v|]|] eqn:E;
      try discriminate; (split; [reflexivity|]); split; auto;
        left; unfold _have; now rewrite E.
  - unfold _trim_hknjanum. rewrite Hg.
    destruct (length n <? 7) eqn:E7.
    + exists (_handle_hknjanum texts_ i). split; [reflexivity|].
      split; [exact Hother|]. right. exists n.
      split; [exact Hg|]. split; [split; assumption|].
      intros _. apply Nat.ltb_lt in E7. unfold text, char in *. lia.
    + apply Nat.ltb_ge in E7.
      destruct (str_contains (U "国民健康保険") (all_text texts_)) eqn:Ek.
      * eexists. split; [reflexivity|]. split.
        { intros tag Ht. rewrite dict_get_set_other by exact Ht. auto. }
        right. exists (upto 6 n). rewrite dict_get_set_same.
        split; [reflexivity|].
        assert (L : length (upto 6 n) = 6).
        { unfold upto. rewrite length_firstn. unfold text, char in *. lia. }
        split; [split; [unfold text, char in *; lia|]|auto].
        now apply forallb_firstn.
      * eexists. split; [reflexivity|]. split.
        { intros tag Ht. rewrite dict_get_set_other by exact Ht. auto. }
        right. exists (upto 8 n). rewrite dict_get_set_same.
        split; [reflexivity|].
        assert (L : length (upto 8 n) = length n).
        { unfold upto. rewrite length_firstn. unfold text, char in *. lia. }
        split; [split; [unfold text, char in *; lia|]|discriminate].
        now apply forallb_firstn.
Qed.

End InsurerNum.

Definition no_punct : char -> bool := fun _ => false.

Definition kokuho_page : Page :=
  [ mkLine [] (U "国民健康保険被保険者証"); mkLine [] (U "保険者番号 12345678") ].

Lemma hknjanum_fallback_witness :
  exists i',
    _trim_hknjanum kokuho_page (_handle_hknjanum no_punct kokuho_page []) = Some i'
    /\ (forall tag, tag <> "HknjaNum"%string ->
                    dict_get tag i' = dict_get tag [])
    /\ (_have i' "HknjaNum" = false
        \/ exists n, dict_get "HknjaNum" i' = Some (Some (VStr n))
                     /\ insurer_digits n
                     /\ (str_contains (U "国民健康保険") (all_text kokuho_page) = true
                         -> length n = 6)).
Proof.
  apply (@hknjanum_fallback no_punct kokuho_page []). reflexivity.
Defined.
